(** * The thruster system of gz-sim (src/systems/thruster/Thruster.cc)

    A shallow embedding of the thruster plugin: the private data of the
    system, the two conversions between thrust and propeller angular
    velocity, the command callbacks, the battery gate and the PreUpdate /
    PostUpdate steps, followed by the properties established about them.

    The C++ code computes on [double].  The embedding is written once over
    an interface [Arith] of the operations the code uses and is read at two
    instances: [binary64], IEEE 754 double precision through Rocq's primitive
    floats (every definition evaluates there), and [ideal], exact arithmetic
    on real numbers (no rounding, no NaN, no infinities), in which the
    scenario of the specification is evaluated.  The laws of the two
    conversions are proved at [binary64], from the rounding of each
    operation. *)

From Stdlib Require Import ZArith Bool List String Reals Lra Lia Floats.
From coqutil Require Import Datatypes.RecordSetters.
Import ListNotations.
Import TriangleBracketNotations.

Set Warnings "-inexact-float".

(** ** Arithmetic on [double] *)

Class Arith : Type := {
  double : Type;
  of_Z : Z -> double;
  dadd : double -> double -> double;
  dsub : double -> double -> double;
  dmul : double -> double -> double;
  ddiv : double -> double -> double;
  dsqrt : double -> double;
  dabs : double -> double;
  dltb : double -> double -> bool;
  dleb : double -> double -> bool;
  deqb : double -> double -> bool;
  disnan : double -> bool;
  disinf : double -> bool
}.

Declare Scope double_scope.
Delimit Scope double_scope with D.
Infix "+" := dadd : double_scope.
Infix "-" := dsub : double_scope.
Infix "*" := dmul : double_scope.
Infix "/" := ddiv : double_scope.
Infix "<?" := dltb : double_scope.
Infix "<=?" := dleb : double_scope.
Infix "=?" := deqb : double_scope.
Notation "a >? b" := (dltb b a) (at level 70) : double_scope.
Notation "a >=? b" := (dleb b a) (at level 70) : double_scope.

(** IEEE 754 binary64: the kernel's primitive floats.  An integer is
    converted bit by bit; the conversion is exact up to 2^53 in magnitude,
    which covers every integer literal of the source and the step lengths
    of the host. *)
Fixpoint pos2float (p : positive) : float :=
  match p with
  | xH => 1%float
  | xO q => (2 * pos2float q)%float
  | xI q => (2 * pos2float q + 1)%float
  end.

Definition Z2float (z : Z) : float :=
  match z with
  | Z0 => 0%float
  | Zpos p => pos2float p
  | Zneg p => (- pos2float p)%float
  end.

Definition binary64 : Arith := {|
  double := float;
  of_Z := Z2float;
  dadd := PrimFloat.add;
  dsub := PrimFloat.sub;
  dmul := PrimFloat.mul;
  ddiv := PrimFloat.div;
  dsqrt := PrimFloat.sqrt;
  dabs := PrimFloat.abs;
  dltb := PrimFloat.ltb;
  dleb := PrimFloat.leb;
  deqb := PrimFloat.eqb;
  disnan := PrimFloat.is_nan;
  disinf := PrimFloat.is_infinity
|}.

(** Exact arithmetic on the reals.  Comparisons are decided classically;
    no value is a NaN or infinite.  A quotient by zero has no counterpart
    in the code's arithmetic: the results stated at this instance assume
    nonzero denominators, and the behaviour of the code at a zero
    denominator is evaluated in [binary64]. *)
Definition Rltb (a b : R) : bool := if Rlt_dec a b then true else false.
Definition Rleb (a b : R) : bool := if Rle_dec a b then true else false.
Definition Reqb (a b : R) : bool := if Req_dec_T a b then true else false.

Definition ideal : Arith := {|
  double := R;
  of_Z := IZR;
  dadd := Rplus;
  dsub := Rminus;
  dmul := Rmult;
  ddiv := Rdiv;
  dsqrt := R_sqrt.sqrt;
  dabs := Rabs;
  dltb := Rltb;
  dleb := Rleb;
  deqb := Reqb;
  disnan := fun _ => false;
  disinf := fun _ => false
|}.

(** The facts about the order on doubles that the results below use: [<] is
    transitive and never holds of a NaN, and [a <= b] excludes [b < a]. *)
Class ArithLaws (D : Arith) : Prop := {
  dltb_trans : forall a b c : double,
    dltb a b = true -> dltb b c = true -> dltb a c = true;
  dltb_not_nan : forall a b : double,
    dltb a b = true -> disnan a = false /\ disnan b = false;
  dleb_not_gt : forall a b : double,
    dleb a b = true -> dltb b a = false
}.

(** ** A state monad for the mutable private data *)

Section StateMonad.
Context {St : Type}.

Definition M (A : Type) : Type := St -> A * St.

Definition ret {A} (a : A) : M A := fun s => (a, s).
Definition bind {A B} (m : M A) (k : A -> M B) : M B :=
  fun s => let (a, s') := m s in k a s'.
Definition get : M St := fun s => (s, s).
Definition put (s : St) : M unit := fun _ => (tt, s).
Definition modify (f : St -> St) : M unit := fun s => (tt, f s).
Definition when (b : bool) (m : M unit) : M unit :=
  if b then m else ret tt.
End StateMonad.

Arguments M : clear implicits.

Declare Scope monad_scope.
Delimit Scope monad_scope with monad.
Notation "x <- m ;; k" := (bind m (fun x => k))
(at level 61, m at next level, right associativity) : monad_scope.
Notation "m ;; k" := (bind m (fun _ => k))
(at level 61, right associativity) : monad_scope.

Local Open Scope double_scope.

(** ** Helpers of the math library (gz-math, std) *)

Section Helpers.
Context {D : Arith}.

Definition dzero : double := of_Z 0.

(** [std::numeric_limits<double>::epsilon()], 2^-52. *)
Definition epsilon : double := of_Z 1 / of_Z (2 ^ 52).

(** [std::min(a, b)] is [(b < a) ? b : a]; [std::max(a, b)] is
    [(a < b) ? b : a]. *)
Definition std_min (a b : double) : double := if b <? a then b else a.
Definition std_max (a b : double) : double := if a <? b then b else a.

(** Modelled from the spec: [gz::math::clamp] is declared in gz-math's
    Helpers.hh, not under src/; the spec's clamp to [[min, max]], computed
    as [std::max(std::min(v, max), min)]. *)
Definition clamp (_v _min _max : double) : double :=
  std_max (std_min _v _max) _min.

(** Modelled from the spec: [gz::math::fixnan] is declared in gz-math's
    Helpers.hh, not under src/; the spec describes it as sanitizing a
    command by replacing NaN with 0.  In this model every other value, an
    infinite one included, is passed on to the clamp unchanged. *)
Definition fixnan (_v : double) : double :=
  if disnan _v then dzero else _v.

(** [pow(x, n)] for a positive integer exponent, by repeated squaring. *)
Fixpoint pow (x : double) (n : positive) : double :=
  match n with
  | xH => x
  | xO m => let y := pow x m in y * y
  | xI m => let y := pow x m in x * (y * y)
  end.

End Helpers.

(** ** Vectors ([gz::math::Vector3d]) *)

Record Vector3d {D : Arith} : Type := mkVector3d {
  vX : double;
  vY : double;
  vZ : double
}.
Arguments mkVector3d {D} _ _ _.

Section Vectors.
Context {D : Arith}.

(** [a.Dot(b)]. *)
Definition Dot (a b : Vector3d) : double :=
  vX a * vX b + vY a * vY b + vZ a * vZ b.

(** [v * s], a vector scaled by a double. *)
Definition scale (v : Vector3d) (s : double) : Vector3d :=
  mkVector3d (vX v * s) (vY v * s) (vZ v * s).

(** [v.Length()]. *)
Definition Length (v : Vector3d) : double :=
  dsqrt (vX v * vX v + vY v * vY v + vZ v * vZ v).
End Vectors.

(** ** The PID controller ([gz::math::PID]) *)

Module PID.

(** Modelled from the spec: the controller class is declared in gz-math's
    PID.hh, not under src/.  The spec names its proportional, integral and
    derivative gains, its integrator bounds and the call
    [torque = PID.Update(error, dt)]; the update law is the library's: the
    command is [cmdOffset - p*e - iErr - d*dErr], with the integral term
    clamped to [[iMin, iMax]] and the command clamped to [[cmdMin, cmdMax]]
    whenever the upper bound is not below the lower one, and no update (a
    zero command) for a zero step or an error that is NaN or infinite. *)
Record t {D : Arith} : Type := mk {
  pGain : double;
  iGain : double;
  dGain : double;
  iMax : double;
  iMin : double;
  cmdMax : double;
  cmdMin : double;
  cmdOffset : double;
  pErrLast : double;
  pErr : double;
  iErr : double;
  dErr : double;
  cmd : double
}.
Arguments mk {D} _ _ _ _ _ _ _ _ _ _ _ _ _.

Section Controller.
Context {D : Arith}.

(** [PID::Reset()]. *)
Definition Reset (c : t) : t :=
  c <| pErrLast := dzero |> <| pErr := dzero |> <| iErr := dzero |>
    <| dErr := dzero |> <| cmd := dzero |>.

(** [PID::Init(p, i, d, imax, imin, cmdMax, cmdMin, cmdOffset)]. *)
Definition Init (_p _i _d _imax _imin _cmdMax _cmdMin _cmdOffset : double)
    (c : t) : t :=
  Reset (c <| pGain := _p |> <| iGain := _i |> <| dGain := _d |>
           <| iMax := _imax |> <| iMin := _imin |>
           <| cmdMax := _cmdMax |> <| cmdMin := _cmdMin |>
           <| cmdOffset := _cmdOffset |>).

(** The default-constructed controller: all gains zero, integral and command
    limits disabled ([max < min]). *)
Definition default : t :=
  Reset (mk dzero dzero dzero (of_Z (-1)) dzero (of_Z (-1)) dzero dzero
            dzero dzero dzero dzero dzero).

(** [PID::Update(error, dt)], with [dt] in seconds. *)
Definition Update (_error _dt : double) : M t double :=
  if (_dt =? dzero) || disnan _error || disinf _error
  then ret dzero
  else
    (modify (fun c => c <| pErr := _error |>) ;;
     c <- get ;;
     let pTerm := pGain c * pErr c in
     modify (fun c => c <| iErr := iErr c + iGain c * _dt * pErr c |>) ;;
     c <- get ;;
     when (iMax c >=? iMin c)
          (modify (fun c => c <| iErr := clamp (iErr c) (iMin c) (iMax c) |>)) ;;
     modify (fun c => c <| dErr := (pErr c - pErrLast c) / _dt |>
                        <| pErrLast := pErr c |>) ;;
     c <- get ;;
     let dTerm := dGain c * dErr c in
     modify (fun c => c <| cmd := cmdOffset c - pTerm - iErr c - dTerm |>) ;;
     c <- get ;;
     when (cmdMax c >=? cmdMin c)
          (modify (fun c => c <| cmd := clamp (cmd c) (cmdMin c) (cmdMax c) |>)) ;;
     c <- get ;;
     ret (cmd c))%monad.
End Controller.

End PID.

(** ** The host: library geometry, topics, configuration and entities *)

(** Operations of gz-math and gz-transport that the plugin calls and whose
    code is outside this repository: poses and their composition, the
    rotation of a vector by the orientation of a pose, the normalization of
    a vector, and the cleaning of a topic name. *)
Class GzLibs (D : Arith) : Type := {
  Pose3d : Type;
  PoseMul : Pose3d -> Pose3d -> Pose3d;
  RotateVector : Pose3d -> Vector3d -> Vector3d;
  Normalize : Vector3d -> Vector3d;
  AsValidTopic : string -> string
}.

(** Entities are 64-bit identifiers; [kNullEntity] is 0. *)
Definition Entity : Type := N.
Definition kNullEntity : Entity := 0%N.

(** An SDF element as the plugin reads it: named child elements with a
    value.  [Get<T>(key)] gives the default-constructed [T] when the element
    is absent or does not hold a [T]. *)
Inductive SdfValue {D : Arith} : Type :=
| SdfDouble (d : double)
| SdfBool (b : bool)
| SdfString (s : string).

Definition Element {D : Arith} : Type := list (string * SdfValue).

Section Sdf.
Context {D : Arith}.

Fixpoint FindElement (_sdf : Element) (_key : string) : option SdfValue :=
  match _sdf with
  | [] => None
  | (k, v) :: rest => if String.eqb k _key then Some v else FindElement rest _key
  end.

Definition HasElement (_sdf : Element) (_key : string) : bool :=
  match FindElement _sdf _key with Some _ => true | None => false end.

Definition GetDouble (_sdf : Element) (_key : string) : double :=
  match FindElement _sdf _key with Some (SdfDouble d) => d | _ => dzero end.

Definition GetBool (_sdf : Element) (_key : string) : bool :=
  match FindElement _sdf _key with Some (SdfBool b) => b | _ => false end.

Definition GetString (_sdf : Element) (_key : string) : string :=
  match FindElement _sdf _key with Some (SdfString s) => s | _ => EmptyString end.
End Sdf.

(** The part of the entity-component manager the plugin reads and writes.
    Components the plugin dereferences without a check are total here. *)
Record EntityComponentManager {D : Arith} {L : GzLibs D} : Type := {
  modelName : Entity -> string;
  JointByName : Entity -> string -> Entity;
  LinkByName : Entity -> string -> Entity;
  jointAxisXyz : Entity -> Vector3d;
  poseComponent : Entity -> Pose3d;
  childLinkName : Entity -> string;
  worldPose : Entity -> Pose3d;
  worldAngularVelocity : Entity -> Vector3d;
  worldLinearVelocity : Entity -> Vector3d;
  (** every entity that carries a [BatterySoC] component, with its charge *)
  batterySoC : list (Entity * double);
  ParentEntity : Entity -> Entity;
  (** the [JointVelocityCmd] component of an entity, when it has one *)
  jointVelocityCmd : Entity -> option (list double);
  (** the world wrenches requested so far: link, force, torque *)
  worldWrench : list (Entity * Vector3d * Vector3d)
}.

(** ** The private data of the system *)

Inductive OperationMode : Type := ForceCmd | AngVelCmd.

Inductive Callback : Type := CbOnCmdThrust | CbOnCmdAngVel.

(** A publisher: the topic it advertises and the messages sent, latest
    first. *)
Record Publisher {D : Arith} : Type := {
  pubTopic : string;
  published : list double
}.

Record ThrusterPrivateData {D : Arith} {L : GzLibs D} : Type := {
  opmode : OperationMode;
  thrust : double;
  propellerAngVel : double;
  enabled : bool;
  modelEntity : Entity;
  linkEntity : Entity;
  jointAxis : Vector3d;
  jointPose : Pose3d;
  jointEntity : Entity;
  (** the subscription of the transport node: topic and callback *)
  node : option (string * Callback);
  pub : Publisher;
  propellerController : PID.t;
  velocityControl : bool;
  cmdMax : double;
  cmdMin : double;
  thrustCoefficient : double;
  thrustCoefficientSet : bool;
  wakeFraction : double;
  alpha1 : double;
  alpha2 : double;
  fluidDensity : double;
  propellerDiameter : double;
  linearVelocity : double;
  topic : string
}.

Section Thruster.
Context {D : Arith} {L : GzLibs D}.

(** The data as the class initializes it.  The members without an
    initializer (entities, joint axis and pose) are given. *)
Definition initialData (e : Entity) (ax : Vector3d) (p : Pose3d)
    : ThrusterPrivateData := {|
  opmode := ForceCmd;
  thrust := dzero;
  propellerAngVel := dzero;
  enabled := true;
  modelEntity := e;
  linkEntity := e;
  jointAxis := ax;
  jointPose := p;
  jointEntity := e;
  node := None;
  pub := {| pubTopic := EmptyString; published := [] |};
  propellerController := PID.default;
  velocityControl := false;
  cmdMax := of_Z 1000;
  cmdMin := of_Z (-1000);
  thrustCoefficient := of_Z 1;
  thrustCoefficientSet := false;
  wakeFraction := of_Z 2 / of_Z 10;
  alpha1 := of_Z 1;
  alpha2 := of_Z 0;
  fluidDensity := of_Z 1000;
  propellerDiameter := of_Z 2 / of_Z 100;
  linearVelocity := dzero;
  topic := EmptyString
|}.

Local Open Scope monad_scope.

(** [ThrusterPrivateData::UpdateThrustCoefficient]. *)
Definition UpdateThrustCoefficient : M ThrusterPrivateData unit :=
  modify (fun s =>
    s <| thrustCoefficient :=
           alpha1 s + alpha2 s *
             (((of_Z 1 - wakeFraction s) * linearVelocity s)
              / (propellerAngVel s * propellerDiameter s)) |>).

(** [ThrusterPrivateData::ThrustToAngularVec].  Here and below the
    unqualified [abs] of the source is the floating-point absolute value,
    like [std::abs]. *)
Definition ThrustToAngularVec (_thrust : double)
    : M ThrusterPrivateData double :=
  s <- get ;;
  when (negb (thrustCoefficientSet s)
        && (dabs (propellerAngVel s) >? epsilon))
       UpdateThrustCoefficient ;;
  s <- get ;;
  let propAngularVelocity :=
    dsqrt (dabs (_thrust /
                 (fluidDensity s * thrustCoefficient s
                  * pow (propellerDiameter s) 4))) in
  let propAngularVelocity :=
    propAngularVelocity *
    (if _thrust * thrustCoefficient s >? of_Z 0 then of_Z 1 else of_Z (-1)) in
  ret propAngularVelocity.

(** [ThrusterPrivateData::AngularVelToThrust]. *)
Definition AngularVelToThrust (_angVel : double)
    : M ThrusterPrivateData double :=
  s <- get ;;
  ret (thrustCoefficient s * pow (propellerDiameter s) 4
       * dabs _angVel * _angVel * fluidDensity s).

(** [ThrusterPrivateData::OnCmdThrust]; [_msg] is the data of the message. *)
Definition OnCmdThrust (_msg : double) : M ThrusterPrivateData unit :=
  modify (fun s =>
    s <| thrust := clamp (fixnan _msg) (cmdMin s) (cmdMax s) |>) ;;
  s <- get ;;
  w <- ThrustToAngularVec (thrust s) ;;
  modify (fun s => s <| propellerAngVel := w |>).

(** [ThrusterPrivateData::OnCmdAngVel]. *)
Definition OnCmdAngVel (_msg : double) : M ThrusterPrivateData unit :=
  modify (fun s =>
    s <| propellerAngVel := clamp (fixnan _msg) (cmdMin s) (cmdMax s) |>) ;;
  s <- get ;;
  t <- AngularVelToThrust (propellerAngVel s) ;;
  modify (fun s => s <| thrust := t |>).

(** The step information of the host: whether the simulation is paused and
    the step length, in nanoseconds. *)
Record UpdateInfo : Type := {
  paused : bool;
  dt : Z
}.

(** The step length in seconds, as the PID update receives it. *)
Definition dtSeconds (_info : UpdateInfo) : double :=
  of_Z (dt _info) / of_Z 1000000000.

Local Open Scope string_scope.

(** The topic to listen on, the callback to subscribe and the feedback topic
    that [Thruster::Configure] chooses. *)
Definition chooseTopics (ns jointName : string) (s : ThrusterPrivateData)
    : string * Callback * string :=
  if negb (String.eqb (topic s) "") then
    let thrusterTopic := AsValidTopic (ns ++ "/" ++ topic s) in
    match opmode s with
    | ForceCmd =>
        (thrusterTopic, CbOnCmdThrust,
         AsValidTopic (ns ++ "/" ++ topic s ++ "/ang_vel"))
    | AngVelCmd =>
        (thrusterTopic, CbOnCmdAngVel,
         AsValidTopic (ns ++ "/" ++ topic s ++ "/force"))
    end
  else
    match opmode s with
    | ForceCmd =>
        (AsValidTopic ("/model/" ++ ns ++ "/joint/" ++ jointName ++ "/cmd_thrust"),
         CbOnCmdThrust,
         AsValidTopic ("/model/" ++ ns ++ "/joint/" ++ jointName ++ "/ang_vel"))
    | AngVelCmd =>
        (AsValidTopic ("/model/" ++ ns ++ "/joint/" ++ jointName ++ "/cmd_vel"),
         CbOnCmdAngVel,
         AsValidTopic ("/model/" ++ ns ++ "/joint/" ++ jointName ++ "/force"))
    end.

(** The last part of [Thruster::Configure]: the set-up of the propeller
    controller when velocity control is off. *)
Definition ConfigurePID (_sdf : Element) : M ThrusterPrivateData unit :=
  s <- get ;;
  if negb (velocityControl s) then
    let p := of_Z 1 / of_Z 10 in
    let i := of_Z 0 in
    let d := of_Z 0 in
    let iMax := of_Z 1 in
    let iMin := of_Z (-1) in
    cmdMax' <- ThrustToAngularVec (cmdMax s) ;;
    s <- get ;;
    cmdMin' <- ThrustToAngularVec (cmdMin s) ;;
    let cmdOffset := of_Z 0 in
    let p := if HasElement _sdf "p_gain" then GetDouble _sdf "p_gain" else p in
    let i := if negb (HasElement _sdf "i_gain")
             then GetDouble _sdf "i_gain" else i in
    let d := if negb (HasElement _sdf "d_gain")
             then GetDouble _sdf "d_gain" else d in
    modify (fun s =>
      s <| propellerController :=
             PID.Init p i d iMax iMin cmdMax' cmdMin' cmdOffset
                      (propellerController s) |>)
  else ret tt.

(** [Thruster::Configure].  Log output is left out; the components that
    [enableComponent] creates are total in [EntityComponentManager]. *)
Definition Configure (_entity : Entity) (_sdf : Element)
    (_ecm : EntityComponentManager) : M ThrusterPrivateData unit :=
  modify (fun s => s <| modelEntity := _entity |>) ;;
  let modelName := modelName _ecm _entity in
  let ns := if HasElement _sdf "namespace"
            then GetString _sdf "namespace" else modelName in
  if negb (HasElement _sdf "joint_name") then ret tt else
  let jointName := GetString _sdf "joint_name" in
  when (HasElement _sdf "thrust_coefficient")
    (modify (fun s =>
       s <| thrustCoefficient := GetDouble _sdf "thrust_coefficient" |>
         <| thrustCoefficientSet := true |>)) ;;
  when (HasElement _sdf "propeller_diameter")
    (modify (fun s =>
       s <| propellerDiameter := GetDouble _sdf "propeller_diameter" |>)) ;;
  when (HasElement _sdf "fluid_density")
    (modify (fun s => s <| fluidDensity := GetDouble _sdf "fluid_density" |>)) ;;
  when (HasElement _sdf "use_angvel_cmd")
    (modify (fun s =>
       s <| opmode := if GetBool _sdf "use_angvel_cmd"
                      then AngVelCmd else ForceCmd |>)) ;;
  when (HasElement _sdf "wake_fraction")
    (modify (fun s => s <| wakeFraction := GetDouble _sdf "wake_fraction" |>)) ;;
  when (HasElement _sdf "alpha_1")
    (modify (fun s => s <| alpha1 := GetDouble _sdf "alpha_1" |>)) ;;
  when (HasElement _sdf "alpha_2")
    (modify (fun s => s <| alpha2 := GetDouble _sdf "alpha_2" |>)) ;;
  when (HasElement _sdf "topic")
    (modify (fun s =>
       s <| topic := AsValidTopic (GetString _sdf "topic") |>)) ;;
  modify (fun s => s <| jointEntity := JointByName _ecm _entity jointName |>) ;;
  s <- get ;;
  if N.eqb kNullEntity (jointEntity s) then ret tt else
  modify (fun s =>
    s <| jointAxis := jointAxisXyz _ecm (jointEntity s) |>
      <| jointPose := poseComponent _ecm (jointEntity s) |>
      <| linkEntity :=
           LinkByName _ecm _entity (childLinkName _ecm (jointEntity s)) |>) ;;
  s <- get ;;
  let '(thrusterTopic, callback, feedbackTopic) :=
    chooseTopics ns jointName s in
  modify (fun s =>
    s <| node := Some (thrusterTopic, callback) |>
      <| pub := {| pubTopic := feedbackTopic; published := [] |} |>) ;;
  s <- get ;;
  let minThrustCmd := cmdMin s in
  let maxThrustCmd := cmdMax s in
  let maxThrustCmd := if HasElement _sdf "max_thrust_cmd"
                      then GetDouble _sdf "max_thrust_cmd" else maxThrustCmd in
  let minThrustCmd := if HasElement _sdf "min_thrust_cmd"
                      then GetDouble _sdf "min_thrust_cmd" else minThrustCmd in
  when (negb (maxThrustCmd <? minThrustCmd)%D)
    (modify (fun s =>
       s <| cmdMax := maxThrustCmd |> <| cmdMin := minThrustCmd |>)) ;;
  when (HasElement _sdf "velocity_control")
    (modify (fun s =>
       s <| velocityControl := GetBool _sdf "velocity_control" |>)) ;;
  ConfigurePID _sdf.

Local Close Scope string_scope.

(** [ThrusterPrivateData::HasSufficientBattery]: [Each] visits every entity
    with a [BatterySoC] component; the callback always asks to go on. *)
Definition HasSufficientBattery (_ecm : EntityComponentManager)
    (s : ThrusterPrivateData) : bool :=
  fold_left
    (fun (result : bool) (reading : Entity * double) =>
       let (_entity, _data) := reading in
       if N.eqb (ParentEntity _ecm _entity) (modelEntity s)
       then (if _data <=? of_Z 0 then false else result)
       else result)
    (batterySoC _ecm) true.

(** [Link::AddWorldWrench]: one more wrench request on a link. *)
Definition AddWorldWrench (_ecm : EntityComponentManager) (link : Entity)
    (force torque : Vector3d) : EntityComponentManager :=
  _ecm <| worldWrench := (link, force, torque) :: worldWrench _ecm |>.

(** The velocity-control branch of [Thruster::PreUpdate]: the command
    component of the joint is created with the value, or its first entry is
    overwritten. *)
Definition SetJointVelocityCmd (_ecm : EntityComponentManager)
    (joint : Entity) (v : double) : EntityComponentManager :=
  let data :=
    match jointVelocityCmd _ecm joint with
    | None => [v]
    | Some [] => []
    | Some (_ :: rest) => v :: rest
    end in
  _ecm <| jointVelocityCmd :=
            fun e => if N.eqb e joint then Some data
                     else jointVelocityCmd _ecm e |>.

(** [pub.Publish(msg)]. *)
Definition Publish (msg : double) : M ThrusterPrivateData unit :=
  modify (fun s =>
    s <| pub := {| pubTopic := pubTopic (pub s);
                   published := msg :: published (pub s) |} |>).

(** [propellerController.Update(error, dt)] on the controller of the data. *)
Definition UpdateController (_error _dt : double)
    : M ThrusterPrivateData double :=
  fun s =>
    let (c, pid) := PID.Update _error _dt (propellerController s) in
    (c, s <| propellerController := pid |>).

(** [Thruster::PreUpdate]. *)
Definition PreUpdate (_info : UpdateInfo) (_ecm : EntityComponentManager)
    : M ThrusterPrivateData EntityComponentManager :=
  if paused _info then ret _ecm else
  s <- get ;;
  if negb (enabled s) then ret _ecm else
  let link := linkEntity s in
  let linkWorldPose := worldPose _ecm (linkEntity s) in
  let jointWorldPose := PoseMul linkWorldPose (jointPose s) in
  let unitVector := Normalize (RotateVector jointWorldPose (jointAxis s)) in
  let desiredThrust := thrust s in
  w <- ThrustToAngularVec (thrust s) ;;
  modify (fun s => s <| propellerAngVel := w |>) ;;
  s <- get ;;
  let desiredPropellerAngVel := propellerAngVel s in
  r <- (if negb (velocityControl s) then
          let currentAngular := Dot (worldAngularVelocity _ecm link) unitVector in
          let angularError := currentAngular - desiredPropellerAngVel in
          torque <- (if dabs angularError >? of_Z 1 / of_Z 10
                     then UpdateController angularError (dtSeconds _info)
                     else ret (of_Z 0)) ;;
          ret (torque, currentAngular, _ecm)
        else
          ret (of_Z 0, desiredPropellerAngVel,
               SetJointVelocityCmd _ecm (jointEntity s) desiredPropellerAngVel)) ;;
  let '(torque, angvel, _ecm) := r in
  s <- get ;;
  match opmode s with
  | ForceCmd => Publish angvel
  | AngVelCmd => Publish desiredThrust
  end ;;
  let _ecm := AddWorldWrench _ecm link
                (scale unitVector desiredThrust) (scale unitVector torque) in
  modify (fun s =>
    s <| linearVelocity := Length (worldLinearVelocity _ecm (linkEntity s)) |>) ;;
  ret _ecm.

(** [Thruster::PostUpdate]. *)
Definition PostUpdate (_info : UpdateInfo) (_ecm : EntityComponentManager)
    : M ThrusterPrivateData unit :=
  modify (fun s => s <| enabled := HasSufficientBattery _ecm s |>).

End Thruster.

(** ** Concrete hosts, used to run the definitions *)

(** A host library whose poses carry no information: vectors are passed
    through unchanged and topic names are kept as they are. *)
Definition plainLibs (D : Arith) : GzLibs D := {|
  Pose3d := unit;
  PoseMul := fun _ _ => tt;
  RotateVector := fun _ v => v;
  Normalize := fun v => v;
  AsValidTopic := fun s => s
|}.

Section Worlds.
Context {D : Arith}.
Local Existing Instance plainLibs.

(** A world with a model (entity 1) whose joint "propeller_joint" (entity
    2) drives the link "propeller" (entity 3) about the x axis.  The link
    turns at [angular] rad/s about that axis and moves at [linear] m/s; the
    given battery readings are present. *)
Definition world (angular linear : double) (batteries : list (Entity * double))
    (parent : Entity -> Entity) : EntityComponentManager := {|
  modelName := fun _ => "vehicle"%string;
  JointByName := fun _ n =>
    if String.eqb n "propeller_joint" then 2%N else kNullEntity;
  LinkByName := fun _ n =>
    if String.eqb n "propeller" then 3%N else kNullEntity;
  jointAxisXyz := fun _ => mkVector3d (of_Z 1) (of_Z 0) (of_Z 0);
  poseComponent := fun _ => tt;
  childLinkName := fun _ => "propeller"%string;
  worldPose := fun _ => tt;
  worldAngularVelocity := fun _ => mkVector3d angular (of_Z 0) (of_Z 0);
  worldLinearVelocity := fun _ => mkVector3d linear (of_Z 0) (of_Z 0);
  batterySoC := batteries;
  ParentEntity := parent;
  jointVelocityCmd := fun _ => None;
  worldWrench := []
|}.

(** The data of a freshly constructed system. *)
Definition freshData : ThrusterPrivateData :=
  initialData kNullEntity (mkVector3d (of_Z 0) (of_Z 0) (of_Z 0)) tt.

(** The data after [Configure] with the given SDF in a still world without
    batteries. *)
Definition configured (_sdf : Element) : ThrusterPrivateData :=
  snd (Configure 1%N _sdf (world (of_Z 0) (of_Z 0) [] (fun _ => kNullEntity))
         freshData).
End Worlds.

(** A binary64 value written as a primitive float. *)
Definition f64 (x : float) : @double binary64 := x.

(** * Properties *)

(** ** The order laws at the two instances *)

Lemma Rltb_true (a b : R) : Rltb a b = true <-> (a < b)%R.
Proof. unfold Rltb; destruct (Rlt_dec a b); split; intros; congruence || lra. Qed.

Lemma Rltb_false (a b : R) : Rltb a b = false <-> (b <= a)%R.
Proof. unfold Rltb; destruct (Rlt_dec a b); split; intros; congruence || lra. Qed.

Lemma Rleb_true (a b : R) : Rleb a b = true <-> (a <= b)%R.
Proof. unfold Rleb; destruct (Rle_dec a b); split; intros; congruence || lra. Qed.

Lemma ideal_laws : ArithLaws ideal.
Proof.
  split; simpl.
  - intros a b c H1 H2. apply Rltb_true in H1, H2. apply Rltb_true. lra.
  - intros; split; reflexivity.
  - intros a b H. apply Rleb_true in H. apply Rltb_false. lra.
Qed.

Lemma SFltb_not_nan (x y : spec_float) :
  SFltb x y = true -> x <> S754_nan /\ y <> S754_nan.
Proof.
  unfold SFltb. destruct x, y; simpl; intros H; split; congruence.
Qed.

Lemma SFltb_trans (x y z : spec_float) :
  SFltb x y = true -> SFltb y z = true -> SFltb x z = true.
Proof.
  unfold SFltb.
  destruct x as [sx|sx| |sx mx ex], y as [sy|sy| |sy my ey],
           z as [sz|sz| |sz mz ez]; simpl;
    repeat match goal with s : bool |- _ => destruct s end;
    simpl; try congruence.
  (* what remains: three finite values of one sign, compared by exponent
     and then by mantissa *)
  all: destruct (Z.compare_spec ex ey), (Z.compare_spec ey ez),
                (Z.compare_spec ex ez); subst; try lia; try congruence.
  all: change (Pos.compare_cont Eq) with Pos.compare.
  all: destruct (Pos.compare_spec mx my), (Pos.compare_spec my mz),
                (Pos.compare_spec mx mz); subst; simpl; try lia; congruence.
Qed.

Lemma SFleb_not_gt (x y : spec_float) :
  SFleb x y = true -> SFltb y x = false.
Proof.
  unfold SFleb, SFltb.
  destruct x as [sx|sx| |sx mx ex], y as [sy|sy| |sy my ey]; simpl;
    repeat match goal with s : bool |- _ => destruct s end;
    simpl; try congruence.
  all: rewrite (Z.compare_antisym ex ey);
    change (Pos.compare_cont Eq) with Pos.compare;
    rewrite (Pos.compare_antisym mx my);
    destruct (ex ?= ey)%Z; simpl; try congruence;
    destruct (mx ?= my)%positive; simpl; congruence.
Qed.

Lemma is_nan_Prim2SF (x : float) :
  Prim2SF x <> S754_nan -> PrimFloat.is_nan x = false.
Proof.
  intros H. unfold PrimFloat.is_nan. rewrite eqb_spec. unfold SFeqb.
  destruct (Prim2SF x) as [s|s| |s m e]; simpl; try reflexivity; try congruence.
  - destruct s; reflexivity.
  - rewrite Z.compare_refl.
    change (PosDef.Pos.compare_cont Eq m m) with (Pos.compare m m).
    rewrite Pos.compare_refl. destruct s; reflexivity.
Qed.

Lemma binary64_laws : ArithLaws binary64.
Proof.
  split; simpl.
  - intros a b c. rewrite !ltb_spec. apply SFltb_trans.
  - intros a b. rewrite ltb_spec. intros H.
    apply SFltb_not_nan in H. destruct H.
    split; apply is_nan_Prim2SF; assumption.
  - intros a b. rewrite leb_spec, ltb_spec. apply SFleb_not_gt.
Qed.

(** ** The conversions and the command callbacks *)

Ltac run_monad :=
  cbv [bind ret get put modify when apply_update constant] in *.

Section Conversions.
Context {D : Arith} {L : GzLibs D}.

(** The state after [ThrustToAngularVec]: the coefficient is recomputed
    exactly when it was not configured and the stored angular velocity is
    above epsilon in magnitude. *)
Lemma ThrustToAngularVec_state (x : double) (s : ThrusterPrivateData) :
  snd (ThrustToAngularVec x s) =
  if negb (thrustCoefficientSet s) && (dabs (propellerAngVel s) >? epsilon)
  then snd (UpdateThrustCoefficient s) else s.
Proof.
  unfold ThrustToAngularVec. run_monad.
  destruct (negb (thrustCoefficientSet s) && (dabs (propellerAngVel s) >? epsilon));
    reflexivity.
Qed.

(** The value of [ThrustToAngularVec] in terms of the state it leaves. *)
Lemma ThrustToAngularVec_value (x : double) (s : ThrusterPrivateData) :
  let s' := snd (ThrustToAngularVec x s) in
  fst (ThrustToAngularVec x s) =
  dsqrt (dabs (x / (fluidDensity s' * thrustCoefficient s'
                    * pow (propellerDiameter s') 4)))
  * (if x * thrustCoefficient s' >? of_Z 0 then of_Z 1 else of_Z (-1)).
Proof.
  unfold ThrustToAngularVec. run_monad.
  destruct (negb (thrustCoefficientSet s) && (dabs (propellerAngVel s) >? epsilon));
    reflexivity.
Qed.

Lemma UpdateThrustCoefficient_frame (s : ThrusterPrivateData) :
  snd (UpdateThrustCoefficient s) =
  s <| thrustCoefficient :=
         alpha1 s + alpha2 s *
           (((of_Z 1 - wakeFraction s) * linearVelocity s)
            / (propellerAngVel s * propellerDiameter s)) |>.
Proof. reflexivity. Qed.

(** C3: the recomputation of the thrust coefficient happens in
    [ThrustToAngularVec] only, and only when the coefficient was not set by
    configuration and the magnitude of the stored propeller angular velocity
    exceeds epsilon: otherwise that call leaves the data as it was, and when
    it fires it changes the coefficient alone.  [AngularVelToThrust] leaves
    all of the data unchanged for every input, and so an angular velocity
    command never changes the coefficient. *)
Theorem recomputation_only_in_ThrustToAngularVec
    (x : double) (s : ThrusterPrivateData) :
  snd (ThrustToAngularVec x s) =
    (if negb (thrustCoefficientSet s) && (dabs (propellerAngVel s) >? epsilon)
     then s <| thrustCoefficient :=
                 alpha1 s + alpha2 s *
                   (((of_Z 1 - wakeFraction s) * linearVelocity s)
                    / (propellerAngVel s * propellerDiameter s)) |>
     else s)
  /\ snd (AngularVelToThrust x s) = s
  /\ thrustCoefficient (snd (OnCmdAngVel x s)) = thrustCoefficient s.
Proof.
  split; [| split].
  - rewrite ThrustToAngularVec_state.
    destruct (negb (thrustCoefficientSet s) && (dabs (propellerAngVel s) >? epsilon));
      reflexivity.
  - reflexivity.
  - reflexivity.
Qed.

(** The clamp at a value above the upper bound, and at one below the lower
    bound, when the bounds are in order. *)
Lemma clamp_above {laws : ArithLaws D} (v lo hi : double) :
  (hi <? lo) = false -> (v >? hi) = true -> clamp v lo hi = hi.
Proof.
  intros Hb Hv. unfold clamp, std_min, std_max. rewrite Hv, Hb. reflexivity.
Qed.

Lemma clamp_below {laws : ArithLaws D} (v lo hi : double) :
  (hi <? lo) = false -> (v <? lo) = true -> clamp v lo hi = lo.
Proof.
  intros Hb Hv. unfold clamp, std_min, std_max.
  destruct (hi <? v) eqn:Hhv.
  - rewrite (dltb_trans _ _ _ Hhv Hv) in Hb. discriminate.
  - rewrite Hv. reflexivity.
Qed.

Lemma fixnan_not_nan (v : double) : disnan v = false -> fixnan v = v.
Proof. unfold fixnan. intros ->. reflexivity. Qed.

Lemma fixnan_nan (v : double) : disnan v = true -> fixnan v = dzero.
Proof. unfold fixnan. intros ->. reflexivity. Qed.

(** The two callbacks, step by step. *)
Lemma OnCmdThrust_unfold (v : double) (s : ThrusterPrivateData) :
  snd (OnCmdThrust v s) =
  let c := clamp (fixnan v) (cmdMin s) (cmdMax s) in
  let s1 := s <| thrust := c |> in
  (snd (ThrustToAngularVec c s1))
    <| propellerAngVel := fst (ThrustToAngularVec c s1) |>.
Proof.
  unfold OnCmdThrust. run_monad. cbn [thrust].
  destruct (ThrustToAngularVec _ _). reflexivity.
Qed.

Lemma OnCmdAngVel_unfold (v : double) (s : ThrusterPrivateData) :
  snd (OnCmdAngVel v s) =
  let c := clamp (fixnan v) (cmdMin s) (cmdMax s) in
  let s1 := s <| propellerAngVel := c |> in
  s1 <| thrust := fst (AngularVelToThrust c s1) |>.
Proof. reflexivity. Qed.

Lemma ThrustToAngularVec_thrust (x : double) (s : ThrusterPrivateData) :
  thrust (snd (ThrustToAngularVec x s)) = thrust s.
Proof.
  rewrite ThrustToAngularVec_state.
  destruct (negb (thrustCoefficientSet s) && (dabs (propellerAngVel s) >? epsilon));
    reflexivity.
Qed.

(** C4: with the bounds in order (the maximum not below the minimum), a
    command received by either callback is stored as
    [clamp (fixnan v) cmdMin cmdMax]: a NaN is stored as the clamp of 0, a
    value above [cmdMax] as [cmdMax], a value below [cmdMin] as [cmdMin];
    and the complementary quantity is the conversion of that stored
    value. *)
Theorem commands_sanitized_and_clamped {laws : ArithLaws D}
    (s : ThrusterPrivateData) (v : double) :
  (cmdMax s <? cmdMin s) = false ->
  let c := clamp (fixnan v) (cmdMin s) (cmdMax s) in
  let st := snd (OnCmdThrust v s) in
  let sa := snd (OnCmdAngVel v s) in
  thrust st = c
  /\ propellerAngVel sa = c
  /\ propellerAngVel st = fst (ThrustToAngularVec c (s <| thrust := c |>))
  /\ thrust sa = fst (AngularVelToThrust c (s <| propellerAngVel := c |>))
  /\ (disnan v = true -> c = clamp dzero (cmdMin s) (cmdMax s))
  /\ ((v >? cmdMax s) = true -> c = cmdMax s)
  /\ ((v <? cmdMin s) = true -> c = cmdMin s).
Proof.
  intros Hb c st sa. subst st sa.
  rewrite OnCmdThrust_unfold, OnCmdAngVel_unfold. fold c.
  repeat split.
  - simpl. apply ThrustToAngularVec_thrust.
  - intros Hn. subst c. rewrite (fixnan_nan _ Hn). reflexivity.
  - intros Hv. destruct (dltb_not_nan _ _ Hv) as [_ Hn].
    subst c. rewrite (fixnan_not_nan _ Hn). apply clamp_above; assumption.
  - intros Hv. destruct (dltb_not_nan _ _ Hv) as [Hn _].
    subst c. rewrite (fixnan_not_nan _ Hn). apply clamp_below; assumption.
Qed.

End Conversions.

(** ** The control step *)

Section ControlStep.
Context {D : Arith} {L : GzLibs D}.

(** [ThrustToAngularVec] changes at most the thrust coefficient. *)
Lemma ThrustToAngularVec_frame (x : double) (s : ThrusterPrivateData) :
  snd (ThrustToAngularVec x s) =
  s <| thrustCoefficient := thrustCoefficient (snd (ThrustToAngularVec x s)) |>.
Proof.
  rewrite ThrustToAngularVec_state.
  destruct (negb (thrustCoefficientSet s) && (dabs (propellerAngVel s) >? epsilon));
    destruct s; reflexivity.
Qed.

Lemma ThrustToAngularVec_fluidDensity (x : double) (s : ThrusterPrivateData) :
  fluidDensity (snd (ThrustToAngularVec x s)) = fluidDensity s.
Proof. rewrite ThrustToAngularVec_frame. reflexivity. Qed.

Lemma ThrustToAngularVec_propellerDiameter (x : double)
    (s : ThrusterPrivateData) :
  propellerDiameter (snd (ThrustToAngularVec x s)) = propellerDiameter s.
Proof. rewrite ThrustToAngularVec_frame. reflexivity. Qed.

(** The spin axis in the world frame, as [PreUpdate] derives it. *)
Definition unitVectorOf (_ecm : EntityComponentManager)
    (s : ThrusterPrivateData) : Vector3d :=
  Normalize (RotateVector (PoseMul (worldPose _ecm (linkEntity s)) (jointPose s))
                          (jointAxis s)).

(** The measured angular rate of the link about the spin axis. *)
Definition currentAngularOf (_ecm : EntityComponentManager)
    (s : ThrusterPrivateData) : double :=
  Dot (worldAngularVelocity _ecm (linkEntity s)) (unitVectorOf _ecm s).

(** A paused or disabled step does nothing. *)
Lemma PreUpdate_idle (_info : UpdateInfo) (_ecm : EntityComponentManager)
    (s : ThrusterPrivateData) :
  paused _info = true \/ enabled s = false ->
  PreUpdate _info _ecm s = (_ecm, s).
Proof.
  unfold PreUpdate. intros [H | H].
  - rewrite H. reflexivity.
  - destruct (paused _info); [reflexivity |].
    unfold bind at 1. unfold get at 1. rewrite H. reflexivity.
Qed.

(** An enabled, unpaused step in the PID state. *)
Lemma PreUpdate_pid (_info : UpdateInfo) (_ecm : EntityComponentManager)
    (s : ThrusterPrivateData) :
  paused _info = false -> enabled s = true -> velocityControl s = false ->
  let w := fst (ThrustToAngularVec (thrust s) s) in
  let c := thrustCoefficient (snd (ThrustToAngularVec (thrust s) s)) in
  let u := unitVectorOf _ecm s in
  let cur := currentAngularOf _ecm s in
  let err := cur - w in
  let r := if dabs err >? of_Z 1 / of_Z 10
           then PID.Update err (dtSeconds _info) (propellerController s)
           else (of_Z 0, propellerController s) in
  let msg := match opmode s with ForceCmd => cur | AngVelCmd => thrust s end in
  PreUpdate _info _ecm s =
  (AddWorldWrench _ecm (linkEntity s) (scale u (thrust s)) (scale u (fst r)),
   s <| thrustCoefficient := c |> <| propellerAngVel := w |>
     <| propellerController := snd r |>
     <| pub := {| pubTopic := pubTopic (pub s);
                  published := msg :: published (pub s) |} |>
     <| linearVelocity := Length (worldLinearVelocity _ecm (linkEntity s)) |>).
Proof.
  intros Hp He Hv. cbv zeta.
  unfold PreUpdate, currentAngularOf, unitVectorOf.
  rewrite Hp. unfold bind at 1. unfold get at 1. rewrite He. cbn [negb].
  unfold bind at 1.
  pose proof (ThrustToAngularVec_frame (thrust s) s) as F.
  destruct (ThrustToAngularVec (thrust s) s) as [w s'].
  cbn [fst snd] in *.
  remember (thrustCoefficient s') as c eqn:Hc. clear Hc. subst s'.
  unfold Publish, UpdateController. run_monad.
  destruct s; cbn in *; subst.
  destruct (dabs _ >? _); cbn.
  - destruct (PID.Update _ _ _) as [tq pid]. cbn.
    destruct opmode0; reflexivity.
  - destruct opmode0; reflexivity.
Qed.

(** An enabled, unpaused step in the velocity-control state. *)
Lemma PreUpdate_velocity (_info : UpdateInfo) (_ecm : EntityComponentManager)
    (s : ThrusterPrivateData) :
  paused _info = false -> enabled s = true -> velocityControl s = true ->
  let w := fst (ThrustToAngularVec (thrust s) s) in
  let c := thrustCoefficient (snd (ThrustToAngularVec (thrust s) s)) in
  let u := unitVectorOf _ecm s in
  let msg := match opmode s with ForceCmd => w | AngVelCmd => thrust s end in
  PreUpdate _info _ecm s =
  (AddWorldWrench (SetJointVelocityCmd _ecm (jointEntity s) w) (linkEntity s)
                  (scale u (thrust s)) (scale u (of_Z 0)),
   s <| thrustCoefficient := c |> <| propellerAngVel := w |>
     <| pub := {| pubTopic := pubTopic (pub s);
                  published := msg :: published (pub s) |} |>
     <| linearVelocity := Length (worldLinearVelocity _ecm (linkEntity s)) |>).
Proof.
  intros Hp He Hv. cbv zeta.
  unfold PreUpdate, unitVectorOf.
  rewrite Hp. unfold bind at 1. unfold get at 1. rewrite He. cbn [negb].
  unfold bind at 1.
  pose proof (ThrustToAngularVec_frame (thrust s) s) as F.
  destruct (ThrustToAngularVec (thrust s) s) as [w s'].
  cbn [fst snd] in *.
  remember (thrustCoefficient s') as c eqn:Hc. clear Hc. subst s'.
  unfold Publish. run_monad.
  destruct s; cbn in *; subst.
  destruct opmode0; reflexivity.
Qed.

(** Whatever the control state, an enabled, unpaused step sends one feedback
    message and requests one wrench on the link. *)
Lemma PreUpdate_runs (_info : UpdateInfo) (_ecm : EntityComponentManager)
    (s : ThrusterPrivateData) :
  paused _info = false -> enabled s = true ->
  exists (force torque : Vector3d) (msg : double),
    worldWrench (fst (PreUpdate _info _ecm s))
      = (linkEntity s, force, torque) :: worldWrench _ecm
    /\ published (pub (snd (PreUpdate _info _ecm s)))
      = msg :: published (pub s).
Proof.
  intros Hp He. destruct (velocityControl s) eqn:Hv.
  - rewrite (PreUpdate_velocity _ _ _ Hp He Hv).
    do 3 eexists. split; reflexivity.
  - rewrite (PreUpdate_pid _ _ _ Hp He Hv).
    do 3 eexists. split; reflexivity.
Qed.

(** C10: on every enabled, unpaused step the stored propeller angular
    velocity is overwritten with [ThrustToAngularVec] of the stored thrust,
    and the stored thrust is unchanged; the coefficient after the step is
    the one that single call leaves.  That re-derived value is the setpoint
    written to the joint in the velocity-control state, and the target the
    angular error is measured against in the PID state. *)
Theorem PreUpdate_rederives_angular_velocity
    (_info : UpdateInfo) (_ecm : EntityComponentManager)
    (s : ThrusterPrivateData) :
  paused _info = false -> enabled s = true ->
  let w := fst (ThrustToAngularVec (thrust s) s) in
  let ecm' := fst (PreUpdate _info _ecm s) in
  let s' := snd (PreUpdate _info _ecm s) in
  propellerAngVel s' = w
  /\ thrust s' = thrust s
  /\ thrustCoefficient s'
     = thrustCoefficient (snd (ThrustToAngularVec (thrust s) s))
  /\ (velocityControl s = true ->
      jointVelocityCmd ecm' (jointEntity s) =
        Some match jointVelocityCmd _ecm (jointEntity s) with
             | None => [w]
             | Some [] => []
             | Some (_ :: rest) => w :: rest
             end
      /\ (opmode s = ForceCmd ->
          published (pub s') = w :: published (pub s)))
  /\ (velocityControl s = false ->
      let angularError := currentAngularOf _ecm s - w in
      propellerController s' =
        if dabs angularError >? of_Z 1 / of_Z 10
        then snd (PID.Update angularError (dtSeconds _info)
                             (propellerController s))
        else propellerController s).
Proof.
  intros Hp He. cbv zeta. destruct (velocityControl s) eqn:Hv.
  - rewrite (PreUpdate_velocity _ _ _ Hp He Hv). cbn [fst snd].
    remember (ThrustToAngularVec (thrust s) s) as r eqn:Hr. clear Hr.
    repeat split; try discriminate.
    + unfold AddWorldWrench, SetJointVelocityCmd. cbn. unfold constant.
      rewrite N.eqb_refl. reflexivity.
    + intros Ho. cbn. rewrite Ho. reflexivity.
  - rewrite (PreUpdate_pid _ _ _ Hp He Hv). cbn [fst snd].
    remember (ThrustToAngularVec (thrust s) s) as r eqn:Hr. clear Hr.
    repeat split; try discriminate.
    intros _. cbn. destruct (dabs _ >? _); reflexivity.
Qed.

(** [PostUpdate] stores the verdict of the battery gate and nothing else. *)
Lemma PostUpdate_unfold (_info : UpdateInfo) (_ecm : EntityComponentManager)
    (s : ThrusterPrivateData) :
  snd (PostUpdate _info _ecm s) = s <| enabled := HasSufficientBattery _ecm s |>.
Proof. reflexivity. Qed.

(** C7: the battery gate is evaluated after a step and acts on the next
    one.  A step that starts enabled completes (one wrench requested, one
    message published) whatever the charge readings are at that time.
    After a [PostUpdate] that finds the charge depleted, the next
    [PreUpdate] changes nothing: no wrench, no message, the data as it was.
    After a [PostUpdate] that finds the charge sufficient, the next unpaused
    [PreUpdate] runs again, also when the system was disabled before. *)
Theorem battery_gate_acts_on_next_step
    (_info _next : UpdateInfo) (_ecm _post _ecm2 : EntityComponentManager)
    (s : ThrusterPrivateData) :
  let gated := snd (PostUpdate _info _post s) in
  (paused _info = false -> enabled s = true ->
     exists force torque msg,
       worldWrench (fst (PreUpdate _info _ecm s))
         = (linkEntity s, force, torque) :: worldWrench _ecm
       /\ published (pub (snd (PreUpdate _info _ecm s)))
         = msg :: published (pub s))
  /\ enabled gated = HasSufficientBattery _post s
  /\ (HasSufficientBattery _post s = false ->
      PreUpdate _next _ecm2 gated = (_ecm2, gated))
  /\ (HasSufficientBattery _post s = true -> paused _next = false ->
      exists force torque msg,
        worldWrench (fst (PreUpdate _next _ecm2 gated))
          = (linkEntity s, force, torque) :: worldWrench _ecm2
        /\ published (pub (snd (PreUpdate _next _ecm2 gated)))
          = msg :: published (pub s)).
Proof.
  cbv zeta. rewrite PostUpdate_unfold.
  split; [| split; [| split]].
  - apply PreUpdate_runs.
  - reflexivity.
  - intros Hb. apply PreUpdate_idle. right. rewrite Hb. reflexivity.
  - intros Hb Hp.
    destruct (PreUpdate_runs _next _ecm2
                (s <| enabled := HasSufficientBattery _post s |>) Hp)
      as (force & torque & msg & Hw & Hm).
    + rewrite Hb. reflexivity.
    + exists force, torque, msg. split; [exact Hw | exact Hm].
Qed.

End ControlStep.

(** ** The battery gate *)

Section Battery.
Context {D : Arith} {L : GzLibs D}.

(** Whether a reading belongs to the model of the system and shows no
    charge left. *)
Definition depletes (_ecm : EntityComponentManager) (s : ThrusterPrivateData)
    (reading : Entity * double) : bool :=
  N.eqb (ParentEntity _ecm (fst reading)) (modelEntity s)
  && (snd reading <=? of_Z 0).

(** The gate, read as a scan of the readings with an accumulator. *)
Lemma battery_scan (_ecm : EntityComponentManager) (s : ThrusterPrivateData)
    (readings : list (Entity * double)) (acc : bool) :
  fold_left
    (fun (result : bool) (reading : Entity * double) =>
       let (_entity, _data) := reading in
       if N.eqb (ParentEntity _ecm _entity) (modelEntity s)
       then (if _data <=? of_Z 0 then false else result)
       else result)
    readings acc
  = acc && forallb (fun r => negb (depletes _ecm s r)) readings.
Proof.
  revert acc. induction readings as [| [e c] rest IH]; intros acc.
  - destruct acc; reflexivity.
  - cbn [fold_left forallb]. rewrite IH. unfold depletes at 2. cbn [fst snd].
    destruct (N.eqb (ParentEntity _ecm e) (modelEntity s)), (c <=? of_Z 0),
             acc; reflexivity.
Qed.

(** C6: the gate answers true when no charge reading has the model of the
    system as its parent, and false when some reading of that model shows a
    charge of at most 0. *)
Theorem HasSufficientBattery_fail_open
    (_ecm : EntityComponentManager) (s : ThrusterPrivateData) :
  ((forall e c, In (e, c) (batterySoC _ecm) ->
                ParentEntity _ecm e <> modelEntity s) ->
   HasSufficientBattery _ecm s = true)
  /\ ((exists e c, In (e, c) (batterySoC _ecm)
                   /\ ParentEntity _ecm e = modelEntity s
                   /\ (c <=? of_Z 0) = true) ->
      HasSufficientBattery _ecm s = false).
Proof.
  unfold HasSufficientBattery. rewrite battery_scan. cbn [andb]. split.
  - intros Hnone. apply forallb_forall. intros [e c] Hin.
    unfold depletes. cbn [fst snd].
    destruct (N.eqb_spec (ParentEntity _ecm e) (modelEntity s)) as [Heq | Hne].
    + exfalso. exact (Hnone e c Hin Heq).
    + reflexivity.
  - intros (e & c & Hin & Hpar & Hc).
    destruct (forallb _ _) eqn:Hall; [| reflexivity].
    rewrite forallb_forall in Hall. specialize (Hall (e, c) Hin).
    unfold depletes in Hall. cbn [fst snd] in Hall.
    rewrite Hpar, N.eqb_refl, Hc in Hall. discriminate.
Qed.

End Battery.

(** ** Configuration *)

Section Configuration.
Context {D : Arith} {L : GzLibs D}.

(** Reading an absent element gives the default-constructed double. *)
Lemma GetDouble_absent (_sdf : Element) (_key : string) :
  HasElement _sdf _key = false -> GetDouble _sdf _key = dzero.
Proof.
  unfold HasElement, GetDouble. destruct (FindElement _sdf _key); [discriminate |].
  reflexivity.
Qed.

(** A computation preserves a property of the private data. *)
Definition preserves {A} (P : ThrusterPrivateData -> Prop)
    (m : M ThrusterPrivateData A) : Prop :=
  forall s, P s -> P (snd (m s)).

Section Preservation.
Variable P : ThrusterPrivateData -> Prop.

Lemma preserves_ret {A} (a : A) : preserves P (ret a).
Proof. intros s H. exact H. Qed.

Lemma preserves_get : preserves P get.
Proof. intros s H. exact H. Qed.

Lemma preserves_bind {A B} (m : M ThrusterPrivateData A)
    (k : A -> M ThrusterPrivateData B) :
  preserves P m -> (forall a, preserves P (k a)) -> preserves P (bind m k).
Proof.
  intros Hm Hk s H. unfold bind. specialize (Hm s H).
  destruct (m s) as [a s1]. apply Hk. exact Hm.
Qed.

Lemma preserves_when (b : bool) (m : M ThrusterPrivateData unit) :
  preserves P m -> preserves P (when b m).
Proof. destruct b; [trivial | intros _; apply preserves_ret]. Qed.

Lemma preserves_modify (f : ThrusterPrivateData -> ThrusterPrivateData) :
  (forall s, P s -> P (f s)) -> preserves P (modify f).
Proof. intros Hf s H. cbn. apply Hf. exact H. Qed.
End Preservation.

(** The integral and derivative gains of the controller are zero. *)
Definition zero_gains (s : ThrusterPrivateData) : Prop :=
  PID.iGain (propellerController s) = dzero
  /\ PID.dGain (propellerController s) = dzero.

(** The command bounds are in order: the maximum is not below the minimum. *)
Definition bounds_in_order (s : ThrusterPrivateData) : Prop :=
  (cmdMax s <? cmdMin s) = false.

Lemma zero_gains_ThrustToAngularVec (x : double) :
  preserves zero_gains (ThrustToAngularVec x).
Proof. intros s H. unfold zero_gains. rewrite ThrustToAngularVec_frame. exact H. Qed.

Lemma bounds_ThrustToAngularVec (x : double) :
  preserves bounds_in_order (ThrustToAngularVec x).
Proof.
  intros s H. unfold bounds_in_order. rewrite ThrustToAngularVec_frame. exact H.
Qed.

(** The controller that the set-up installs when velocity control is off. *)
Lemma ConfigurePID_controller (_sdf : Element) (s : ThrusterPrivateData) :
  velocityControl s = false ->
  exists p hi lo c0,
    propellerController (snd (ConfigurePID _sdf s)) =
    PID.Init p
      (if negb (HasElement _sdf "i_gain") then GetDouble _sdf "i_gain"
       else of_Z 0)
      (if negb (HasElement _sdf "d_gain") then GetDouble _sdf "d_gain"
       else of_Z 0)
      (of_Z 1) (of_Z (-1)) hi lo (of_Z 0) c0.
Proof.
  intros Hv. unfold ConfigurePID.
  unfold bind at 1. unfold get at 1. rewrite Hv. cbn [negb].
  unfold bind at 1.
  destruct (ThrustToAngularVec (cmdMax s) s) as [hi s1].
  unfold bind at 1. unfold get at 1. unfold bind at 1.
  destruct (ThrustToAngularVec (cmdMin s1) s1) as [lo s2].
  do 4 eexists. reflexivity.
Qed.

(** The integral and derivative gains it installs are zero whatever the SDF
    holds, because each is read only when its element is absent. *)
Lemma ConfigurePID_gains (_sdf : Element) (s : ThrusterPrivateData) :
  velocityControl s = false -> zero_gains (snd (ConfigurePID _sdf s)).
Proof.
  intros Hv. unfold zero_gains.
  destruct (ConfigurePID_controller _sdf s Hv) as (p & hi & lo & c0 & ->).
  split; cbn.
  - destruct (HasElement _sdf "i_gain") eqn:Hi; cbn; [reflexivity |].
    apply GetDouble_absent. exact Hi.
  - destruct (HasElement _sdf "d_gain") eqn:Hd; cbn; [reflexivity |].
    apply GetDouble_absent. exact Hd.
Qed.

Lemma zero_gains_ConfigurePID (_sdf : Element) :
  preserves zero_gains (ConfigurePID _sdf).
Proof.
  intros s H. destruct (velocityControl s) eqn:Hv.
  - replace (ConfigurePID _sdf s) with (tt, s); [exact H |].
    unfold ConfigurePID. unfold bind at 1. unfold get at 1. rewrite Hv.
    reflexivity.
  - apply ConfigurePID_gains. exact Hv.
Qed.

Ltac preserves_step :=
  first
    [ apply preserves_ret
    | apply preserves_get
    | apply zero_gains_ConfigurePID
    | apply zero_gains_ThrustToAngularVec
    | apply bounds_ThrustToAngularVec
    | apply preserves_when
    | apply preserves_modify; intros ? H; exact H
    | apply preserves_bind; [| intros ] ].

Lemma bounds_ConfigurePID (_sdf : Element) :
  preserves bounds_in_order (ConfigurePID _sdf).
Proof.
  unfold ConfigurePID.
  preserves_step; [preserves_step |].
  destruct (negb (velocityControl _)); repeat preserves_step.
Qed.

Lemma zero_gains_Configure (_entity : Entity) (_sdf : Element)
    (_ecm : EntityComponentManager) :
  preserves zero_gains (Configure _entity _sdf _ecm).
Proof.
  unfold Configure.
  preserves_step; [preserves_step |].
  destruct (negb (HasElement _sdf "joint_name")); [preserves_step |].
  do 9 (preserves_step; [repeat preserves_step |]).
  preserves_step; [repeat preserves_step |].
  destruct (N.eqb kNullEntity _); [preserves_step |].
  preserves_step; [repeat preserves_step |].
  preserves_step; [repeat preserves_step |].
  destruct (chooseTopics _ _ _) as [[thrusterTopic callback] feedbackTopic].
  repeat preserves_step.
Qed.

(** [Configure] keeps the bounds in order: it installs the configured bounds
    only when the maximum is not below the minimum. *)
Lemma bounds_Configure (_entity : Entity) (_sdf : Element)
    (_ecm : EntityComponentManager) :
  preserves bounds_in_order (Configure _entity _sdf _ecm).
Proof.
  unfold Configure.
  preserves_step; [preserves_step |].
  destruct (negb (HasElement _sdf "joint_name")); [preserves_step |].
  do 9 (preserves_step; [repeat preserves_step |]).
  preserves_step; [repeat preserves_step |].
  destruct (N.eqb kNullEntity _); [preserves_step |].
  preserves_step; [repeat preserves_step |].
  preserves_step; [repeat preserves_step |].
  destruct (chooseTopics _ _ _) as [[thrusterTopic callback] feedbackTopic].
  preserves_step; [repeat preserves_step |].
  preserves_step; [repeat preserves_step |].
  preserves_step.
  - match goal with
    | |- preserves _ (when (negb (?hi <? ?lo)) _) =>
        destruct (hi <? lo) eqn:Hord; cbn [negb when]
    end.
    + preserves_step.
    + apply preserves_modify. intros s _. exact Hord.
  - intros. preserves_step; [repeat preserves_step |].
    intros. apply bounds_ConfigurePID.
Qed.

(** C9: whatever the configuration holds, the propeller controller of a
    freshly constructed system has integral and derivative gains 0 after
    [Configure]: [i_gain] and [d_gain] are read only when the element is
    absent, where the read gives 0, so a value supplied for either is never
    applied. *)
Theorem i_gain_d_gain_never_applied (_entity : Entity) (_sdf : Element)
    (_ecm : EntityComponentManager) (e : Entity) (ax : Vector3d) (p : Pose3d) :
  let s' := snd (Configure _entity _sdf _ecm (initialData e ax p)) in
  PID.iGain (propellerController s') = dzero
  /\ PID.dGain (propellerController s') = dzero.
Proof.
  cbv zeta. apply zero_gains_Configure. split; reflexivity.
Qed.

End Configuration.

(** ** The life of a configured system *)

Section Lifetime.
Context {D : Arith} {L : GzLibs D}.
Local Open Scope monad_scope.

(** What happens to a configured system: a command message arrives, or the
    host runs a [PreUpdate] or a [PostUpdate]. *)
Inductive Event : Type :=
| Command (_msg : double)
| Pre (_info : UpdateInfo) (_ecm : EntityComponentManager)
| Post (_info : UpdateInfo) (_ecm : EntityComponentManager).

(** The transport node hands a message to the callback it subscribed. *)
Definition deliver (_msg : double) : M ThrusterPrivateData unit :=
  s <- get ;;
  match node s with
  | Some (_, CbOnCmdThrust) => OnCmdThrust _msg
  | Some (_, CbOnCmdAngVel) => OnCmdAngVel _msg
  | None => ret tt
  end.

Definition handle (ev : Event) (s : ThrusterPrivateData)
    : ThrusterPrivateData :=
  match ev with
  | Command _msg => snd (deliver _msg s)
  | Pre _info _ecm => snd (PreUpdate _info _ecm s)
  | Post _info _ecm => snd (PostUpdate _info _ecm s)
  end.

Definition run (evs : list Event) (s : ThrusterPrivateData)
    : ThrusterPrivateData :=
  fold_left (fun s ev => handle ev s) evs s.

Lemma deliver_unfold (_msg : double) (s : ThrusterPrivateData) :
  deliver _msg s =
  match node s with
  | Some (_, CbOnCmdThrust) => OnCmdThrust _msg s
  | Some (_, CbOnCmdAngVel) => OnCmdAngVel _msg s
  | None => (tt, s)
  end.
Proof.
  unfold deliver. unfold bind at 1. unfold get at 1.
  destruct (node s) as [[tp [|]] |]; reflexivity.
Qed.

(** No event changes the command bounds. *)
Lemma handle_bounds (ev : Event) (s : ThrusterPrivateData) :
  cmdMax (handle ev s) = cmdMax s /\ cmdMin (handle ev s) = cmdMin s.
Proof.
  destruct ev as [m | i e | i e]; cbn [handle].
  - rewrite deliver_unfold.
    destruct (node s) as [[tp [|]] |].
    + rewrite OnCmdThrust_unfold. cbv zeta.
      rewrite ThrustToAngularVec_frame. split; reflexivity.
    + rewrite OnCmdAngVel_unfold. split; reflexivity.
    + split; reflexivity.
  - destruct (paused i) eqn:Hp;
      [rewrite PreUpdate_idle by (left; exact Hp); split; reflexivity |].
    destruct (enabled s) eqn:He;
      [| rewrite PreUpdate_idle by (right; exact He); split; reflexivity].
    destruct (velocityControl s) eqn:Hv.
    + rewrite (PreUpdate_velocity _ _ _ Hp He Hv). split; reflexivity.
    + rewrite (PreUpdate_pid _ _ _ Hp He Hv). split; reflexivity.
  - split; reflexivity.
Qed.

(** The order of the bounds is an invariant: [Configure] establishes it on
    data whose bounds are in order (as the defaults -1000 and 1000 are), and
    every later event keeps it. *)
Lemma bounds_in_order_invariant (_entity : Entity) (_sdf : Element)
    (_ecm : EntityComponentManager) (evs : list Event)
    (s : ThrusterPrivateData) :
  bounds_in_order s ->
  bounds_in_order (run evs (snd (Configure _entity _sdf _ecm s))).
Proof.
  intros H. apply (bounds_Configure _entity _sdf _ecm) in H.
  revert H. generalize (snd (Configure _entity _sdf _ecm s)) as s0.
  induction evs as [| ev evs IH]; intros s0 H; cbn [run fold_left].
  - exact H.
  - apply IH. unfold bounds_in_order in *.
    destruct (handle_bounds ev s0) as [-> ->]. exact H.
Qed.

End Lifetime.

(** ** The algebra of the round trip and the scenario, in exact arithmetic *)

Section Ideal.
Context {L : GzLibs ideal}.
Local Open Scope R_scope.

(** The factor that restores the sign is 1 or -1. *)
Lemma sign_factor_cases (x : R) :
  (0 < x /\ (if Rltb 0 x then 1 else -1) = 1)
  \/ (x <= 0 /\ (if Rltb 0 x then 1 else -1) = -1).
Proof.
  unfold Rltb. destruct (Rlt_dec 0 x); [left | right]; split; lra.
Qed.

(** The magnitude under the square root. *)
Lemma Rabs_quotient (t rho c d4 : R) :
  c <> 0 -> 0 < rho -> 0 < d4 ->
  Rabs (t / (rho * c * d4)) = Rabs t / (rho * Rabs c * d4).
Proof.
  intros Hc Hrho Hd. unfold Rdiv.
  rewrite Rabs_mult, Rabs_inv, !Rabs_mult.
  rewrite (Rabs_right rho), (Rabs_right d4) by lra. reflexivity.
Qed.

(** The algebra of the round trip: with a nonzero coefficient, a positive
    density and a positive fourth power of the diameter, the thrust computed
    from the angular velocity computed from [t] is [t]. *)
Lemma round_trip_algebra (t c rho d4 : R) :
  c <> 0 -> 0 < rho -> 0 < d4 ->
  let w := R_sqrt.sqrt (Rabs (t / (rho * c * d4)))
           * (if Rltb 0 (t * c) then 1 else -1) in
  c * d4 * Rabs w * w * rho = t.
Proof.
  intros Hc Hrho Hd w. subst w.
  set (q := Rabs (t / (rho * c * d4))).
  assert (Hq : 0 <= q) by apply Rabs_pos.
  assert (Hs : 0 <= R_sqrt.sqrt q) by apply sqrt_pos.
  assert (Hsq : R_sqrt.sqrt q * R_sqrt.sqrt q = q) by (apply sqrt_sqrt; exact Hq).
  assert (Hqv : q * (rho * Rabs c * d4) = Rabs t).
  { unfold q. rewrite Rabs_quotient by assumption.
    assert (0 < Rabs c) by (apply Rabs_pos_lt; exact Hc).
    field. repeat split; lra. }
  destruct (sign_factor_cases (t * c)) as [[Hpos ->] | [Hneg ->]].
  - rewrite Rmult_1_r, (Rabs_right _ (Rle_ge _ _ Hs)).
    replace (c * d4 * R_sqrt.sqrt q * R_sqrt.sqrt q * rho)
      with (c * d4 * rho * (R_sqrt.sqrt q * R_sqrt.sqrt q)) by ring.
    rewrite Hsq.
    destruct (Rcase_abs c) as [Hcn | Hcp].
    + rewrite (Rabs_left c Hcn) in Hqv.
      assert (t < 0) by nra.
      rewrite (Rabs_left t) in Hqv by assumption. nra.
    + rewrite (Rabs_right c Hcp) in Hqv.
      assert (0 < t) by nra.
      rewrite (Rabs_right t) in Hqv by lra. nra.
  - replace (Rabs (R_sqrt.sqrt q * -1)) with (R_sqrt.sqrt q).
    2:{ rewrite Rabs_mult, (Rabs_right _ (Rle_ge _ _ Hs)), (Rabs_left (-1)) by lra.
        ring. }
    replace (c * d4 * R_sqrt.sqrt q * (R_sqrt.sqrt q * -1) * rho)
      with (- (c * d4 * rho * (R_sqrt.sqrt q * R_sqrt.sqrt q))) by ring.
    rewrite Hsq.
    destruct (Rcase_abs c) as [Hcn | Hcp].
    + rewrite (Rabs_left c Hcn) in Hqv.
      assert (0 <= t) by nra.
      rewrite (Rabs_right t) in Hqv by lra. nra.
    + rewrite (Rabs_right c Hcp) in Hqv.
      assert (t <= 0) by nra.
      destruct (Req_dec t 0) as [-> | Hne].
      * rewrite Rabs_R0 in Hqv. nra.
      * rewrite (Rabs_left t) in Hqv by lra. nra.
Qed.

Ltac ideal_ops :=
  cbn [dadd dsub dmul ddiv dsqrt dabs dltb dleb deqb disnan disinf of_Z
       double ideal pow] in *.

(** The bracket of the square root in the scenario. *)
Lemma sqrt_625000_bounds : 790 < R_sqrt.sqrt 625000 < 791.
Proof.
  split.
  - rewrite <- (sqrt_square 790) by lra. apply sqrt_lt_1_alt. lra.
  - rewrite <- (sqrt_square 791) by lra. apply sqrt_lt_1_alt. lra.
Qed.

(** With [alpha1 = 1] and [alpha2 = 0] a coefficient of 1 stays 1, whether
    or not it is recomputed. *)
Lemma coefficient_stays_one (s : @ThrusterPrivateData ideal L) (t : R) :
  thrustCoefficient s = 1 -> alpha1 s = 1 -> alpha2 s = 0 ->
  thrustCoefficient (snd (ThrustToAngularVec (D:=ideal) t s)) = 1.
Proof.
  intros Hc Ha1 Ha2. rewrite ThrustToAngularVec_state.
  destruct (negb (thrustCoefficientSet s) && _); [| exact Hc].
  rewrite UpdateThrustCoefficient_frame.
  change (alpha1 s + alpha2 s *
          (((1 - wakeFraction s) * linearVelocity s)
           / (propellerAngVel s * propellerDiameter s)) = 1).
  rewrite Ha1, Ha2. ring.
Qed.

(** The conversion of 100 N in the scenario. *)
Lemma ThrustToAngularVec_100 (s : @ThrusterPrivateData ideal L) :
  thrustCoefficient s = 1 -> alpha1 s = 1 -> alpha2 s = 0 ->
  fluidDensity s = 1000 -> propellerDiameter s = 2 / 100 ->
  fst (ThrustToAngularVec (D:=ideal) 100 s) = R_sqrt.sqrt 625000.
Proof.
  intros Hc Ha1 Ha2 Hrho Hd.
  rewrite ThrustToAngularVec_value. cbv zeta.
  rewrite ThrustToAngularVec_fluidDensity, ThrustToAngularVec_propellerDiameter.
  rewrite (coefficient_stays_one s 100 Hc Ha1 Ha2), Hrho, Hd.
  ideal_ops. unfold Rltb. destruct (Rlt_dec 0 (100 * 1)); [| lra].
  rewrite Rmult_1_r. f_equal. rewrite Rabs_right; [field |].
  apply Rle_ge. apply Rlt_le. apply Rdiv_lt_0_compat; lra.
Qed.

(** C8, as the code has it: with the thrust coefficient not set by
    configuration and at its value 1, [alpha1 = 1], [alpha2 = 0], a fluid
    density of 1000, a propeller diameter of 0.02 and bounds that admit
    100, a thrust command of 100 N stores the propeller angular velocity
    [sqrt (100 / (1000 * 1 * 0.02^4))], which lies between 790 and 791
    rad/s and is positive. *)
Theorem thrust_100_scenario (s : @ThrusterPrivateData ideal L) :
  thrustCoefficientSet s = false ->
  thrustCoefficient s = 1 ->
  alpha1 s = 1 ->
  alpha2 s = 0 ->
  fluidDensity s = 1000 ->
  propellerDiameter s = 2 / 100 ->
  cmdMin s <= 100 <= cmdMax s ->
  let w := propellerAngVel (snd (OnCmdThrust (D:=ideal) 100 s)) in
  w = R_sqrt.sqrt (100 / (1000 * 1 * (2 / 100) ^ 4))
  /\ 790 < w < 791
  /\ 0 < w.
Proof.
  intros Hset Hc Ha1 Ha2 Hrho Hd [Hlo Hhi] w.
  assert (Hclamp : clamp (D:=ideal) (fixnan (D:=ideal) 100) (cmdMin s) (cmdMax s) = 100).
  { unfold clamp, std_min, std_max, fixnan. ideal_ops. unfold Rltb.
    destruct (Rlt_dec (cmdMax s) 100); [lra |].
    destruct (Rlt_dec 100 (cmdMin s)); [lra | reflexivity]. }
  assert (Hw : w = R_sqrt.sqrt 625000).
  { subst w. rewrite OnCmdThrust_unfold. cbv zeta. rewrite Hclamp.
    change (fst (ThrustToAngularVec (D:=ideal) 100
                   (s <| thrust := (100 : @double ideal) |>))
            = R_sqrt.sqrt 625000).
    apply ThrustToAngularVec_100; assumption. }
  pose proof sqrt_625000_bounds as [Hl Hu].
  split; [| split].
  - rewrite Hw. f_equal. field.
  - rewrite Hw. split; assumption.
  - rewrite Hw. lra.
Qed.

End Ideal.

(** ** Runs in binary64 *)

Section Binary64.
Local Existing Instance plainLibs.
Local Open Scope string_scope.
Local Open Scope double_scope.

(** The scenario of the specification: the joint, [alpha_1 = 1],
    [alpha_2 = 0], a fluid density of 1000 and a propeller diameter of
    0.02; no thrust coefficient. *)
Definition scenarioSdf : @Element binary64 :=
  [ ("joint_name", SdfString "propeller_joint");
    ("alpha_1", SdfDouble (f64 1));
    ("alpha_2", SdfDouble (f64 0));
    ("fluid_density", SdfDouble (f64 1000));
    ("propeller_diameter", SdfDouble (f64 0.02)) ].

(** A configuration that fixes the thrust coefficient at 0. *)
Definition zeroCoefficientSdf : @Element binary64 :=
  [ ("joint_name", SdfString "propeller_joint");
    ("thrust_coefficient", SdfDouble (f64 0)) ].

(** A configuration of a thruster that pushes one way only: commands are
    bounded below by 0. *)
Definition forwardOnlySdf : @Element binary64 :=
  [ ("joint_name", SdfString "propeller_joint");
    ("min_thrust_cmd", SdfDouble (f64 0)) ].

(** A configuration with all three gains supplied. *)
Definition gainsSdf : @Element binary64 :=
  [ ("joint_name", SdfString "propeller_joint");
    ("p_gain", SdfDouble (f64 7));
    ("i_gain", SdfDouble (f64 5));
    ("d_gain", SdfDouble (f64 3)) ].

(** Velocity control of a propeller whose coefficient follows the advance
    velocity ([alpha_2 = 1]), commanded in angular velocity. *)
Definition velocitySdf : @Element binary64 :=
  [ ("joint_name", SdfString "propeller_joint");
    ("alpha_2", SdfDouble (f64 1));
    ("velocity_control", SdfBool true);
    ("use_angvel_cmd", SdfBool true) ].

(** A step of one millisecond. *)
Definition oneMs : UpdateInfo := {| paused := false; dt := 1000000 |}.

(** A world whose propeller link turns at 1 rad/s and does not advance,
    and one whose link is still and advances at 1 m/s. *)
Definition spinningWorld : EntityComponentManager :=
  world (f64 1) (f64 0) [] (fun _ => kNullEntity).
Definition advancingWorld : EntityComponentManager :=
  world (f64 0) (f64 1) [] (fun _ => kNullEntity).

(** The model of libm's [pow] agrees with the correctly rounded fourth
    power at the default diameter; the decimal constants of the source are
    the doubles nearest to them. *)
Example pow_0_02 : pow (D:=binary64) (f64 0.02) 4 = f64 1.6e-7.
Proof. vm_compute. reflexivity. Qed.

Example constants_binary64 :
  propellerDiameter (freshData (D:=binary64)) = f64 0.02
  /\ wakeFraction (freshData (D:=binary64)) = f64 0.2
  /\ dtSeconds (D:=binary64) oneMs = f64 0.001
  /\ epsilon (D:=binary64) = f64 0x1p-52.
Proof. vm_compute. repeat split. Qed.

(** [Configure] on the scenario: the subscription, the feedback topic and
    the limits of the controller. *)
Example Configure_scenario :
  let s := configured scenarioSdf in
  node s = Some ("/model/vehicle/joint/propeller_joint/cmd_thrust", CbOnCmdThrust)
  /\ pubTopic (pub s) = "/model/vehicle/joint/propeller_joint/ang_vel"
  /\ linkEntity s = 3%N
  /\ PID.cmdMax (propellerController s) = f64 2500
  /\ PID.cmdMin (propellerController s) = f64 (-2500)
  /\ thrustCoefficient s = f64 1.
Proof. vm_compute. repeat split. Qed.

(** The gains after [Configure] with all three supplied: the proportional
    gain is the one supplied, the other two are 0. *)
Example Configure_gains :
  let c := propellerController (configured gainsSdf) in
  PID.pGain c = f64 7 /\ PID.iGain c = f64 0 /\ PID.dGain c = f64 0.
Proof. vm_compute. repeat split. Qed.

(** The round trip at 100 N in the scenario is exact in binary64. *)
Example round_trip_100 :
  let s := snd (OnCmdThrust (f64 100) (configured scenarioSdf)) in
  fst (AngularVelToThrust (propellerAngVel s) s) = f64 100.
Proof. vm_compute. reflexivity. Qed.

(** C8, the claim as stated fails: in the scenario a command of 100 N
    stores about 790.57 rad/s, which is not within 1 of 55.9. *)
Lemma thrust_100_is_not_55_9 :
  let s := snd (OnCmdThrust (f64 100) (configured scenarioSdf)) in
  thrust s = f64 100
  /\ propellerAngVel s = f64 790.56941504209487
  /\ (dabs (propellerAngVel s - f64 55.9) <? f64 1) = false.
Proof. vm_compute. repeat split. Qed.

(** The setpoint of a step is re-derived from the thrust: after an angular
    velocity command of 10 rad/s, with the vehicle advancing at 1 m/s, the
    step writes 4.47 rad/s to the joint and stores it, with the coefficient
    recomputed to 5. *)
Example PreUpdate_overrides_commanded_velocity :
  let s0 := (configured velocitySdf) <| linearVelocity := f64 1 |> in
  let s := snd (OnCmdAngVel (f64 10) s0) in
  let r := PreUpdate oneMs advancingWorld s in
  propellerAngVel s = f64 10
  /\ propellerAngVel (snd r) = f64 4.4721359549995796
  /\ jointVelocityCmd (fst r) 2%N = Some [f64 4.4721359549995796]
  /\ thrustCoefficient (snd r) = f64 5.
Proof. vm_compute. repeat split. Qed.

(** C4 at a concrete input: in the scenario the bounds are -1000 and 1000,
    and a thrust command of 2000 N is stored as 1000 N, one of -2000 N as
    -1000 N and a NaN as 0. *)
Lemma commands_sanitized_and_clamped_witness :
  let s := configured scenarioSdf in
  (cmdMax s <? cmdMin s) = false
  /\ thrust (snd (OnCmdThrust (f64 2000) s)) = f64 1000
  /\ thrust (snd (OnCmdThrust (f64 (-2000)) s)) = f64 (-1000)
  /\ thrust (snd (OnCmdThrust (f64 nan) s)) = f64 0.
Proof.
  cbv zeta. split; [vm_compute; reflexivity |].
  split; [| split].
  - destruct (commands_sanitized_and_clamped (laws := binary64_laws)
                (configured scenarioSdf) (f64 2000))
      as (Ht & _ & _ & _ & _ & Habove & _).
    + vm_compute; reflexivity.
    + rewrite Ht. rewrite Habove; vm_compute; reflexivity.
  - destruct (commands_sanitized_and_clamped (laws := binary64_laws)
                (configured scenarioSdf) (f64 (-2000)))
      as (Ht & _ & _ & _ & _ & _ & Hbelow).
    + vm_compute; reflexivity.
    + rewrite Ht. rewrite Hbelow; vm_compute; reflexivity.
  - destruct (commands_sanitized_and_clamped (laws := binary64_laws)
                (configured scenarioSdf) (f64 nan))
      as (Ht & _ & _ & _ & Hnan & _).
    + vm_compute; reflexivity.
    + rewrite Ht. rewrite Hnan; vm_compute; reflexivity.
Defined.

(** C10 at a concrete input: after a thrust command of 100 N in the
    scenario, a step stores the angular velocity derived from 100 N and
    keeps the thrust. *)
Lemma PreUpdate_rederives_angular_velocity_witness :
  let s := snd (OnCmdThrust (f64 100) (configured scenarioSdf)) in
  paused oneMs = false /\ enabled s = true
  /\ propellerAngVel (snd (PreUpdate oneMs spinningWorld s))
     = f64 790.56941504209487
  /\ thrust (snd (PreUpdate oneMs spinningWorld s)) = f64 100.
Proof.
  cbv zeta. do 2 (split; [reflexivity |]).
  destruct (PreUpdate_rederives_angular_velocity oneMs spinningWorld
              (snd (OnCmdThrust (f64 100) (configured scenarioSdf)))
              eq_refl eq_refl)
    as (Hw & Ht & _).
  split.
  - rewrite Hw. vm_compute. reflexivity.
  - rewrite Ht. vm_compute. reflexivity.
Defined.

End Binary64.

(** ** Runs in exact arithmetic *)

Section IdealRuns.
Local Existing Instance plainLibs.
Local Open Scope string_scope.
Local Open Scope R_scope.

(** The scenario of the specification, with real values. *)
Definition idealScenarioSdf : @Element ideal :=
  [ ("joint_name", SdfString "propeller_joint");
    ("alpha_1", @SdfDouble ideal 1);
    ("alpha_2", @SdfDouble ideal 0);
    ("fluid_density", @SdfDouble ideal 1000);
    ("propeller_diameter", @SdfDouble ideal (2 / 100)) ].

Lemma epsilon_pos : 0 < @epsilon ideal.
Proof.
  unfold epsilon. cbn. apply Rdiv_lt_0_compat; [lra |].
  apply IZR_lt. reflexivity.
Qed.

Lemma rest_below_epsilon : Rltb (@epsilon ideal) (Rabs 0) = false.
Proof. apply Rltb_false. rewrite Rabs_R0. apply Rlt_le, epsilon_pos. Qed.

Ltac ideal_cbn :=
  cbn -[Rltb Rleb Reqb IZR Rdiv Rmult Rplus Rminus Rabs R_sqrt.sqrt Rinv
        Ropp epsilon].

(** What [Configure] leaves on the scenario. *)
Lemma configured_ideal_scenario :
  let s := configured (D:=ideal) idealScenarioSdf in
  thrustCoefficientSet s = false
  /\ thrustCoefficient s = 1
  /\ alpha1 s = 1
  /\ alpha2 s = 0
  /\ fluidDensity s = 1000
  /\ propellerDiameter s = 2 / 100
  /\ cmdMin s = -1000
  /\ cmdMax s = 1000
  /\ propellerAngVel s = 0.
Proof.
  cbv zeta. unfold configured. ideal_cbn.
  replace (Rltb 1000 (-1000)) with false by (symmetry; apply Rltb_false; lra).
  ideal_cbn.
  unfold ConfigurePID, ThrustToAngularVec. run_monad. ideal_cbn.
  repeat (rewrite rest_below_epsilon; ideal_cbn).
  repeat split.
Qed.

(** C8 at a concrete input: the state that [Configure] leaves on the
    scenario. *)
Lemma thrust_100_scenario_witness :
  let s := configured (D:=ideal) idealScenarioSdf in
  let w := propellerAngVel (snd (OnCmdThrust (D:=ideal) 100 s)) in
  cmdMin s <= 100 <= cmdMax s
  /\ w = R_sqrt.sqrt (100 / (1000 * 1 * (2 / 100) ^ 4))
  /\ 790 < w < 791.
Proof.
  cbv zeta.
  destruct configured_ideal_scenario
    as (Hset & Hc & Ha1 & Ha2 & Hrho & Hd & Hlo & Hhi & Hw).
  assert (Hb : cmdMin (configured (D:=ideal) idealScenarioSdf) <= 100
               <= cmdMax (configured (D:=ideal) idealScenarioSdf))
    by (rewrite Hlo, Hhi; lra).
  split; [exact Hb |].
  destruct (thrust_100_scenario (configured (D:=ideal) idealScenarioSdf)
              Hset Hc Ha1 Ha2 Hrho Hd Hb) as (Hv & Hbr & _).
  split; [exact Hv | exact Hbr].
Defined.

End IdealRuns.

(** * Further properties of the code *)

(** ** The outcome of [Configure] *)

Section ConfigureOutcome.
Context {D : Arith} {L : GzLibs D}.
Local Open Scope string_scope.
Local Open Scope double_scope.

(** A guarded update: what [if (cond) { update }] does to the data. *)
Definition applyIf (b : bool)
    (f : ThrusterPrivateData -> ThrusterPrivateData)
    (s : ThrusterPrivateData) : ThrusterPrivateData :=
  if b then f s else s.

Lemma bind_modify {B} (f : ThrusterPrivateData -> ThrusterPrivateData)
    (k : unit -> M ThrusterPrivateData B) (s : ThrusterPrivateData) :
  bind (modify f) k s = k tt (f s).
Proof. reflexivity. Qed.

Lemma bind_get {B} (k : ThrusterPrivateData -> M ThrusterPrivateData B)
    (s : ThrusterPrivateData) :
  bind get k s = k s s.
Proof. reflexivity. Qed.

Lemma bind_when_modify {B} (b : bool)
    (f : ThrusterPrivateData -> ThrusterPrivateData)
    (k : unit -> M ThrusterPrivateData B) (s : ThrusterPrivateData) :
  bind (when b (modify f)) k s = k tt (applyIf b f s).
Proof. destruct b; reflexivity. Qed.

(** A projection that an update does not touch sees through the guard. *)
Lemma applyIf_frame {X} (g : ThrusterPrivateData -> X) (b : bool)
    (f : ThrusterPrivateData -> ThrusterPrivateData)
    (s : ThrusterPrivateData) :
  (forall x, g (f x) = g x) -> g (applyIf b f s) = g s.
Proof. intros H. unfold applyIf. destruct b; [apply H | reflexivity]. Qed.

(** The first part of [Configure], up to the look-up of the joint: the
    parameters that are present in the SDF are stored. *)
Definition readParameters (_entity : Entity) (_sdf : Element)
    (_ecm : EntityComponentManager) (s : ThrusterPrivateData)
    : ThrusterPrivateData :=
  let s := s <| modelEntity := _entity |> in
  let s := applyIf (HasElement _sdf "thrust_coefficient")
             (fun s => s <| thrustCoefficient := GetDouble _sdf "thrust_coefficient" |>
                         <| thrustCoefficientSet := true |>) s in
  let s := applyIf (HasElement _sdf "propeller_diameter")
             (fun s => s <| propellerDiameter := GetDouble _sdf "propeller_diameter" |>) s in
  let s := applyIf (HasElement _sdf "fluid_density")
             (fun s => s <| fluidDensity := GetDouble _sdf "fluid_density" |>) s in
  let s := applyIf (HasElement _sdf "use_angvel_cmd")
             (fun s => s <| opmode := if GetBool _sdf "use_angvel_cmd"
                                      then AngVelCmd else ForceCmd |>) s in
  let s := applyIf (HasElement _sdf "wake_fraction")
             (fun s => s <| wakeFraction := GetDouble _sdf "wake_fraction" |>) s in
  let s := applyIf (HasElement _sdf "alpha_1")
             (fun s => s <| alpha1 := GetDouble _sdf "alpha_1" |>) s in
  let s := applyIf (HasElement _sdf "alpha_2")
             (fun s => s <| alpha2 := GetDouble _sdf "alpha_2" |>) s in
  let s := applyIf (HasElement _sdf "topic")
             (fun s => s <| topic := AsValidTopic (GetString _sdf "topic") |>) s in
  s <| jointEntity := JointByName _ecm _entity (GetString _sdf "joint_name") |>.

(** The namespace of the topics. *)
Definition namespaceOf (_entity : Entity) (_sdf : Element)
    (_ecm : EntityComponentManager) : string :=
  if HasElement _sdf "namespace" then GetString _sdf "namespace"
  else modelName _ecm _entity.

(** The second part, once the joint is found: axis, pose and link of the
    joint, the subscription and the publisher. *)
Definition attachJoint (_entity : Entity) (_sdf : Element)
    (_ecm : EntityComponentManager) (s : ThrusterPrivateData)
    : ThrusterPrivateData :=
  let s := s <| jointAxis := jointAxisXyz _ecm (jointEntity s) |>
             <| jointPose := poseComponent _ecm (jointEntity s) |>
             <| linkEntity :=
                  LinkByName _ecm _entity (childLinkName _ecm (jointEntity s)) |> in
  let topics := chooseTopics (namespaceOf _entity _sdf _ecm)
                             (GetString _sdf "joint_name") s in
  s <| node := Some (fst topics) |>
    <| pub := {| pubTopic := snd topics; published := [] |} |>.

(** The bounds that the SDF asks for, on top of the current ones. *)
Definition requestedMax (_sdf : Element) (s : ThrusterPrivateData) : double :=
  if HasElement _sdf "max_thrust_cmd" then GetDouble _sdf "max_thrust_cmd"
  else cmdMax s.
Definition requestedMin (_sdf : Element) (s : ThrusterPrivateData) : double :=
  if HasElement _sdf "min_thrust_cmd" then GetDouble _sdf "min_thrust_cmd"
  else cmdMin s.

(** The third part: the bounds and the velocity-control flag. *)
Definition readLimits (_sdf : Element) (s : ThrusterPrivateData)
    : ThrusterPrivateData :=
  let s := applyIf (negb (requestedMax _sdf s <? requestedMin _sdf s))
             (fun x => x <| cmdMax := requestedMax _sdf s |>
                         <| cmdMin := requestedMin _sdf s |>) s in
  applyIf (HasElement _sdf "velocity_control")
    (fun s => s <| velocityControl := GetBool _sdf "velocity_control" |>) s.

(** [Configure] in three stages, with its two early returns. *)
Lemma Configure_stages (_entity : Entity) (_sdf : Element)
    (_ecm : EntityComponentManager) (s : ThrusterPrivateData) :
  Configure _entity _sdf _ecm s =
  if negb (HasElement _sdf "joint_name")
  then (tt, s <| modelEntity := _entity |>)
  else
    let s1 := readParameters _entity _sdf _ecm s in
    if N.eqb kNullEntity (jointEntity s1) then (tt, s1)
    else ConfigurePID _sdf (readLimits _sdf (attachJoint _entity _sdf _ecm s1)).
Proof.
  unfold Configure. rewrite bind_modify.
  destruct (negb (HasElement _sdf "joint_name")); [reflexivity |].
  rewrite !bind_when_modify. rewrite bind_modify, bind_get.
  unfold readParameters. cbv zeta.
  match goal with
  | |- context [N.eqb kNullEntity (jointEntity ?x)] =>
      set (s1 := x); destruct (N.eqb kNullEntity (jointEntity s1));
      [reflexivity |]
  end.
  rewrite bind_modify, bind_get.
  unfold readLimits, attachJoint, namespaceOf. cbv zeta.
  destruct (chooseTopics _ _ _) as [[thrusterTopic callback] feedbackTopic].
  rewrite bind_modify, bind_get, !bind_when_modify.
  reflexivity.
Qed.

(** A projection that none of the parameter updates touches is the same
    after the parameters stage. *)
Lemma readParameters_keeps {X} (g : ThrusterPrivateData -> X)
    (_entity : Entity) (_sdf : Element) (_ecm : EntityComponentManager)
    (s : ThrusterPrivateData) :
  (forall x v, g (x <| modelEntity := v |>) = g x) ->
  (forall x v, g (x <| thrustCoefficient := v |>) = g x) ->
  (forall x v, g (x <| thrustCoefficientSet := v |>) = g x) ->
  (forall x v, g (x <| propellerDiameter := v |>) = g x) ->
  (forall x v, g (x <| fluidDensity := v |>) = g x) ->
  (forall x v, g (x <| opmode := v |>) = g x) ->
  (forall x v, g (x <| wakeFraction := v |>) = g x) ->
  (forall x v, g (x <| alpha1 := v |>) = g x) ->
  (forall x v, g (x <| alpha2 := v |>) = g x) ->
  (forall x v, g (x <| topic := v |>) = g x) ->
  (forall x v, g (x <| jointEntity := v |>) = g x) ->
  g (readParameters _entity _sdf _ecm s) = g s.
Proof.
  intros Hm Hc Hcs Hd Hr Ho Hw Ha1 Ha2 Ht Hj.
  unfold readParameters. cbv zeta. rewrite Hj.
  rewrite (applyIf_frame g) by (intros; apply Ht).
  rewrite (applyIf_frame g) by (intros; apply Ha2).
  rewrite (applyIf_frame g) by (intros; apply Ha1).
  rewrite (applyIf_frame g) by (intros; apply Hw).
  rewrite (applyIf_frame g) by (intros; apply Ho).
  rewrite (applyIf_frame g) by (intros; apply Hr).
  rewrite (applyIf_frame g) by (intros; apply Hd).
  rewrite (applyIf_frame g) by (intros; rewrite Hcs; apply Hc).
  apply Hm.
Qed.

Ltac keeps_params := apply readParameters_keeps; reflexivity.

(** The parameters stage leaves everything but the parameters alone. *)
Lemma readParameters_frame (_entity : Entity) (_sdf : Element)
    (_ecm : EntityComponentManager) (s : ThrusterPrivateData) :
  let r := readParameters _entity _sdf _ecm s in
  jointEntity r = JointByName _ecm _entity (GetString _sdf "joint_name")
  /\ node r = node s /\ pub r = pub s
  /\ propellerController r = propellerController s
  /\ cmdMax r = cmdMax s /\ cmdMin r = cmdMin s
  /\ velocityControl r = velocityControl s
  /\ enabled r = enabled s /\ linkEntity r = linkEntity s
  /\ thrust r = thrust s /\ propellerAngVel r = propellerAngVel s
  /\ linearVelocity r = linearVelocity s.
Proof.
  cbv zeta. split; [reflexivity |].
  repeat split; keeps_params.
Qed.

(** The limits stage touches the bounds and the velocity-control flag
    only. *)
Lemma readLimits_keeps {X} (g : ThrusterPrivateData -> X)
    (_sdf : Element) (s : ThrusterPrivateData) :
  (forall x v, g (x <| cmdMax := v |>) = g x) ->
  (forall x v, g (x <| cmdMin := v |>) = g x) ->
  (forall x v, g (x <| velocityControl := v |>) = g x) ->
  g (readLimits _sdf s) = g s.
Proof.
  intros Hhi Hlo Hv. unfold readLimits. cbv zeta.
  rewrite (applyIf_frame g) by (intros; apply Hv).
  rewrite (applyIf_frame g) by (intros; rewrite Hlo; apply Hhi).
  reflexivity.
Qed.

Lemma readLimits_bounds (_sdf : Element) (s : ThrusterPrivateData) :
  cmdMax (readLimits _sdf s)
    = (if requestedMax _sdf s <? requestedMin _sdf s
       then cmdMax s else requestedMax _sdf s)
  /\ cmdMin (readLimits _sdf s)
    = (if requestedMax _sdf s <? requestedMin _sdf s
       then cmdMin s else requestedMin _sdf s).
Proof.
  unfold readLimits. cbv zeta.
  rewrite (applyIf_frame cmdMax), (applyIf_frame cmdMin) by reflexivity.
  unfold applyIf.
  destruct (requestedMax _sdf s <? requestedMin _sdf s); split; reflexivity.
Qed.

Lemma readLimits_velocityControl (_sdf : Element) (s : ThrusterPrivateData) :
  velocityControl (readLimits _sdf s)
    = (if HasElement _sdf "velocity_control"
       then GetBool _sdf "velocity_control" else velocityControl s).
Proof.
  unfold readLimits. cbv zeta. unfold applyIf at 1.
  destruct (HasElement _sdf "velocity_control"); [reflexivity |].
  apply (applyIf_frame velocityControl). reflexivity.
Qed.

(** [ThrustToAngularVec] changes the data in one way whatever the thrust,
    and a second call changes nothing more and gives the value a first
    call would give. *)
Lemma ThrustToAngularVec_again (x y : double) (s : ThrusterPrivateData) :
  snd (ThrustToAngularVec x (snd (ThrustToAngularVec y s)))
    = snd (ThrustToAngularVec y s)
  /\ fst (ThrustToAngularVec x (snd (ThrustToAngularVec y s)))
    = fst (ThrustToAngularVec x s).
Proof.
  assert (Hs : snd (ThrustToAngularVec x (snd (ThrustToAngularVec y s)))
               = snd (ThrustToAngularVec y s)).
  { rewrite (ThrustToAngularVec_state x), (ThrustToAngularVec_state y).
    destruct (negb (thrustCoefficientSet s) && (dabs (propellerAngVel s) >? epsilon))
      eqn:Hc.
    - rewrite UpdateThrustCoefficient_frame.
      change (thrustCoefficientSet (s <| thrustCoefficient := _ |>))
        with (thrustCoefficientSet s).
      change (propellerAngVel (s <| thrustCoefficient := _ |>))
        with (propellerAngVel s).
      rewrite Hc. destruct s; reflexivity.
    - rewrite Hc. reflexivity. }
  split; [exact Hs |].
  rewrite (ThrustToAngularVec_value x (snd (ThrustToAngularVec y s))).
  cbv zeta. rewrite Hs.
  rewrite (ThrustToAngularVec_value x s). cbv zeta.
  rewrite !(ThrustToAngularVec_state x s), !(ThrustToAngularVec_state y s).
  reflexivity.
Qed.

(** The controller stage in closed form. *)
Lemma ConfigurePID_outcome (_sdf : Element) (s : ThrusterPrivateData) :
  snd (ConfigurePID _sdf s) =
  if velocityControl s then s
  else
    (snd (ThrustToAngularVec (cmdMax s) s))
      <| propellerController :=
           PID.Init
             (if HasElement _sdf "p_gain" then GetDouble _sdf "p_gain"
              else of_Z 1 / of_Z 10)
             (if negb (HasElement _sdf "i_gain") then GetDouble _sdf "i_gain"
              else of_Z 0)
             (if negb (HasElement _sdf "d_gain") then GetDouble _sdf "d_gain"
              else of_Z 0)
             (of_Z 1) (of_Z (-1))
             (fst (ThrustToAngularVec (cmdMax s) s))
             (fst (ThrustToAngularVec (cmdMin s) s))
             (of_Z 0) (propellerController s) |>.
Proof.
  unfold ConfigurePID. rewrite bind_get.
  destruct (velocityControl s); [reflexivity |]. cbn [negb].
  unfold bind at 1.
  destruct (ThrustToAngularVec_again (cmdMin s) (cmdMax s) s) as [Hs Hv].
  pose proof (ThrustToAngularVec_frame (cmdMax s) s) as Hf.
  destruct (ThrustToAngularVec (cmdMax s) s) as [hi s1]. cbn [fst snd] in *.
  rewrite bind_get. unfold bind at 1.
  assert (Hlo : cmdMin s1 = cmdMin s) by (rewrite Hf; reflexivity).
  assert (Hpc : propellerController s1 = propellerController s)
    by (rewrite Hf; reflexivity).
  rewrite Hlo.
  destruct (ThrustToAngularVec (cmdMin s) s1) as [lo s2]. cbn [fst snd] in *.
  subst s2 lo. cbn. rewrite Hpc. reflexivity.
Qed.

(** The controller stage touches the coefficient and the controller
    only. *)
Lemma ConfigurePID_keeps {X} (g : ThrusterPrivateData -> X)
    (_sdf : Element) (s : ThrusterPrivateData) :
  (forall x v, g (x <| thrustCoefficient := v |>) = g x) ->
  (forall x v, g (x <| propellerController := v |>) = g x) ->
  g (snd (ConfigurePID _sdf s)) = g s.
Proof.
  intros Hc Hp. rewrite ConfigurePID_outcome.
  destruct (velocityControl s); [reflexivity |].
  rewrite Hp, ThrustToAngularVec_frame. apply Hc.
Qed.

(** [Configure] when the joint is named and found. *)
Lemma Configure_success (_entity : Entity) (_sdf : Element)
    (_ecm : EntityComponentManager) (s : ThrusterPrivateData) :
  HasElement _sdf "joint_name" = true ->
  JointByName _ecm _entity (GetString _sdf "joint_name") <> kNullEntity ->
  snd (Configure _entity _sdf _ecm s) =
  snd (ConfigurePID _sdf
         (readLimits _sdf
            (attachJoint _entity _sdf _ecm
               (readParameters _entity _sdf _ecm s)))).
Proof.
  intros Hj Hn. rewrite Configure_stages, Hj. cbn [negb]. cbv zeta.
  destruct (N.eqb_spec kNullEntity
              (jointEntity (readParameters _entity _sdf _ecm s))) as [He | _];
    [| reflexivity].
  exfalso. apply Hn. symmetry. exact He.
Qed.

(** [Configure] when the joint is not named or not found. *)
Lemma Configure_failure (_entity : Entity) (_sdf : Element)
    (_ecm : EntityComponentManager) (s : ThrusterPrivateData) :
  HasElement _sdf "joint_name" = false
  \/ JointByName _ecm _entity (GetString _sdf "joint_name") = kNullEntity ->
  snd (Configure _entity _sdf _ecm s) = s <| modelEntity := _entity |>
  \/ snd (Configure _entity _sdf _ecm s) = readParameters _entity _sdf _ecm s.
Proof.
  intros H. rewrite Configure_stages.
  destruct (HasElement _sdf "joint_name"); cbn [negb]; [| left; reflexivity].
  destruct H as [H | H]; [discriminate |]. right. cbv zeta.
  replace (jointEntity (readParameters _entity _sdf _ecm s)) with kNullEntity
    by (symmetry; exact H).
  reflexivity.
Qed.

(** X1: when [Configure] gives up, because the SDF names no joint or the
    model has no joint of that name, it sets up no subscription and no
    publisher and leaves the bounds, the velocity-control flag, the
    controller, the link and the stored command alone; and it does not
    change the [enabled] flag. *)
Theorem failed_Configure_outcome
    (_entity : Entity) (_sdf : Element) (_ecm : EntityComponentManager)
    (s : ThrusterPrivateData) :
  HasElement _sdf "joint_name" = false
  \/ JointByName _ecm _entity (GetString _sdf "joint_name") = kNullEntity ->
  let s' := snd (Configure _entity _sdf _ecm s) in
  node s' = node s /\ pub s' = pub s
  /\ cmdMax s' = cmdMax s /\ cmdMin s' = cmdMin s
  /\ velocityControl s' = velocityControl s
  /\ propellerController s' = propellerController s
  /\ linkEntity s' = linkEntity s
  /\ thrust s' = thrust s
  /\ enabled s' = enabled s.
Proof.
  intros H. cbv zeta.
  assert (F : forall {X} (g : ThrusterPrivateData -> X),
            (forall x v, g (x <| modelEntity := v |>) = g x) ->
            g (readParameters _entity _sdf _ecm s) = g s ->
            g (snd (Configure _entity _sdf _ecm s)) = g s).
  { intros X g Hm Hr. destruct (Configure_failure _ _ _ s H) as [-> | ->];
      [apply Hm | exact Hr]. }
  repeat (split; [apply F; [reflexivity | keeps_params] |]).
  apply F; [reflexivity | keeps_params].
Qed.

(** X2: when [Configure] finds the joint, the bounds it leaves are the ones
    the SDF asks for ([max_thrust_cmd] and [min_thrust_cmd], each defaulting
    to the bound in force) if that maximum is not below that minimum;
    otherwise both bounds in force are kept, a supplied valid half
    included. *)
Theorem Configure_bounds_fallback
    (_entity : Entity) (_sdf : Element) (_ecm : EntityComponentManager)
    (s : ThrusterPrivateData) :
  HasElement _sdf "joint_name" = true ->
  JointByName _ecm _entity (GetString _sdf "joint_name") <> kNullEntity ->
  let s' := snd (Configure _entity _sdf _ecm s) in
  let hi := if HasElement _sdf "max_thrust_cmd"
            then GetDouble _sdf "max_thrust_cmd" else cmdMax s in
  let lo := if HasElement _sdf "min_thrust_cmd"
            then GetDouble _sdf "min_thrust_cmd" else cmdMin s in
  cmdMax s' = (if hi <? lo then cmdMax s else hi)
  /\ cmdMin s' = (if hi <? lo then cmdMin s else lo).
Proof.
  intros Hj Hn. cbv zeta. rewrite (Configure_success _ _ _ s Hj Hn).
  set (s1 := readParameters _entity _sdf _ecm s).
  set (s2 := attachJoint _entity _sdf _ecm s1).
  assert (Hhi : cmdMax s2 = cmdMax s)
    by (transitivity (cmdMax s1); [reflexivity | subst s1; keeps_params]).
  assert (Hlo : cmdMin s2 = cmdMin s)
    by (transitivity (cmdMin s1); [reflexivity | subst s1; keeps_params]).
  rewrite (ConfigurePID_keeps cmdMax), (ConfigurePID_keeps cmdMin)
    by reflexivity.
  destruct (readLimits_bounds _sdf s2) as [-> ->].
  unfold requestedMax, requestedMin. rewrite Hhi, Hlo. split; reflexivity.
Qed.

(** The operating mode and the topic after the first stage. *)
Definition requestedMode (_sdf : Element) (s : ThrusterPrivateData)
    : OperationMode :=
  if HasElement _sdf "use_angvel_cmd"
  then (if GetBool _sdf "use_angvel_cmd" then AngVelCmd else ForceCmd)
  else opmode s.

Definition requestedTopic (_sdf : Element) (s : ThrusterPrivateData)
    : string :=
  if HasElement _sdf "topic" then AsValidTopic (GetString _sdf "topic")
  else topic s.

Lemma readParameters_opmode (_entity : Entity) (_sdf : Element)
    (_ecm : EntityComponentManager) (s : ThrusterPrivateData) :
  opmode (readParameters _entity _sdf _ecm s) = requestedMode _sdf s.
Proof.
  unfold readParameters, requestedMode. cbv zeta.
  change (opmode (?x <| jointEntity := _ |>)) with (opmode x).
  do 4 (rewrite (applyIf_frame opmode) by reflexivity).
  unfold applyIf at 1.
  destruct (HasElement _sdf "use_angvel_cmd"); [reflexivity |].
  do 3 (rewrite (applyIf_frame opmode) by reflexivity).
  reflexivity.
Qed.

Lemma readParameters_topic (_entity : Entity) (_sdf : Element)
    (_ecm : EntityComponentManager) (s : ThrusterPrivateData) :
  topic (readParameters _entity _sdf _ecm s) = requestedTopic _sdf s.
Proof.
  unfold readParameters, requestedTopic. cbv zeta.
  change (topic (?x <| jointEntity := _ |>)) with (topic x).
  unfold applyIf at 1.
  destruct (HasElement _sdf "topic"); [reflexivity |].
  do 7 (rewrite (applyIf_frame topic) by reflexivity).
  reflexivity.
Qed.

(** The subscription and the publisher after a successful [Configure] are
    the ones of the second stage. *)
Lemma Configure_node (_entity : Entity) (_sdf : Element)
    (_ecm : EntityComponentManager) (s : ThrusterPrivateData) :
  HasElement _sdf "joint_name" = true ->
  JointByName _ecm _entity (GetString _sdf "joint_name") <> kNullEntity ->
  let s' := snd (Configure _entity _sdf _ecm s) in
  let topics := chooseTopics (namespaceOf _entity _sdf _ecm)
                  (GetString _sdf "joint_name")
                  ((readParameters _entity _sdf _ecm s)
                     <| opmode := requestedMode _sdf s |>
                     <| topic := requestedTopic _sdf s |>) in
  opmode s' = requestedMode _sdf s
  /\ node s' = Some (fst topics)
  /\ pub s' = {| pubTopic := snd topics; published := [] |}.
Proof.
  intros Hj Hn. cbv zeta. rewrite (Configure_success _ _ _ s Hj Hn).
  rewrite (ConfigurePID_keeps opmode), (ConfigurePID_keeps node),
    (ConfigurePID_keeps pub) by reflexivity.
  rewrite (readLimits_keeps opmode), (readLimits_keeps node),
    (readLimits_keeps pub) by reflexivity.
  pose proof (readParameters_opmode _entity _sdf _ecm s) as Ho.
  pose proof (readParameters_topic _entity _sdf _ecm s) as Ht.
  unfold attachJoint. cbv zeta.
  set (s1 := readParameters _entity _sdf _ecm s) in *.
  assert (E : forall x, chooseTopics (namespaceOf _entity _sdf _ecm)
                (GetString _sdf "joint_name") x
              = chooseTopics (namespaceOf _entity _sdf _ecm)
                  (GetString _sdf "joint_name")
                  (s1 <| opmode := opmode x |> <| topic := topic x |>))
    by reflexivity.
  rewrite E. cbn [opmode topic].
  change (opmode (s1 <| jointAxis := _ |> <| jointPose := _ |>
                     <| linkEntity := _ |>)) with (opmode s1).
  change (topic (s1 <| jointAxis := _ |> <| jointPose := _ |>
                    <| linkEntity := _ |>)) with (topic s1).
  rewrite Ho, Ht. split; [exact Ho | split; reflexivity].
Qed.

(** X3: a successful [Configure] subscribes the callback of the operating
    mode that the SDF asks for ([use_angvel_cmd], defaulting to the mode in
    force): a message delivered afterwards is handled by [OnCmdThrust] in
    force mode and by [OnCmdAngVel] in angular-velocity mode.  The publisher
    starts without messages, on a feedback topic that ends in [/ang_vel] in
    force mode and in [/force] in angular-velocity mode, below the
    configured topic when there is one and below the joint otherwise. *)
Theorem Configure_subscribes_by_mode
    (_entity : Entity) (_sdf : Element) (_ecm : EntityComponentManager)
    (s : ThrusterPrivateData) :
  HasElement _sdf "joint_name" = true ->
  JointByName _ecm _entity (GetString _sdf "joint_name") <> kNullEntity ->
  let s' := snd (Configure _entity _sdf _ecm s) in
  let mode := requestedMode _sdf s in
  let ns := namespaceOf _entity _sdf _ecm in
  let suffix := match mode with
                | ForceCmd => "/ang_vel"
                | AngVelCmd => "/force"
                end in
  opmode s' = mode
  /\ (exists t,
        node s' = Some (t, match mode with
                           | ForceCmd => CbOnCmdThrust
                           | AngVelCmd => CbOnCmdAngVel
                           end))
  /\ (forall _msg,
        deliver _msg s' = match mode with
                          | ForceCmd => OnCmdThrust _msg s'
                          | AngVelCmd => OnCmdAngVel _msg s'
                          end)
  /\ published (pub s') = []
  /\ pubTopic (pub s') =
       AsValidTopic
         (if String.eqb (requestedTopic _sdf s) ""
          then "/model/" ++ ns ++ "/joint/" ++ GetString _sdf "joint_name"
               ++ suffix
          else ns ++ "/" ++ requestedTopic _sdf s ++ suffix).
Proof.
  intros Hj Hn. cbv zeta.
  destruct (Configure_node _ _ _ s Hj Hn) as (Ho & Hnode & Hpub).
  split; [exact Ho |].
  assert (Hcb : exists t,
            node (snd (Configure _entity _sdf _ecm s)) =
            Some (t, match requestedMode _sdf s with
                     | ForceCmd => CbOnCmdThrust
                     | AngVelCmd => CbOnCmdAngVel
                     end)).
  { rewrite Hnode. unfold chooseTopics.
    change (topic (_ <| topic := ?v |>)) with v.
    change (opmode (_ <| opmode := ?m |> <| topic := _ |>)) with m.
    destruct (String.eqb (requestedTopic _sdf s) ""),
             (requestedMode _sdf s); cbn [negb fst]; eexists; reflexivity. }
  split; [exact Hcb |]. split; [| split].
  - intros _msg. rewrite deliver_unfold. destruct Hcb as [t ->].
    destruct (requestedMode _sdf s); reflexivity.
  - rewrite Hpub. reflexivity.
  - rewrite Hpub. unfold chooseTopics. cbn [pubTopic].
    change (topic (_ <| topic := ?v |>)) with v.
    change (opmode (_ <| opmode := ?m |> <| topic := _ |>)) with m.
    destruct (String.eqb (requestedTopic _sdf s) ""),
             (requestedMode _sdf s); reflexivity.
Qed.

(** [ThrustToAngularVec] does not look at the controller. *)
Lemma ThrustToAngularVec_controller (x : double) (s : ThrusterPrivateData)
    (c : PID.t) :
  ThrustToAngularVec x (s <| propellerController := c |>) =
  (fst (ThrustToAngularVec x s),
   (snd (ThrustToAngularVec x s)) <| propellerController := c |>).
Proof.
  assert (Hs : snd (ThrustToAngularVec x (s <| propellerController := c |>))
               = (snd (ThrustToAngularVec x s)) <| propellerController := c |>).
  { rewrite !ThrustToAngularVec_state.
    change (thrustCoefficientSet (s <| propellerController := c |>))
      with (thrustCoefficientSet s).
    change (propellerAngVel (s <| propellerController := c |>))
      with (propellerAngVel s).
    destruct (negb (thrustCoefficientSet s) && (dabs (propellerAngVel s) >? epsilon));
      [| reflexivity].
    rewrite !UpdateThrustCoefficient_frame. destruct s; reflexivity. }
  rewrite (surjective_pairing
             (ThrustToAngularVec x (s <| propellerController := c |>))).
  rewrite Hs. f_equal.
  rewrite (ThrustToAngularVec_value x (s <| propellerController := c |>)).
  cbv zeta. rewrite Hs.
  rewrite (ThrustToAngularVec_value x s). reflexivity.
Qed.

(** X4: the control state after a successful [Configure].  The
    velocity-control flag is the one the SDF asks for, defaulting to the
    flag in force.  Under velocity control the controller is not touched.
    Otherwise the controller is initialised with the proportional gain of
    the SDF ([p_gain], 0.1 when absent), integral limits 1 and -1, no
    offset, and as command limits the angular velocities that
    [ThrustToAngularVec] gives, in the configured data, for the final upper
    and lower command bounds. *)
Theorem Configure_controller_limits
    (_entity : Entity) (_sdf : Element) (_ecm : EntityComponentManager)
    (s : ThrusterPrivateData) :
  HasElement _sdf "joint_name" = true ->
  JointByName _ecm _entity (GetString _sdf "joint_name") <> kNullEntity ->
  let s' := snd (Configure _entity _sdf _ecm s) in
  let pid := propellerController s' in
  velocityControl s' =
    (if HasElement _sdf "velocity_control"
     then GetBool _sdf "velocity_control" else velocityControl s)
  /\ (velocityControl s' = true -> pid = propellerController s)
  /\ (velocityControl s' = false ->
      PID.pGain pid = (if HasElement _sdf "p_gain"
                       then GetDouble _sdf "p_gain" else of_Z 1 / of_Z 10)
      /\ PID.iMax pid = of_Z 1 /\ PID.iMin pid = of_Z (-1)
      /\ PID.cmdOffset pid = of_Z 0
      /\ PID.cmdMax pid = fst (ThrustToAngularVec (cmdMax s') s')
      /\ PID.cmdMin pid = fst (ThrustToAngularVec (cmdMin s') s')).
Proof.
  intros Hj Hn. cbv zeta. rewrite (Configure_success _ _ _ s Hj Hn).
  set (s1 := readParameters _entity _sdf _ecm s).
  set (s2 := attachJoint _entity _sdf _ecm s1).
  set (s3 := readLimits _sdf s2).
  assert (Hv : velocityControl s3 =
               (if HasElement _sdf "velocity_control"
                then GetBool _sdf "velocity_control" else velocityControl s)).
  { subst s3. rewrite readLimits_velocityControl.
    replace (velocityControl s2) with (velocityControl s); [reflexivity |].
    symmetry. transitivity (velocityControl s1);
      [reflexivity | subst s1; keeps_params]. }
  assert (Hc : propellerController s3 = propellerController s).
  { subst s3. rewrite (readLimits_keeps propellerController) by reflexivity.
    transitivity (propellerController s1);
      [reflexivity | subst s1; keeps_params]. }
  rewrite (ConfigurePID_keeps velocityControl) by reflexivity.
  split; [exact Hv |].
  rewrite ConfigurePID_outcome. clear Hv.
  destruct (velocityControl s3); split; try discriminate.
  - intros _. exact Hc.
  - intros _.
    set (hi := fst (ThrustToAngularVec (cmdMax s3) s3)).
    set (lo := fst (ThrustToAngularVec (cmdMin s3) s3)).
    set (c := PID.Init _ _ _ _ _ hi lo _ _).
    change (propellerController (_ <| propellerController := c |>)) with c.
    change (cmdMax (?x <| propellerController := c |>)) with (cmdMax x).
    change (cmdMin (?x <| propellerController := c |>)) with (cmdMin x).
    rewrite !ThrustToAngularVec_controller. cbn [fst].
    assert (Hhi : cmdMax (snd (ThrustToAngularVec (cmdMax s3) s3)) = cmdMax s3)
      by (rewrite ThrustToAngularVec_frame; reflexivity).
    assert (Hlo : cmdMin (snd (ThrustToAngularVec (cmdMax s3) s3)) = cmdMin s3)
      by (rewrite ThrustToAngularVec_frame; reflexivity).
    rewrite Hhi, Hlo.
    destruct (ThrustToAngularVec_again (cmdMax s3) (cmdMax s3) s3) as [_ ->].
    destruct (ThrustToAngularVec_again (cmdMin s3) (cmdMax s3) s3) as [_ ->].
    subst c hi lo. repeat split; reflexivity.
Qed.

End ConfigureOutcome.

(** ** The stored command *)

(** No value is below itself. *)
Class ArithIrrefl (D : Arith) : Prop := {
  dltb_irrefl : forall a : double, (a <? a)%D = false
}.

Lemma ideal_irrefl : ArithIrrefl ideal.
Proof. split. intros a. apply Rltb_false. apply Rle_refl. Qed.

Lemma SFltb_irrefl (x : spec_float) : SFltb x x = false.
Proof.
  unfold SFltb. destruct x as [s|s| |s m e]; simpl; try reflexivity.
  - destruct s; reflexivity.
  - rewrite Z.compare_refl.
    change (PosDef.Pos.compare_cont Eq m m) with (Pos.compare m m).
    rewrite Pos.compare_refl. destruct s; reflexivity.
Qed.

Lemma binary64_irrefl : ArithIrrefl binary64.
Proof. split. intros a. simpl. rewrite ltb_spec. apply SFltb_irrefl. Qed.

Section CommandStorage.
Context {D : Arith} {L : GzLibs D}.
Local Open Scope double_scope.

(** The clamp lands between the bounds when they are in order, and leaves
    a value between the bounds alone. *)
Lemma clamp_within {irr : ArithIrrefl D} (v lo hi : double) :
  (hi <? lo) = false ->
  (clamp v lo hi <? lo) = false /\ (hi <? clamp v lo hi) = false.
Proof.
  intros Hb. unfold clamp, std_max, std_min.
  destruct (hi <? v) eqn:Hv.
  - rewrite Hb. split; [exact Hb | apply dltb_irrefl].
  - destruct (v <? lo) eqn:Hl.
    + split; [apply dltb_irrefl | exact Hb].
    + split; [exact Hl | exact Hv].
Qed.

Lemma clamp_inside (v lo hi : double) :
  (v <? lo) = false -> (hi <? v) = false -> clamp v lo hi = v.
Proof.
  intros Hl Hh. unfold clamp, std_max, std_min. rewrite Hh, Hl. reflexivity.
Qed.

(** What a thrust command stores, and that it keeps the bounds. *)
Lemma OnCmdThrust_stored (v : double) (s : ThrusterPrivateData) :
  thrust (snd (OnCmdThrust v s)) = clamp (fixnan v) (cmdMin s) (cmdMax s)
  /\ cmdMin (snd (OnCmdThrust v s)) = cmdMin s
  /\ cmdMax (snd (OnCmdThrust v s)) = cmdMax s.
Proof.
  rewrite OnCmdThrust_unfold. cbv zeta.
  set (c := clamp (fixnan v) (cmdMin s) (cmdMax s)).
  change (thrust (?x <| propellerAngVel := _ |>)) with (thrust x).
  change (cmdMin (?x <| propellerAngVel := _ |>)) with (cmdMin x).
  change (cmdMax (?x <| propellerAngVel := _ |>)) with (cmdMax x).
  rewrite ThrustToAngularVec_thrust.
  rewrite (ThrustToAngularVec_frame c (s <| thrust := c |>)).
  repeat split; reflexivity.
Qed.

(** X5: with the bounds in order, whatever value arrives (a NaN or an
    infinite value included), the thrust that [OnCmdThrust] stores and the
    angular velocity that [OnCmdAngVel] stores are neither below the lower
    bound nor above the upper bound; and a value that is not a NaN and lies
    between the bounds is stored as it is. *)
Theorem stored_command_within_bounds {irr : ArithIrrefl D}
    (s : ThrusterPrivateData) (v : double) :
  (cmdMax s <? cmdMin s) = false ->
  let st := snd (OnCmdThrust v s) in
  let sa := snd (OnCmdAngVel v s) in
  (thrust st <? cmdMin st) = false
  /\ (cmdMax st <? thrust st) = false
  /\ (propellerAngVel sa <? cmdMin sa) = false
  /\ (cmdMax sa <? propellerAngVel sa) = false
  /\ (disnan v = false -> (v <? cmdMin s) = false ->
      (cmdMax s <? v) = false ->
      thrust st = v /\ propellerAngVel sa = v).
Proof.
  intros Hb. cbv zeta.
  destruct (OnCmdThrust_stored v s) as (-> & -> & ->).
  rewrite OnCmdAngVel_unfold. cbv zeta.
  change (propellerAngVel (?x <| propellerAngVel := ?c |> <| thrust := _ |>))
    with c.
  change (cmdMin (?x <| propellerAngVel := _ |> <| thrust := _ |>))
    with (cmdMin x).
  change (cmdMax (?x <| propellerAngVel := _ |> <| thrust := _ |>))
    with (cmdMax x).
  destruct (clamp_within (fixnan v) (cmdMin s) (cmdMax s) Hb) as [Hlo Hhi].
  repeat (split; [assumption |]).
  intros Hn Hl Hh. rewrite (fixnan_not_nan v Hn).
  rewrite (clamp_inside v _ _ Hl Hh). split; reflexivity.
Qed.

(** With a configured coefficient [ThrustToAngularVec] leaves the data
    alone. *)
Lemma ThrustToAngularVec_set (x : double) (s : ThrusterPrivateData) :
  thrustCoefficientSet s = true -> snd (ThrustToAngularVec x s) = s.
Proof. intros H. rewrite ThrustToAngularVec_state, H. reflexivity. Qed.

(** The angular velocity for a thrust, from the three parameters the
    conversion reads. *)
Definition angularVelFor (x rho c d : double) : double :=
  dsqrt (dabs (x / (rho * c * pow d 4)))
  * (if x * c >? of_Z 0 then of_Z 1 else of_Z (-1)).

Lemma OnCmdThrust_set (v : double) (s : ThrusterPrivateData) :
  thrustCoefficientSet s = true ->
  snd (OnCmdThrust v s) =
  let c := clamp (fixnan v) (cmdMin s) (cmdMax s) in
  s <| thrust := c |>
    <| propellerAngVel :=
         angularVelFor c (fluidDensity s) (thrustCoefficient s)
                       (propellerDiameter s) |>.
Proof.
  intros H. rewrite OnCmdThrust_unfold. cbv zeta.
  set (c := clamp (fixnan v) (cmdMin s) (cmdMax s)).
  rewrite (ThrustToAngularVec_value c (s <| thrust := c |>)). cbv zeta.
  assert (H' : thrustCoefficientSet (s <| thrust := c |>) = true) by exact H.
  rewrite (ThrustToAngularVec_set c _ H').
  reflexivity.
Qed.

(** X6: with a coefficient set by configuration, the data after a command
    do not depend on the commands before it: a second command, handled by
    either callback, leaves what it would have left without the first.
    Two angular velocity commands in a row need no such condition. *)
Theorem last_command_wins (s : ThrusterPrivateData) (v1 v2 : double) :
  snd (OnCmdAngVel v2 (snd (OnCmdAngVel v1 s))) = snd (OnCmdAngVel v2 s)
  /\ (thrustCoefficientSet s = true ->
      snd (OnCmdThrust v2 (snd (OnCmdThrust v1 s))) = snd (OnCmdThrust v2 s)
      /\ snd (OnCmdThrust v2 (snd (OnCmdAngVel v1 s))) = snd (OnCmdThrust v2 s)
      /\ snd (OnCmdAngVel v2 (snd (OnCmdThrust v1 s))) = snd (OnCmdAngVel v2 s)).
Proof.
  split.
  - rewrite !OnCmdAngVel_unfold. destruct s; reflexivity.
  - intros H.
    pose proof (OnCmdThrust_set v1 s H) as E1.
    split; [| split].
    + rewrite (OnCmdThrust_set v2 (snd (OnCmdThrust v1 s)))
        by (rewrite E1; exact H).
      rewrite E1, (OnCmdThrust_set v2 s H). destruct s; reflexivity.
    + rewrite (OnCmdThrust_set v2 (snd (OnCmdAngVel v1 s)))
        by (rewrite OnCmdAngVel_unfold; exact H).
      rewrite (OnCmdThrust_set v2 s H), OnCmdAngVel_unfold.
      destruct s; reflexivity.
    + rewrite E1, !OnCmdAngVel_unfold. destruct s; reflexivity.
Qed.

(** X7: the recomputation inside [ThrustToAngularVec] does not depend on
    the thrust that is converted, and it settles at once: whatever thrusts
    are converted, the data after a second call are the data after the
    first, and the second call gives the value it would have given on the
    original data. *)
Theorem recomputation_settles (x y : double) (s : ThrusterPrivateData) :
  snd (ThrustToAngularVec x s) = snd (ThrustToAngularVec y s)
  /\ snd (ThrustToAngularVec x (snd (ThrustToAngularVec y s)))
     = snd (ThrustToAngularVec y s)
  /\ fst (ThrustToAngularVec x (snd (ThrustToAngularVec y s)))
     = fst (ThrustToAngularVec x s).
Proof.
  split.
  - rewrite !ThrustToAngularVec_state. reflexivity.
  - apply ThrustToAngularVec_again.
Qed.

End CommandStorage.

(** ** Steps and events *)

Section Steps.
Context {D : Arith} {L : GzLibs D}.
Local Open Scope double_scope.

(** The feedback message of a step. *)
Definition feedbackOf (_ecm : EntityComponentManager)
    (s : ThrusterPrivateData) : double :=
  match opmode s with
  | AngVelCmd => thrust s
  | ForceCmd =>
      if velocityControl s then fst (ThrustToAngularVec (thrust s) s)
      else currentAngularOf _ecm s
  end.

(** The data after an enabled, unpaused step, in either control state. *)
Lemma PreUpdate_data (_info : UpdateInfo) (_ecm : EntityComponentManager)
    (s : ThrusterPrivateData) :
  paused _info = false -> enabled s = true ->
  exists pid,
    snd (PreUpdate _info _ecm s) =
    s <| thrustCoefficient :=
           thrustCoefficient (snd (ThrustToAngularVec (thrust s) s)) |>
      <| propellerAngVel := fst (ThrustToAngularVec (thrust s) s) |>
      <| propellerController := pid |>
      <| pub := {| pubTopic := pubTopic (pub s);
                   published := feedbackOf _ecm s :: published (pub s) |} |>
      <| linearVelocity := Length (worldLinearVelocity _ecm (linkEntity s)) |>
    /\ (velocityControl s = true -> pid = propellerController s).
Proof.
  intros Hp He. unfold feedbackOf. destruct (velocityControl s) eqn:Hv.
  - exists (propellerController s).
    rewrite (PreUpdate_velocity _ _ _ Hp He Hv). cbn [snd].
    split; [| reflexivity].
    generalize (fst (ThrustToAngularVec (thrust s) s)).
    generalize (thrustCoefficient (snd (ThrustToAngularVec (thrust s) s))).
    intros c w. destruct s; reflexivity.
  - rewrite (PreUpdate_pid _ _ _ Hp He Hv). cbn [snd].
    eexists. split; [reflexivity | discriminate].
Qed.

(** The part of the data that [Configure] sets up and the callbacks and
    steps read. *)
Definition configuration (s : ThrusterPrivateData) :=
  (opmode s, velocityControl s, node s, pubTopic (pub s), topic s,
   (cmdMin s, cmdMax s),
   (modelEntity s, jointEntity s, linkEntity s, jointAxis s, jointPose s),
   (thrustCoefficientSet s, fluidDensity s, propellerDiameter s,
    wakeFraction s, alpha1 s, alpha2 s)).

Lemma handle_configuration (ev : Event) (s : ThrusterPrivateData) :
  configuration (handle ev s) = configuration s.
Proof.
  destruct ev as [m | i e | i e]; cbn [handle].
  - rewrite deliver_unfold.
    destruct (node s) as [[tp [|]] |].
    + rewrite OnCmdThrust_unfold. cbv zeta.
      rewrite ThrustToAngularVec_frame. reflexivity.
    + rewrite OnCmdAngVel_unfold. reflexivity.
    + reflexivity.
  - destruct (paused i) eqn:Hp;
      [rewrite PreUpdate_idle by (left; exact Hp); reflexivity |].
    destruct (enabled s) eqn:He;
      [| rewrite PreUpdate_idle by (right; exact He); reflexivity].
    destruct (PreUpdate_data i e s Hp He) as (pid & -> & _). reflexivity.
  - reflexivity.
Qed.

(** X8: what [Configure] sets up stays as it is for the rest of the life
    of the system: no command, [PreUpdate] or [PostUpdate], in any number
    and order, changes the operating mode, the control state, the
    subscription, the feedback topic, the command bounds, the entities, the
    joint axis and pose, or any parameter of the conversions other than
    the coefficient itself. *)
Theorem configuration_is_immutable (evs : list Event)
    (s : ThrusterPrivateData) :
  configuration (run evs s) = configuration s.
Proof.
  revert s. induction evs as [| ev evs IH]; intros s; [reflexivity |].
  change (run (ev :: evs) s) with (run evs (handle ev s)).
  rewrite IH. apply handle_configuration.
Qed.

(** Whether an event is a step of the host, not a command. *)
Definition isStep (ev : Event) : bool :=
  match ev with Command _ => false | _ => true end.

Definition isPreUpdate (ev : Event) : bool :=
  match ev with Pre _ _ => true | _ => false end.

Lemma handle_step_thrust (ev : Event) (s : ThrusterPrivateData) :
  isStep ev = true -> thrust (handle ev s) = thrust s.
Proof.
  destruct ev as [m | i e | i e]; cbn [handle isStep];
    [discriminate | | reflexivity].
  intros _.
  destruct (paused i) eqn:Hp;
    [rewrite PreUpdate_idle by (left; exact Hp); reflexivity |].
  destruct (enabled s) eqn:He;
    [| rewrite PreUpdate_idle by (right; exact He); reflexivity].
  destruct (PreUpdate_data i e s Hp He) as (pid & -> & _). reflexivity.
Qed.

(** X9: the commanded thrust is held until the next command: any number
    of [PreUpdate] and [PostUpdate] calls, paused or not and whatever the
    battery does, leave the stored thrust as it is. *)
Theorem thrust_held_between_commands (evs : list Event)
    (s : ThrusterPrivateData) :
  forallb isStep evs = true -> thrust (run evs s) = thrust s.
Proof.
  revert s. induction evs as [| ev evs IH]; intros s H; [reflexivity |].
  cbn [forallb] in H. apply andb_prop in H. destruct H as [Hev Hevs].
  change (run (ev :: evs) s) with (run evs (handle ev s)).
  rewrite (IH _ Hevs). apply handle_step_thrust. exact Hev.
Qed.

Lemma handle_published (ev : Event) (s : ThrusterPrivateData) :
  exists msgs,
    published (pub (handle ev s)) = (msgs ++ published (pub s))%list
    /\ (List.length msgs <= if isPreUpdate ev then 1 else 0)%nat.
Proof.
  destruct ev as [m | i e | i e]; cbn [handle isPreUpdate].
  - exists []. split; [| apply le_n]. rewrite deliver_unfold.
    destruct (node s) as [[tp [|]] |].
    + rewrite OnCmdThrust_unfold. cbv zeta.
      rewrite ThrustToAngularVec_frame. reflexivity.
    + rewrite OnCmdAngVel_unfold. reflexivity.
    + reflexivity.
  - destruct (paused i) eqn:Hp;
      [rewrite PreUpdate_idle by (left; exact Hp); exists [];
       split; [reflexivity | apply le_S, le_n] |].
    destruct (enabled s) eqn:He;
      [| rewrite PreUpdate_idle by (right; exact He); exists [];
         split; [reflexivity | apply le_S, le_n]].
    destruct (PreUpdate_data i e s Hp He) as (pid & -> & _).
    exists [feedbackOf e s]. split; [reflexivity | apply le_n].
  - exists []. split; [reflexivity | apply le_n].
Qed.

(** X10: the feedback log only grows, and by at most one message for
    each [PreUpdate]: after any events the messages published before are
    still there, in their order, below the new ones, and there are no more
    new ones than there were [PreUpdate] calls. *)
Theorem feedback_log_only_grows (evs : list Event)
    (s : ThrusterPrivateData) :
  exists msgs,
    published (pub (run evs s)) = (msgs ++ published (pub s))%list
    /\ (List.length msgs <= List.length (filter isPreUpdate evs))%nat.
Proof.
  revert s. induction evs as [| ev evs IH]; intros s.
  - exists []. split; [reflexivity | apply le_n].
  - change (run (ev :: evs) s) with (run evs (handle ev s)).
    destruct (IH (handle ev s)) as (later & -> & Hl).
    destruct (handle_published ev s) as (now & -> & Hn).
    exists (later ++ now). split; [apply app_assoc |].
    rewrite length_app. cbn [filter].
    destruct (isPreUpdate ev); cbn [List.length]; lia.
Qed.

(** X11: the coefficient lags one step behind the motion.  When the
    coefficient is not configured, two enabled, unpaused steps in a row
    leave the coefficient computed from the speed of the link that the
    first step observed, not the second, and from the angular velocity the
    first step stored, provided that velocity exceeds epsilon in
    magnitude. *)
Theorem coefficient_lags_one_step
    (_info1 _info2 : UpdateInfo) (_ecm1 _ecm2 : EntityComponentManager)
    (s : ThrusterPrivateData) :
  paused _info1 = false -> paused _info2 = false ->
  enabled s = true -> thrustCoefficientSet s = false ->
  let s1 := snd (PreUpdate _info1 _ecm1 s) in
  let s2 := snd (PreUpdate _info2 _ecm2 s1) in
  (dabs (propellerAngVel s1) >? epsilon) = true ->
  thrustCoefficient s2 =
    alpha1 s + alpha2 s *
      (((of_Z 1 - wakeFraction s)
        * Length (worldLinearVelocity _ecm1 (linkEntity s)))
       / (propellerAngVel s1 * propellerDiameter s)).
Proof.
  intros Hp1 Hp2 He Hset. cbv zeta.
  destruct (PreUpdate_data _info1 _ecm1 s Hp1 He) as (pid1 & E1 & _).
  set (s1 := snd (PreUpdate _info1 _ecm1 s)) in *.
  assert (He1 : enabled s1 = true) by (rewrite E1; exact He).
  assert (Hset1 : thrustCoefficientSet s1 = false) by (rewrite E1; exact Hset).
  intros Hw.
  destruct (PreUpdate_data _info2 _ecm2 s1 Hp2 He1) as (pid2 & -> & _).
  change (thrustCoefficient (?x <| thrustCoefficient := ?c |>
                               <| propellerAngVel := _ |>
                               <| propellerController := _ |>
                               <| pub := _ |> <| linearVelocity := _ |>))
    with c.
  rewrite ThrustToAngularVec_state, Hset1, Hw. cbn [negb andb].
  rewrite UpdateThrustCoefficient_frame.
  change (thrustCoefficient (_ <| thrustCoefficient := ?c |>)) with c.
  assert (Ha1 : alpha1 s1 = alpha1 s) by (rewrite E1; reflexivity).
  assert (Ha2 : alpha2 s1 = alpha2 s) by (rewrite E1; reflexivity).
  assert (Hwk : wakeFraction s1 = wakeFraction s) by (rewrite E1; reflexivity).
  assert (Hd : propellerDiameter s1 = propellerDiameter s)
    by (rewrite E1; reflexivity).
  assert (Hl : linearVelocity s1
               = Length (worldLinearVelocity _ecm1 (linkEntity s)))
    by (rewrite E1; reflexivity).
  rewrite Ha1, Ha2, Hwk, Hd, Hl. reflexivity.
Qed.

(** X12: what an enabled, unpaused step does to the world.  It reads
    poses, velocities, charges and parents and writes none of them.  In the
    PID state it leaves every joint velocity command alone.  In the
    velocity-control state it requests a zero torque, leaves the controller
    alone, and leaves the velocity command of every joint other than its
    own alone. *)
Theorem PreUpdate_world_frame
    (_info : UpdateInfo) (_ecm : EntityComponentManager)
    (s : ThrusterPrivateData) :
  paused _info = false -> enabled s = true ->
  let ecm' := fst (PreUpdate _info _ecm s) in
  let s' := snd (PreUpdate _info _ecm s) in
  (forall e, worldPose ecm' e = worldPose _ecm e
             /\ worldAngularVelocity ecm' e = worldAngularVelocity _ecm e
             /\ worldLinearVelocity ecm' e = worldLinearVelocity _ecm e
             /\ ParentEntity ecm' e = ParentEntity _ecm e)
  /\ batterySoC ecm' = batterySoC _ecm
  /\ (velocityControl s = false ->
      forall j, jointVelocityCmd ecm' j = jointVelocityCmd _ecm j)
  /\ (velocityControl s = true ->
      propellerController s' = propellerController s
      /\ (exists force,
            worldWrench ecm'
            = (linkEntity s, force, scale (unitVectorOf _ecm s) (of_Z 0))
              :: worldWrench _ecm)
      /\ forall j, j <> jointEntity s ->
                   jointVelocityCmd ecm' j = jointVelocityCmd _ecm j).
Proof.
  intros Hp He. cbv zeta. destruct (velocityControl s) eqn:Hv.
  - rewrite (PreUpdate_velocity _ _ _ Hp He Hv). cbn [fst snd].
    split; [intros e; repeat split; reflexivity |].
    split; [reflexivity |]. split; [discriminate |]. intros _.
    split; [reflexivity |]. split; [eexists; reflexivity |].
    intros j Hj. unfold AddWorldWrench, SetJointVelocityCmd. cbn.
    unfold constant.
    destruct (N.eqb_spec j (jointEntity s)) as [E | _];
      [exfalso; exact (Hj E) | reflexivity].
  - rewrite (PreUpdate_pid _ _ _ Hp He Hv). cbn [fst snd].
    split; [intros e; repeat split; reflexivity |].
    split; [reflexivity |]. split; [| discriminate].
    intros _ j. reflexivity.
Qed.

(** X13: the feedback of a step, by mode.  In angular-velocity mode the
    message is the stored thrust, so after an angular velocity command it
    is the thrust that [AngularVelToThrust] gives for the clamped command.
    In force mode it is the measured rate of the link about the spin axis
    in the PID state, and the angular velocity derived from the stored
    thrust in the velocity-control state. *)
Theorem feedback_by_mode
    (_info : UpdateInfo) (_ecm : EntityComponentManager)
    (s : ThrusterPrivateData) (v : double) :
  paused _info = false -> enabled s = true ->
  let s' := snd (PreUpdate _info _ecm s) in
  let sc := snd (OnCmdAngVel v s) in
  let c := clamp (fixnan v) (cmdMin s) (cmdMax s) in
  pubTopic (pub s') = pubTopic (pub s)
  /\ (opmode s = AngVelCmd ->
      published (pub s') = thrust s :: published (pub s)
      /\ published (pub (snd (PreUpdate _info _ecm sc)))
         = (thrustCoefficient s * pow (propellerDiameter s) 4
            * dabs c * c * fluidDensity s) :: published (pub s))
  /\ (opmode s = ForceCmd -> velocityControl s = false ->
      published (pub s') = currentAngularOf _ecm s :: published (pub s))
  /\ (opmode s = ForceCmd -> velocityControl s = true ->
      published (pub s')
      = fst (ThrustToAngularVec (thrust s) s) :: published (pub s)).
Proof.
  intros Hp He. cbv zeta.
  destruct (PreUpdate_data _info _ecm s Hp He) as (pid & -> & _).
  split; [reflexivity |]. split; [| split].
  - intros Ho. split.
    + cbn [pub published]. unfold feedbackOf. rewrite Ho. reflexivity.
    + assert (Hec : enabled (snd (OnCmdAngVel v s)) = true) by exact He.
      destruct (PreUpdate_data _info _ecm _ Hp Hec) as (pid' & -> & _).
      cbn [pub published]. unfold feedbackOf.
      replace (opmode (snd (OnCmdAngVel v s))) with AngVelCmd
        by (symmetry; exact Ho).
      reflexivity.
  - intros Ho Hv. cbn [pub published]. unfold feedbackOf.
    rewrite Ho, Hv. reflexivity.
  - intros Ho Hv. cbn [pub published]. unfold feedbackOf.
    rewrite Ho, Hv. reflexivity.
Qed.

End Steps.

(** ** Commands over the life of a configured system *)

Section ConfiguredLife.
Context {D : Arith} {L : GzLibs D}.
Local Open Scope string_scope.
Local Open Scope double_scope.

(** [Configure] neither enables nor disables the system. *)
Lemma Configure_enabled (_entity : Entity) (_sdf : Element)
    (_ecm : EntityComponentManager) (s : ThrusterPrivateData) :
  enabled (snd (Configure _entity _sdf _ecm s)) = enabled s.
Proof.
  rewrite Configure_stages.
  destruct (negb (HasElement _sdf "joint_name")); [reflexivity |].
  cbv zeta.
  assert (H1 : enabled (readParameters _entity _sdf _ecm s) = enabled s)
    by (apply readParameters_keeps; reflexivity).
  destruct (N.eqb kNullEntity (jointEntity (readParameters _entity _sdf _ecm s)));
    [exact H1 |].
  rewrite (ConfigurePID_keeps enabled), (readLimits_keeps enabled)
    by reflexivity.
  exact H1.
Qed.

Lemma run_bounds (evs : list Event) (s : ThrusterPrivateData) :
  cmdMax (run evs s) = cmdMax s /\ cmdMin (run evs s) = cmdMin s.
Proof.
  revert s. induction evs as [| ev evs IH]; intros s;
    [split; reflexivity |].
  change (run (ev :: evs) s) with (run evs (handle ev s)).
  destruct (IH (handle ev s)) as [-> ->]. apply handle_bounds.
Qed.

(** X14: from data whose bounds are in order, as the defaults are,
    whatever the SDF holds and whatever has happened since [Configure],
    a message that arrives is stored between the configured bounds: as the
    thrust when the thrust callback is subscribed, as the propeller angular
    velocity when the angular velocity callback is; without a subscription
    it changes nothing. *)
Theorem delivered_command_within_bounds {irr : ArithIrrefl D}
    (_entity : Entity) (_sdf : Element) (_ecm : EntityComponentManager)
    (evs : list Event) (s : ThrusterPrivateData) (v : double) :
  bounds_in_order s ->
  let sc := snd (Configure _entity _sdf _ecm s) in
  let s0 := run evs sc in
  let s1 := handle (Command v) s0 in
  match node s0 with
  | Some (_, CbOnCmdThrust) =>
      (thrust s1 <? cmdMin sc) = false /\ (cmdMax sc <? thrust s1) = false
  | Some (_, CbOnCmdAngVel) =>
      (propellerAngVel s1 <? cmdMin sc) = false
      /\ (cmdMax sc <? propellerAngVel s1) = false
  | None => s1 = s0
  end.
Proof.
  intros Hb. cbv zeta.
  pose proof (bounds_in_order_invariant _entity _sdf _ecm evs s Hb) as Hb0.
  destruct (run_bounds evs (snd (Configure _entity _sdf _ecm s))) as [Hhi Hlo].
  set (s0 := run evs (snd (Configure _entity _sdf _ecm s))) in *.
  rewrite <- Hhi, <- Hlo. unfold bounds_in_order in Hb0.
  cbn [handle]. rewrite deliver_unfold.
  destruct (node s0) as [[tp [|]] |].
  - destruct (OnCmdThrust_stored v s0) as (-> & _ & _).
    apply clamp_within. exact Hb0.
  - rewrite OnCmdAngVel_unfold. cbv zeta.
    change (propellerAngVel (_ <| propellerAngVel := ?c |> <| thrust := _ |>))
      with c.
    apply clamp_within. exact Hb0.
  - reflexivity.
Qed.

(** X15: the battery gate, exactly: the answer is true if and only if
    every charge reading whose parent is the model of the system is not at
    most 0; a reading that is a NaN therefore does not disable the system,
    and readings of other models do not count. *)
Theorem HasSufficientBattery_exactly
    (_ecm : EntityComponentManager) (s : ThrusterPrivateData) :
  HasSufficientBattery _ecm s = true
  <-> (forall e c, In (e, c) (batterySoC _ecm) ->
                   ParentEntity _ecm e = modelEntity s ->
                   (c <=? of_Z 0) = false).
Proof.
  unfold HasSufficientBattery. rewrite battery_scan. cbn [andb].
  rewrite forallb_forall. split.
  - intros H e c Hin Hpar. specialize (H (e, c) Hin).
    unfold depletes in H. cbn [fst snd] in H.
    rewrite Hpar, N.eqb_refl in H. cbn [andb] in H.
    destruct (c <=? of_Z 0); [discriminate | reflexivity].
  - intros H [e c] Hin. unfold depletes. cbn [fst snd].
    destruct (N.eqb_spec (ParentEntity _ecm e) (modelEntity s)) as [Hpar | _];
      [| reflexivity].
    rewrite (H e c Hin Hpar). reflexivity.
Qed.

End ConfiguredLife.

(** ** Further runs in binary64 *)

Section Binary64Runs.
Local Existing Instance plainLibs.
Local Open Scope string_scope.
Local Open Scope double_scope.

(** A configuration that names a joint the model does not have. *)
Definition missingJointSdf : @Element binary64 :=
  [ ("joint_name", SdfString "rudder_joint");
    ("max_thrust_cmd", SdfDouble (f64 50));
    ("velocity_control", SdfBool true) ].

(** A configuration whose bounds are the wrong way around. *)
Definition invertedBoundsSdf : @Element binary64 :=
  [ ("joint_name", SdfString "propeller_joint");
    ("max_thrust_cmd", SdfDouble (f64 5));
    ("min_thrust_cmd", SdfDouble (f64 10)) ].

(** The still world of [configured], and a world in which the battery of
    the model is empty. *)
Definition stillWorld : EntityComponentManager :=
  world (f64 0) (f64 0) [] (fun _ => kNullEntity).
Definition drainedWorld : EntityComponentManager :=
  world (f64 0) (f64 0) [(9%N, f64 0)] (fun _ => 1%N).

(** X1 at a concrete input: the model has no joint "rudder_joint";
    nothing is subscribed, the bound of 50 that the SDF supplies is not
    installed, and the [enabled] flag is still true. *)
Lemma failed_Configure_outcome_witness :
  let s' := snd (Configure 1%N missingJointSdf stillWorld freshData) in
  JointByName stillWorld 1%N (GetString missingJointSdf "joint_name")
    = kNullEntity
  /\ node s' = None
  /\ cmdMax s' = f64 1000
  /\ velocityControl s' = false
  /\ enabled s' = true.
Proof.
  cbv zeta.
  assert (H : JointByName stillWorld 1%N
                (GetString missingJointSdf "joint_name") = kNullEntity)
    by reflexivity.
  split; [exact H |].
  destruct (failed_Configure_outcome 1%N missingJointSdf
              stillWorld freshData (or_intror H))
    as (Hn & _ & Hhi & _ & Hv & _ & _ & _ & He).
  rewrite Hn, Hhi, Hv, He. repeat split.
Defined.

(** X2 at a concrete input: a maximum of 5 below a minimum of 10 is
    refused, and the defaults stay. *)
Lemma Configure_bounds_fallback_witness :
  let s' := snd (Configure 1%N invertedBoundsSdf stillWorld freshData) in
  HasElement invertedBoundsSdf "joint_name" = true
  /\ JointByName stillWorld 1%N (GetString invertedBoundsSdf "joint_name")
     <> kNullEntity
  /\ cmdMax s' = f64 1000
  /\ cmdMin s' = f64 (-1000).
Proof.
  cbv zeta.
  assert (H : JointByName stillWorld 1%N
                (GetString invertedBoundsSdf "joint_name") <> kNullEntity)
    by discriminate.
  split; [reflexivity |]. split; [exact H |].
  destruct (Configure_bounds_fallback 1%N invertedBoundsSdf stillWorld
              freshData eq_refl H) as [Hhi Hlo].
  rewrite Hhi, Hlo. split; reflexivity.
Defined.

(** X3 at a concrete input: with [use_angvel_cmd] the angular velocity
    callback is subscribed and the feedback goes to the force topic of the
    joint. *)
Lemma Configure_subscribes_by_mode_witness :
  let s' := snd (Configure 1%N velocitySdf stillWorld freshData) in
  HasElement velocitySdf "joint_name" = true
  /\ JointByName stillWorld 1%N (GetString velocitySdf "joint_name")
     <> kNullEntity
  /\ opmode s' = AngVelCmd
  /\ pubTopic (pub s') = "/model/vehicle/joint/propeller_joint/force"
  /\ deliver (f64 10) s' = OnCmdAngVel (f64 10) s'.
Proof.
  cbv zeta.
  assert (H : JointByName stillWorld 1%N
                (GetString velocitySdf "joint_name") <> kNullEntity)
    by discriminate.
  split; [reflexivity |]. split; [exact H |].
  destruct (Configure_subscribes_by_mode 1%N velocitySdf stillWorld
              freshData eq_refl H) as (Ho & _ & Hd & _ & Ht).
  split; [rewrite Ho; reflexivity |].
  split; [rewrite Ht; reflexivity |].
  rewrite Hd. reflexivity.
Defined.

(** X4 at a concrete input: in the scenario the controller is limited to
    the angular velocities of the bounds, 2500 and -2500 rad/s, with the
    default proportional gain. *)
Lemma Configure_controller_limits_witness :
  let s' := snd (Configure 1%N scenarioSdf stillWorld freshData) in
  HasElement scenarioSdf "joint_name" = true
  /\ JointByName stillWorld 1%N (GetString scenarioSdf "joint_name")
     <> kNullEntity
  /\ velocityControl s' = false
  /\ PID.pGain (propellerController s') = f64 0.1
  /\ PID.cmdMax (propellerController s') = f64 2500
  /\ PID.cmdMin (propellerController s') = f64 (-2500).
Proof.
  cbv zeta.
  assert (H : JointByName stillWorld 1%N
                (GetString scenarioSdf "joint_name") <> kNullEntity)
    by discriminate.
  split; [reflexivity |]. split; [exact H |].
  destruct (Configure_controller_limits 1%N scenarioSdf stillWorld
              freshData eq_refl H) as (Hv & _ & Hpid).
  split; [rewrite Hv; reflexivity |].
  destruct Hpid as (Hp & _ & _ & _ & Hhi & Hlo); [rewrite Hv; reflexivity |].
  rewrite Hp, Hhi, Hlo. repeat split.
Defined.

(** X5 at a concrete input: in the scenario an infinite thrust command is
    stored as a value not above the bound, and 250 N as 250 N. *)
Lemma stored_command_within_bounds_witness :
  let s := configured scenarioSdf in
  (cmdMax s <? cmdMin s) = false
  /\ (cmdMax s <? thrust (snd (OnCmdThrust (f64 infinity) s))) = false
  /\ thrust (snd (OnCmdThrust (f64 250) s)) = f64 250.
Proof.
  cbv zeta. split; [reflexivity |]. split.
  - destruct (stored_command_within_bounds (irr := binary64_irrefl)
                (configured scenarioSdf) (f64 infinity) eq_refl)
      as (_ & Hhi & _).
    destruct (OnCmdThrust_stored (f64 infinity) (configured scenarioSdf))
      as (_ & _ & E).
    rewrite E in Hhi. exact Hhi.
  - destruct (stored_command_within_bounds (irr := binary64_irrefl)
                (configured scenarioSdf) (f64 250) eq_refl)
      as (_ & _ & _ & _ & Hin).
    destruct (Hin eq_refl eq_refl eq_refl) as [Ht _]. exact Ht.
Defined.

(** X6 at a concrete input: with a configured coefficient, a thrust
    command of 30 N after one of 700 N leaves what it leaves alone. *)
Lemma last_command_wins_witness :
  let s := (configured scenarioSdf) <| thrustCoefficientSet := true |> in
  snd (OnCmdThrust (f64 30) (snd (OnCmdThrust (f64 700) s)))
  = snd (OnCmdThrust (f64 30) s).
Proof.
  cbv zeta.
  destruct (last_command_wins
              ((configured scenarioSdf) <| thrustCoefficientSet := true |>)
              (f64 700) (f64 30)) as [_ H].
  destruct (H eq_refl) as [Ht _]. exact Ht.
Defined.

(** X9 at a concrete input: a commanded thrust of 100 N is still stored
    after a step, a [PostUpdate] that finds the battery empty, and another
    step. *)
Lemma thrust_held_between_commands_witness :
  let s := snd (OnCmdThrust (f64 100) (configured scenarioSdf)) in
  let evs := [Pre oneMs spinningWorld; Post oneMs drainedWorld;
              Pre oneMs advancingWorld] in
  forallb isStep evs = true
  /\ enabled (run evs s) = false
  /\ thrust (run evs s) = f64 100.
Proof.
  cbv zeta. split; [reflexivity |]. split; [reflexivity |].
  rewrite (thrust_held_between_commands
             [Pre oneMs spinningWorld; Post oneMs drainedWorld;
              Pre oneMs advancingWorld]
             (snd (OnCmdThrust (f64 100) (configured scenarioSdf))) eq_refl).
  reflexivity.
Defined.

(** X11 at a concrete input: with [alpha_2 = 1] and a wake fraction of
    0.2, a step in a world advancing at 1 m/s followed by a step in a world
    that does not advance leaves the coefficient 1 + 0.8 / (790.57 * 0.02),
    the one of the first world. *)
Lemma coefficient_lags_one_step_witness :
  let s := snd (OnCmdThrust (f64 100) (configured velocitySdf)) in
  let s1 := snd (PreUpdate oneMs advancingWorld s) in
  let s2 := snd (PreUpdate oneMs spinningWorld s1) in
  enabled s = true /\ thrustCoefficientSet s = false
  /\ (dabs (propellerAngVel s1) >? epsilon) = true
  /\ thrustCoefficient s1 = f64 1
  /\ thrustCoefficient s2 = f64 1.0505964425626941.
Proof.
  cbv zeta. do 4 (split; [reflexivity |]).
  rewrite (coefficient_lags_one_step oneMs oneMs advancingWorld spinningWorld
             (snd (OnCmdThrust (f64 100) (configured velocitySdf)))
             eq_refl eq_refl eq_refl eq_refl eq_refl).
  reflexivity.
Defined.

(** X12 at a concrete input: under velocity control a step leaves the
    command of another joint (entity 7) and the charge readings alone. *)
Lemma PreUpdate_world_frame_witness :
  let s := configured velocitySdf in
  enabled s = true /\ velocityControl s = true /\ jointEntity s = 2%N
  /\ jointVelocityCmd (fst (PreUpdate oneMs drainedWorld s)) 7%N = None
  /\ batterySoC (fst (PreUpdate oneMs drainedWorld s)) = [(9%N, f64 0)].
Proof.
  cbv zeta. do 3 (split; [reflexivity |]).
  destruct (PreUpdate_world_frame oneMs drainedWorld (configured velocitySdf)
              eq_refl eq_refl) as (_ & Hb & _ & Hv).
  destruct (Hv eq_refl) as (_ & _ & Hj).
  split.
  - rewrite (Hj 7%N) by discriminate. reflexivity.
  - rewrite Hb. reflexivity.
Defined.

(** X13 at a concrete input: in angular-velocity mode, after a command
    of 10 rad/s, the step publishes the thrust 0.016 N. *)
Lemma feedback_by_mode_witness :
  let s := configured velocitySdf in
  enabled s = true /\ opmode s = AngVelCmd
  /\ published (pub (snd (PreUpdate oneMs spinningWorld
                            (snd (OnCmdAngVel (f64 10) s)))))
     = [f64 0.016].
Proof.
  cbv zeta. do 2 (split; [reflexivity |]).
  destruct (feedback_by_mode oneMs spinningWorld (configured velocitySdf)
              (f64 10) eq_refl eq_refl) as (_ & Ha & _).
  destruct (Ha eq_refl) as [_ Hm]. rewrite Hm. reflexivity.
Defined.

(** X14 at a concrete input: in the scenario, after a command and a
    step, an infinite thrust command is stored as a value not above the
    configured bound. *)
Lemma delivered_command_within_bounds_witness :
  let sc := configured scenarioSdf in
  let s0 := run [Command (f64 50); Pre oneMs spinningWorld] sc in
  bounds_in_order (freshData (D:=binary64))
  /\ (cmdMax sc <? thrust (handle (Command (f64 infinity)) s0)) = false.
Proof.
  cbv zeta.
  assert (Hb : bounds_in_order (freshData (D:=binary64))) by reflexivity.
  split; [exact Hb |].
  pose proof (delivered_command_within_bounds (irr := binary64_irrefl)
                1%N scenarioSdf stillWorld
                [Command (f64 50); Pre oneMs spinningWorld]
                freshData (f64 infinity) Hb) as P.
  cbv zeta in P.
  change (snd (Configure 1%N scenarioSdf stillWorld freshData))
    with (configured scenarioSdf) in P.
  assert (Hn : node (run [Command (f64 50); Pre oneMs spinningWorld]
                         (configured scenarioSdf))
               = Some ("/model/vehicle/joint/propeller_joint/cmd_thrust",
                       CbOnCmdThrust)) by reflexivity.
  rewrite Hn in P. exact (proj2 P).
Defined.

End Binary64Runs.

(** ** The battery gate and the coefficient over a life *)

Section GateAndCoefficient.
Context {D : Arith} {L : GzLibs D}.
Local Open Scope string_scope.
Local Open Scope double_scope.

(** The gate looks at the model entity of the data and at nothing else in
    them. *)
Lemma HasSufficientBattery_model (_ecm : EntityComponentManager)
    (s s' : ThrusterPrivateData) :
  modelEntity s = modelEntity s' ->
  HasSufficientBattery _ecm s = HasSufficientBattery _ecm s'.
Proof. intros H. unfold HasSufficientBattery. rewrite H. reflexivity. Qed.

(** The fields a thrust command writes. *)
Lemma OnCmdThrust_shape (v : double) (s : ThrusterPrivateData) :
  exists k w,
    snd (OnCmdThrust v s) =
    s <| thrust := clamp (fixnan v) (cmdMin s) (cmdMax s) |>
      <| thrustCoefficient := k |> <| propellerAngVel := w |>.
Proof.
  rewrite OnCmdThrust_unfold. cbv zeta.
  rewrite ThrustToAngularVec_frame. do 2 eexists. reflexivity.
Qed.

(** X18: the battery gate stops the steps, not the commands.  A thrust
    command that arrives while the system is disabled is clamped and stored
    as usual; the steps in between do nothing; and once a [PostUpdate] finds
    the charge sufficient again, the next unpaused step requests the force
    of that stored command along the spin axis. *)
Theorem commands_are_not_gated
    (_info : UpdateInfo) (_low _ok _ecm : EntityComponentManager)
    (s : ThrusterPrivateData) (v : double) (t : string) :
  node s = Some (t, CbOnCmdThrust) ->
  paused _info = false ->
  HasSufficientBattery _low s = false ->
  HasSufficientBattery _ok s = true ->
  let c := clamp (fixnan v) (cmdMin s) (cmdMax s) in
  let s1 := handle (Post _info _low) s in
  let s2 := handle (Command v) s1 in
  let s3 := handle (Pre _info _ecm) s2 in
  let s4 := handle (Post _info _ok) s3 in
  thrust s2 = c
  /\ PreUpdate _info _ecm s2 = (_ecm, s2)
  /\ s3 = s2
  /\ exists torque,
       worldWrench (fst (PreUpdate _info _ecm s4))
       = (linkEntity s, scale (unitVectorOf _ecm s) c, torque)
         :: worldWrench _ecm.
Proof.
  intros Hn Hp Hlow Hok. cbv zeta. cbn [handle].
  rewrite PostUpdate_unfold, Hlow.
  set (s1 := s <| enabled := false |>).
  assert (Hn1 : node s1 = Some (t, CbOnCmdThrust)) by exact Hn.
  rewrite deliver_unfold, Hn1.
  destruct (OnCmdThrust_shape v s1) as (k & w & E).
  change (cmdMin s1) with (cmdMin s) in E.
  change (cmdMax s1) with (cmdMax s) in E.
  set (c := clamp (fixnan v) (cmdMin s) (cmdMax s)) in *.
  set (s2 := snd (OnCmdThrust v s1)) in *.
  assert (Ht : thrust s2 = c) by (rewrite E; reflexivity).
  assert (He : enabled s2 = false) by (rewrite E; reflexivity).
  assert (Hidle : PreUpdate _info _ecm s2 = (_ecm, s2))
    by (apply PreUpdate_idle; right; exact He).
  split; [exact Ht |]. split; [exact Hidle |].
  rewrite Hidle. cbn [snd]. split; [reflexivity |].
  rewrite PostUpdate_unfold.
  assert (Hm : HasSufficientBattery _ok s2 = true).
  { rewrite <- Hok. apply HasSufficientBattery_model.
    rewrite E. reflexivity. }
  rewrite Hm.
  set (s4 := s2 <| enabled := true |>).
  assert (Hl : linkEntity s4 = linkEntity s) by (unfold s4; rewrite E; reflexivity).
  assert (Hu : unitVectorOf _ecm s4 = unitVectorOf _ecm s)
    by (unfold s4; rewrite E; reflexivity).
  assert (Ht4 : thrust s4 = c) by exact Ht.
  assert (He4 : enabled s4 = true) by reflexivity.
  destruct (velocityControl s4) eqn:Hv.
  - rewrite (PreUpdate_velocity _ _ _ Hp He4 Hv). cbn [fst].
    rewrite Hl, Hu, Ht4. eexists. reflexivity.
  - rewrite (PreUpdate_pid _ _ _ Hp He4 Hv). cbn [fst].
    rewrite Hl, Hu, Ht4. eexists. reflexivity.
Qed.

(** The coefficient after the first stage of [Configure]. *)
Lemma readParameters_coefficient (_entity : Entity) (_sdf : Element)
    (_ecm : EntityComponentManager) (s : ThrusterPrivateData) :
  HasElement _sdf "thrust_coefficient" = true ->
  thrustCoefficientSet (readParameters _entity _sdf _ecm s) = true
  /\ thrustCoefficient (readParameters _entity _sdf _ecm s)
     = GetDouble _sdf "thrust_coefficient".
Proof.
  intros H. unfold readParameters. cbv zeta. rewrite H.
  change (thrustCoefficientSet (?x <| jointEntity := _ |>))
    with (thrustCoefficientSet x).
  change (thrustCoefficient (?x <| jointEntity := _ |>))
    with (thrustCoefficient x).
  do 7 (rewrite (applyIf_frame thrustCoefficientSet) by reflexivity).
  do 7 (rewrite (applyIf_frame thrustCoefficient) by reflexivity).
  split; reflexivity.
Qed.

(** A coefficient that is marked as configured, with a given value. *)
Definition coefficientFixedAt (k : double) (s : ThrusterPrivateData) : Prop :=
  thrustCoefficientSet s = true /\ thrustCoefficient s = k.

Lemma coefficientFixedAt_ConfigurePID (k : double) (_sdf : Element)
    (s : ThrusterPrivateData) :
  coefficientFixedAt k s -> coefficientFixedAt k (snd (ConfigurePID _sdf s)).
Proof.
  intros [Hs Hk]. rewrite ConfigurePID_outcome.
  destruct (velocityControl s); [split; assumption |].
  rewrite (ThrustToAngularVec_set _ s Hs). split; assumption.
Qed.

Lemma coefficientFixedAt_handle (k : double) (ev : Event)
    (s : ThrusterPrivateData) :
  coefficientFixedAt k s -> coefficientFixedAt k (handle ev s).
Proof.
  intros [Hs Hk]. destruct ev as [m | i e | i e]; cbn [handle].
  - rewrite deliver_unfold.
    destruct (node s) as [[tp [|]] |].
    + rewrite (OnCmdThrust_set m s Hs). split; assumption.
    + rewrite OnCmdAngVel_unfold. split; assumption.
    + split; assumption.
  - destruct (paused i) eqn:Hp;
      [rewrite PreUpdate_idle by (left; exact Hp); split; assumption |].
    destruct (enabled s) eqn:He;
      [| rewrite PreUpdate_idle by (right; exact He); split; assumption].
    destruct (PreUpdate_data i e s Hp He) as (pid & -> & _).
    rewrite (ThrustToAngularVec_set _ s Hs). split; assumption.
  - split; assumption.
Qed.

(** X19: a coefficient given in the SDF is final.  When the SDF names a
    joint and holds [thrust_coefficient], then whether or not the joint is
    found, and whatever commands and steps follow, the coefficient stays
    marked as configured and keeps the value of the SDF: neither the
    conversions that [Configure] itself makes for the controller limits nor
    any later command or step recomputes it. *)
Theorem configured_coefficient_is_final
    (_entity : Entity) (_sdf : Element) (_ecm : EntityComponentManager)
    (evs : list Event) (s : ThrusterPrivateData) :
  HasElement _sdf "joint_name" = true ->
  HasElement _sdf "thrust_coefficient" = true ->
  let s' := run evs (snd (Configure _entity _sdf _ecm s)) in
  thrustCoefficientSet s' = true
  /\ thrustCoefficient s' = GetDouble _sdf "thrust_coefficient".
Proof.
  intros Hj Hc. cbv zeta.
  set (k := GetDouble _sdf "thrust_coefficient").
  assert (H0 : coefficientFixedAt k (snd (Configure _entity _sdf _ecm s))).
  { rewrite Configure_stages, Hj. cbn [negb]. cbv zeta.
    pose proof (readParameters_coefficient _entity _sdf _ecm s Hc) as H1.
    destruct (N.eqb kNullEntity
                (jointEntity (readParameters _entity _sdf _ecm s)));
      [exact H1 |].
    apply coefficientFixedAt_ConfigurePID. unfold coefficientFixedAt.
    rewrite (readLimits_keeps thrustCoefficientSet),
      (readLimits_keeps thrustCoefficient) by reflexivity.
    exact H1. }
  revert H0. generalize (snd (Configure _entity _sdf _ecm s)) as s0.
  induction evs as [| ev evs IH]; intros s0 H0; [exact H0 |].
  change (run (ev :: evs) s0) with (run evs (handle ev s0)).
  apply IH. apply coefficientFixedAt_handle. exact H0.
Qed.

End GateAndCoefficient.

(** ** Runs of the gate and of a configured coefficient *)

Section GateRuns.
Local Existing Instance plainLibs.
Local Open Scope string_scope.
Local Open Scope double_scope.

(** A configuration that fixes the coefficient at 2. *)
Definition fixedCoefficientSdf : @Element binary64 :=
  [ ("joint_name", SdfString "propeller_joint");
    ("thrust_coefficient", SdfDouble (f64 2));
    ("alpha_2", SdfDouble (f64 1)) ].

(** X18 at a concrete input: a command of 80 N received with an empty
    battery is applied by the first step after the battery is found
    charged again (no reading in [spinningWorld]). *)
Lemma commands_are_not_gated_witness :
  let s := configured scenarioSdf in
  let s2 := handle (Command (f64 80)) (handle (Post oneMs drainedWorld) s) in
  let s4 := handle (Post oneMs spinningWorld)
              (handle (Pre oneMs spinningWorld) s2) in
  HasSufficientBattery drainedWorld s = false
  /\ HasSufficientBattery spinningWorld s = true
  /\ thrust s2 = f64 80
  /\ exists torque,
       worldWrench (fst (PreUpdate oneMs spinningWorld s4))
       = [(3%N, scale (unitVectorOf spinningWorld s) (f64 80), torque)].
Proof.
  cbv zeta. do 2 (split; [reflexivity |]).
  destruct (commands_are_not_gated oneMs drainedWorld spinningWorld
              spinningWorld (configured scenarioSdf) (f64 80)
              "/model/vehicle/joint/propeller_joint/cmd_thrust"
              eq_refl eq_refl eq_refl eq_refl)
    as (Ht & _ & _ & torque & Hw).
  split; [rewrite Ht; reflexivity |].
  exists torque. rewrite Hw. reflexivity.
Defined.

(** X19 at a concrete input: with a coefficient of 2 in the SDF and
    [alpha_2 = 1], a thrust command and a step in an advancing world leave
    the coefficient at 2. *)
Lemma configured_coefficient_is_final_witness :
  let evs := [Command (f64 100); Pre oneMs advancingWorld;
              Pre oneMs advancingWorld] in
  HasElement fixedCoefficientSdf "joint_name" = true
  /\ HasElement fixedCoefficientSdf "thrust_coefficient" = true
  /\ thrustCoefficient (run evs (configured fixedCoefficientSdf)) = f64 2.
Proof.
  cbv zeta. do 2 (split; [reflexivity |]).
  destruct (configured_coefficient_is_final 1%N fixedCoefficientSdf
              stillWorld
              [Command (f64 100); Pre oneMs advancingWorld;
               Pre oneMs advancingWorld]
              freshData eq_refl eq_refl) as [_ Hk].
  exact Hk.
Defined.

End GateRuns.

(** * Rounding in binary64 *)

Section Rounding.
Local Open Scope R_scope.

(** ** Binary64 values as real numbers *)

Definition bpow (e : Z) : R := powerRZ 2 e.

Lemma bpow_pos (e : Z) : 0 < bpow e.
Proof. apply powerRZ_lt. lra. Qed.

Lemma bpow_add (a b : Z) : bpow (a + b) = bpow a * bpow b.
Proof. apply powerRZ_add. lra. Qed.

Lemma bpow_succ (e : Z) : bpow (e + 1) = 2 * bpow e.
Proof. rewrite bpow_add. unfold bpow at 2. simpl. lra. Qed.

Lemma bpow_IZR (k : Z) : (0 <= k)%Z -> bpow k = IZR (2 ^ k).
Proof.
  intros Hk. unfold bpow. destruct k as [| p | p]; [reflexivity | | lia].
  change (2 ^ Z.pos p)%Z with (Z.pow_pos 2 p).
  rewrite Zpower_pos_powerRZ. reflexivity.
Qed.

Lemma bpow_ge_1 (k : Z) : (0 <= k)%Z -> 1 <= bpow k.
Proof.
  intros Hk. rewrite (bpow_IZR k Hk). apply IZR_le.
  assert (0 < 2 ^ k)%Z by (apply Z.pow_pos_nonneg; lia). lia.
Qed.

Lemma bpow_le (a b : Z) : (a <= b)%Z -> bpow a <= bpow b.
Proof.
  intros H. replace b with (a + (b - a))%Z by lia. rewrite bpow_add.
  pose proof (bpow_pos a). pose proof (bpow_ge_1 (b - a) ltac:(lia)). nra.
Qed.

(** The value of a finite number; 0 for the others. *)
Definition SF2R (x : spec_float) : R :=
  match x with
  | S754_finite s m e => (if s then -1 else 1) * (IZR (Zpos m) * bpow e)
  | _ => 0
  end.

(** A real [x] lies in the binade slot of [m] at exponent [e]. *)
Definition between (x : R) (m e : Z) : Prop :=
  IZR m * bpow e <= x < IZR (m + 1) * bpow e.

Lemma shr_1_between (x : R) (mrs : shr_record) (e : Z) :
  (0 <= shr_m mrs)%Z -> between x (shr_m mrs) e ->
  (0 <= shr_m (shr_1 mrs))%Z /\ between x (shr_m (shr_1 mrs)) (e + 1).
Proof.
  destruct mrs as [m r s]. cbn [shr_m]. unfold between. intros Hm [Hl Hu].
  rewrite bpow_succ. pose proof (bpow_pos e) as Hb.
  destruct m as [| p | p]; [| | lia].
  - cbn [shr_1 shr_m]. split; [lia |]. cbn in *. lra.
  - destruct p as [p | p |]; cbn [shr_1 shr_m].
    + split; [lia |].
      rewrite Pos2Z.inj_xI in Hl, Hu. rewrite plus_IZR, mult_IZR in *.
      rewrite plus_IZR in *. rewrite mult_IZR in Hu.
      set (y := IZR (Z.pos p)) in *. cbn in *. nra.
    + split; [lia |].
      rewrite Pos2Z.inj_xO in Hl, Hu. rewrite plus_IZR, mult_IZR in *.
      set (y := IZR (Z.pos p)) in *. cbn in *. nra.
    + split; [lia |]. cbn in *. lra.
Qed.

Lemma iter_shr_1_between (x : R) (n : positive) :
  forall (mrs : shr_record) (e : Z),
    (0 <= shr_m mrs)%Z -> between x (shr_m mrs) e ->
    (0 <= shr_m (iter_pos shr_1 n mrs))%Z
    /\ between x (shr_m (iter_pos shr_1 n mrs)) (e + Zpos n).
Proof.
  induction n as [n IH | n IH |]; intros mrs e Hm Hb; cbn [iter_pos].
  - destruct (shr_1_between x mrs e Hm Hb) as [H1 B1].
    destruct (IH _ _ H1 B1) as [H2 B2].
    destruct (IH _ _ H2 B2) as [H3 B3].
    split; [exact H3 |].
    replace (e + Z.pos n~1)%Z with (e + 1 + Z.pos n + Z.pos n)%Z by lia.
    exact B3.
  - destruct (IH _ _ Hm Hb) as [H2 B2].
    destruct (IH _ _ H2 B2) as [H3 B3].
    split; [exact H3 |].
    replace (e + Z.pos n~0)%Z with (e + Z.pos n + Z.pos n)%Z by lia.
    exact B3.
  - apply shr_1_between; assumption.
Qed.

Lemma shr_between (x : R) (mrs mrs' : shr_record) (e e' n : Z) :
  (0 <= shr_m mrs)%Z -> between x (shr_m mrs) e ->
  shr mrs e n = (mrs', e') ->
  (0 <= shr_m mrs')%Z /\ between x (shr_m mrs') e' /\ (e <= e')%Z.
Proof.
  intros Hm Hb. unfold shr. destruct n as [| p | p]; intros E; inversion E; subst.
  - repeat split; [assumption | apply Hb | apply Hb | lia].
  - destruct (iter_shr_1_between x p mrs e Hm Hb) as [H1 B1].
    repeat split; [assumption | apply B1 | apply B1 | lia].
  - repeat split; [assumption | apply Hb | apply Hb | lia].
Qed.

Lemma shr_m_of_loc (m : Z) (l : location) : shr_m (shr_record_of_loc m l) = m.
Proof. destruct l as [| []]; reflexivity. Qed.

Lemma shr_fexp_between (pr em : Z) (x : R) (m e : Z) (l : location)
    (mrs' : shr_record) (e' : Z) :
  (0 <= m)%Z -> between x m e ->
  shr_fexp pr em m e l = (mrs', e') ->
  (0 <= shr_m mrs')%Z /\ between x (shr_m mrs') e' /\ (e <= e')%Z.
Proof.
  intros Hm Hb. unfold shr_fexp. apply shr_between; rewrite shr_m_of_loc; assumption.
Qed.

Lemma round_nearest_even_cases (m : Z) (l : location) :
  round_nearest_even m l = m \/ round_nearest_even m l = (m + 1)%Z.
Proof.
  destruct l as [| []]; cbn; auto. destruct (Z.even m); auto.
Qed.

(** The rounding step: a finite result is within two units of its last
    place of the real it rounds. *)
Lemma binary_round_aux_between (pr em : Z) (s : bool) (m e : Z) (l : location)
    (x : R) (sz : bool) (mz : positive) (ez : Z) :
  (0 <= m)%Z -> between x m e ->
  binary_round_aux pr em s m e l = S754_finite sz mz ez ->
  sz = s /\ Rabs (IZR (Zpos mz) * bpow ez - x) <= 2 * bpow ez.
Proof.
  intros Hm Hb. unfold binary_round_aux.
  destruct (shr_fexp pr em m e l) as [mrs1 e1] eqn:E1.
  destruct (shr_fexp_between _ _ _ _ _ _ _ _ Hm Hb E1) as (Hm1 & Hb1 & _).
  set (m1 := round_nearest_even (shr_m mrs1) (loc_of_shr_record mrs1)).
  destruct (shr_fexp pr em m1 e1 loc_Exact) as [mrs2 e2] eqn:E2.
  assert (Hm1' : (0 <= m1)%Z).
  { destruct (round_nearest_even_cases (shr_m mrs1) (loc_of_shr_record mrs1))
      as [H | H]; unfold m1; rewrite H; lia. }
  assert (Hx1 : between (IZR m1 * bpow e1) m1 e1).
  { unfold between. rewrite plus_IZR. pose proof (bpow_pos e1). nra. }
  destruct (shr_fexp_between _ _ _ _ _ _ _ _ Hm1' Hx1 E2) as (Hm2 & Hb2 & He).
  destruct (shr_m mrs2) as [| p | p] eqn:Em2; try discriminate.
  destruct (Z.leb e2 (em - pr)); try discriminate.
  intros E. inversion E; subst. split; [reflexivity |].
  pose proof (bpow_le _ _ He) as Hle. pose proof (bpow_pos e1) as Hp1.
  unfold between in Hb1, Hb2. rewrite plus_IZR in Hb1, Hb2.
  assert (Hd : - bpow e1 <= IZR m1 * bpow e1 - x <= bpow e1).
  { destruct (round_nearest_even_cases (shr_m mrs1) (loc_of_shr_record mrs1))
      as [H | H]; unfold m1; rewrite H; [| rewrite plus_IZR]; nra. }
  apply Rabs_le. nra.
Qed.

Lemma digits2_pos_lower (m : positive) :
  (2 ^ (Zpos (digits2_pos m) - 1) <= Zpos m)%Z.
Proof.
  induction m as [m IH | m IH |]; cbn [digits2_pos].
  - rewrite Pos2Z.inj_succ. replace (Z.succ (Z.pos (digits2_pos m)) - 1)%Z
      with (Z.succ (Z.pos (digits2_pos m) - 1)) by lia.
    rewrite Z.pow_succ_r by lia. lia.
  - rewrite Pos2Z.inj_succ. replace (Z.succ (Z.pos (digits2_pos m)) - 1)%Z
      with (Z.succ (Z.pos (digits2_pos m) - 1)) by lia.
    rewrite Z.pow_succ_r by lia. lia.
  - cbn. lia.
Qed.

(** A normal number: finite, with all 53 digits. *)
Definition SFnormal (x : spec_float) : bool :=
  match x with
  | S754_finite _ m _ => Z.eqb (Zpos (digits2_pos m)) 53
  | _ => false
  end.

(** The relative accuracy of one rounded operation: 2^-51. *)
Definition eps : R := / 2 ^ 51.

Lemma eps_pos : 0 < eps.
Proof. unfold eps. apply Rinv_0_lt_compat. apply pow_lt. lra. Qed.

Lemma normal_mantissa (m : positive) :
  Z.eqb (Zpos (digits2_pos m)) 53 = true -> 2 ^ 52 <= IZR (Zpos m).
Proof.
  intros H. apply Z.eqb_eq in H. pose proof (digits2_pos_lower m) as L.
  rewrite H in L. change (53 - 1)%Z with 52%Z in L.
  rewrite pow_IZR. apply IZR_le. exact L.
Qed.

Lemma ulp_bound (m : positive) (e : Z) :
  Z.eqb (Zpos (digits2_pos m)) 53 = true ->
  2 * bpow e <= eps * (IZR (Zpos m) * bpow e).
Proof.
  intros H. pose proof (normal_mantissa m H) as Hm. pose proof (bpow_pos e) as Hb.
  unfold eps.
  assert (H51 : 0 < 2 ^ 51) by (apply pow_lt; lra).
  assert (E : 2 ^ 52 = 2 * 2 ^ 51) by (simpl; lra).
  rewrite E in Hm.
  assert (2 <= / 2 ^ 51 * IZR (Z.pos m)).
  { apply (Rmult_le_reg_l (2 ^ 51)); [exact H51 |].
    rewrite <- Rmult_assoc, Rinv_r by lra. lra. }
  nra.
Qed.

Lemma Rabs_sign (s : bool) (v : R) : Rabs ((if s then -1 else 1) * v) = Rabs v.
Proof.
  destruct s.
  - replace (-1 * v) with (- v) by ring. apply Rabs_Ropp.
  - rewrite Rmult_1_l. reflexivity.
Qed.

(** The rounding step with a sign: the signed value approximates the signed
    real. *)
Lemma round_signed (s : bool) (m e : Z) (l : location) (x : R) (z : spec_float) :
  (0 <= m)%Z -> between x m e ->
  binary_round_aux prec emax s m e l = z -> SFnormal z = true ->
  Rabs (SF2R z - (if s then -1 else 1) * x) <= eps * Rabs (SF2R z).
Proof.
  intros Hm Hb E Hn. destruct z as [| | | sz mz ez]; try discriminate.
  destruct (binary_round_aux_between _ _ _ _ _ _ _ _ _ _ Hm Hb E) as [-> Hd].
  cbn [SF2R SFnormal] in *.
  rewrite <- Rmult_minus_distr_l, !Rabs_sign.
  pose proof (ulp_bound mz ez Hn) as Hu.
  rewrite (Rabs_right (IZR (Z.pos mz) * bpow ez)).
  - lra.
  - pose proof (bpow_pos ez). assert (0 < IZR (Z.pos mz)) by (apply IZR_lt; lia). nra.
Qed.

Lemma between_exact (m e : Z) : between (IZR m * bpow e) m e.
Proof. unfold between. rewrite plus_IZR. pose proof (bpow_pos e). nra. Qed.

Lemma sign_xorb (a b : bool) (u v : R) :
  ((if a then -1 else 1) * u) * ((if b then -1 else 1) * v)
  = (if xorb a b then -1 else 1) * (u * v).
Proof. destruct a, b; cbn; ring. Qed.

Lemma SFmul_approx (x y : spec_float) :
  SFnormal (SFmul prec emax x y) = true ->
  Rabs (SF2R (SFmul prec emax x y) - SF2R x * SF2R y)
  <= eps * Rabs (SF2R (SFmul prec emax x y)).
Proof.
  destruct x as [sx | sx | | sx mx ex], y as [sy | sy | | sy my ey];
    cbn [SFmul SFnormal]; try discriminate.
  intros Hn. cbn [SF2R]. rewrite sign_xorb.
  eapply round_signed; [| | reflexivity | exact Hn].
  - apply Pos2Z.is_nonneg.
  - replace (IZR (Z.pos mx) * bpow ex * (IZR (Z.pos my) * bpow ey))
      with (IZR (Z.pos (mx * my)) * bpow (ex + ey)).
    + apply between_exact.
    + rewrite Pos2Z.inj_mul, mult_IZR, bpow_add. ring.
Qed.

(** The quotient and the square root before rounding. *)
Lemma SFdiv_core_between (mx my : positive) (ex ey q e' : Z) (l : location) :
  SFdiv_core_binary prec emax (Zpos mx) ex (Zpos my) ey = (q, e', l) ->
  (0 <= q)%Z
  /\ between ((IZR (Zpos mx) * bpow ex) / (IZR (Zpos my) * bpow ey)) q e'.
Proof.
  unfold SFdiv_core_binary.
  set (e0 := Z.min _ _).
  set (s := (ex - ey - e0)%Z).
  assert (Hs : (0 <= s)%Z) by (unfold s, e0; lia).
  set (m' := match s with Z.pos _ => Z.shiftl (Z.pos mx) s | 0%Z => Z.pos mx
             | Z.neg _ => 0%Z end).
  assert (Hm' : m' = (Z.pos mx * 2 ^ s)%Z).
  { unfold m'. destruct s as [| p | p]; [lia | | lia].
    apply Z.shiftl_mul_pow2. lia. }
  pose proof (Z_div_mod m' (Z.pos my) ltac:(lia)) as Hdm.
  destruct (Z.div_eucl m' (Z.pos my)) as [q0 r] eqn:Ediv.
  destruct Hdm as [Hq Hr]. intros E. inversion E; subst q e' l. clear E.
  assert (H2s : (0 < 2 ^ s)%Z) by (apply Z.pow_pos_nonneg; lia).
  assert (Hq0 : (0 <= q0)%Z) by nia.
  split; [exact Hq0 |].
  assert (Hx : IZR (Z.pos mx) * bpow ex / (IZR (Z.pos my) * bpow ey)
               = IZR m' / IZR (Z.pos my) * bpow e0).
  { rewrite Hm', mult_IZR, <- (bpow_IZR s Hs).
    replace ex with (s + e0 + ey)%Z at 1 by (unfold s; lia).
    rewrite !bpow_add. field.
    repeat split; first [apply Rgt_not_eq, bpow_pos | apply Rgt_not_eq, IZR_lt; lia]. }
  rewrite Hx, Hq. unfold between. rewrite !plus_IZR, mult_IZR.
  assert (Hy : 0 < IZR (Z.pos my)) by (apply IZR_lt; lia).
  assert (Hr0 : 0 <= IZR r) by (apply IZR_le; lia).
  assert (Hr1 : IZR r < IZR (Z.pos my)) by (apply IZR_lt; lia).
  pose proof (bpow_pos e0) as Hb.
  replace ((IZR (Z.pos my) * IZR q0 + IZR r) / IZR (Z.pos my))
    with (IZR q0 + IZR r / IZR (Z.pos my)) by (field; lra).
  assert (0 <= IZR r / IZR (Z.pos my) < 1).
  { split.
    - apply Rmult_le_pos; [lra | apply Rlt_le, Rinv_0_lt_compat; lra].
    - apply (Rmult_lt_reg_r (IZR (Z.pos my))); [lra |].
      unfold Rdiv. rewrite Rmult_assoc, Rinv_l by lra. lra. }
  nra.
Qed.

Lemma SFdiv_approx (x y : spec_float) :
  SFnormal (SFdiv prec emax x y) = true ->
  SF2R y <> 0
  /\ Rabs (SF2R (SFdiv prec emax x y) - SF2R x / SF2R y)
     <= eps * Rabs (SF2R (SFdiv prec emax x y)).
Proof.
  destruct x as [sx | sx | | sx mx ex], y as [sy | sy | | sy my ey];
    cbn [SFdiv SFnormal]; try discriminate.
  destruct (SFdiv_core_binary prec emax (Z.pos mx) ex (Z.pos my) ey)
    as [[q e'] l] eqn:Ec.
  destruct (SFdiv_core_between _ _ _ _ _ _ _ Ec) as [Hq Hb].
  intros Hn. cbn [SF2R].
  assert (Hy : 0 < IZR (Z.pos my) * bpow ey).
  { pose proof (bpow_pos ey). assert (0 < IZR (Z.pos my)) by (apply IZR_lt; lia).
    nra. }
  split.
  { destruct sy; lra. }
  set (X := IZR (Z.pos mx) * bpow ex) in *.
  set (Y := IZR (Z.pos my) * bpow ey) in *.
  replace ((if sx then -1 else 1) * X / ((if sy then -1 else 1) * Y))
    with ((if xorb sx sy then -1 else 1) * (X / Y))
    by (destruct sx, sy; cbn [xorb]; field; lra).
  eapply round_signed; [exact Hq | exact Hb | reflexivity | exact Hn].
Qed.

Lemma SFsqrt_core_between (mx : positive) (ex q e' : Z) (l : location) :
  SFsqrt_core_binary prec emax (Zpos mx) ex = (q, e', l) ->
  (0 <= q)%Z /\ between (R_sqrt.sqrt (IZR (Zpos mx) * bpow ex)) q e'.
Proof.
  unfold SFsqrt_core_binary.
  set (e0 := Z.min _ _).
  set (s := (ex - 2 * e0)%Z).
  assert (Hs : (0 <= s)%Z).
  { unfold s, e0. pose proof (Z.div2_odd ex) as Ho.
    destruct (Z.odd ex); cbn [Z.b2z] in Ho; lia. }
  set (m' := match s with Z.pos _ => Z.shiftl (Z.pos mx) s | 0%Z => Z.pos mx
             | Z.neg _ => 0%Z end).
  assert (Hm' : m' = (Z.pos mx * 2 ^ s)%Z).
  { unfold m'. destruct s as [| p | p]; [lia | | lia].
    apply Z.shiftl_mul_pow2. lia. }
  assert (H2s : (0 < 2 ^ s)%Z) by (apply Z.pow_pos_nonneg; lia).
  pose proof (Z.sqrtrem_spec m' ltac:(nia)) as Hsr.
  destruct (Z.sqrtrem m') as [q0 r] eqn:Esr. destruct Hsr as [Hq Hr].
  intros E. inversion E; subst q e' l. clear E.
  split; [lia |].
  assert (Hx : IZR (Z.pos mx) * bpow ex = IZR m' * (bpow e0 * bpow e0)).
  { rewrite Hm', mult_IZR, <- (bpow_IZR s Hs).
    replace ex with (s + e0 + e0)%Z at 1 by (unfold s; lia).
    rewrite !bpow_add. ring. }
  pose proof (bpow_pos e0) as Hb.
  assert (Hm0 : 0 <= IZR m') by (apply IZR_le; nia).
  rewrite Hx, sqrt_mult by nra. rewrite sqrt_square by lra.
  unfold between. rewrite plus_IZR.
  assert (Hq0 : 0 <= IZR q0) by (apply IZR_le; lia).
  assert (Hlo : IZR q0 <= R_sqrt.sqrt (IZR m')).
  { rewrite <- (sqrt_square (IZR q0)) by exact Hq0. apply sqrt_le_1_alt.
    rewrite <- mult_IZR. apply IZR_le. lia. }
  assert (Hhi : R_sqrt.sqrt (IZR m') < IZR q0 + 1).
  { rewrite <- (sqrt_square (IZR q0 + 1)) by lra. apply sqrt_lt_1_alt.
    split; [exact Hm0 |]. rewrite <- plus_IZR, <- mult_IZR. apply IZR_lt. lia. }
  nra.
Qed.

Lemma SFsqrt_approx (x : spec_float) :
  SFnormal (SFsqrt prec emax x) = true ->
  0 < SF2R x /\ 0 < SF2R (SFsqrt prec emax x)
  /\ Rabs (SF2R (SFsqrt prec emax x) - R_sqrt.sqrt (SF2R x))
     <= eps * Rabs (SF2R (SFsqrt prec emax x)).
Proof.
  destruct x as [sx | sx | | sx mx ex]; cbn [SFsqrt SFnormal];
    try discriminate; try (destruct sx; discriminate).
  destruct sx; [discriminate |].
  destruct (SFsqrt_core_binary prec emax (Z.pos mx) ex) as [[q e'] l] eqn:Ec.
  destruct (SFsqrt_core_between _ _ _ _ _ Ec) as [Hq Hb].
  intros Hn. cbn [SF2R]. rewrite Rmult_1_l.
  assert (Hx : 0 < IZR (Z.pos mx) * bpow ex).
  { pose proof (bpow_pos ex). assert (0 < IZR (Z.pos mx)) by (apply IZR_lt; lia).
    nra. }
  split; [exact Hx |].
  pose proof (round_signed false q e' l _ _ Hq Hb eq_refl Hn) as Hr.
  rewrite Rmult_1_l in Hr.
  split; [| exact Hr].
  destruct (binary_round_aux prec emax false q e' l) as [| | | sz mz ez] eqn:Ez;
    try discriminate.
  destruct (binary_round_aux_between _ _ _ _ _ _ _ _ _ _ Hq Hb Ez) as [-> _].
  cbn [SF2R]. pose proof (bpow_pos ez).
  assert (0 < IZR (Z.pos mz)) by (apply IZR_lt; lia). nra.
Qed.

(** ** Primitive floats *)

(** The real value of a double (0 for the infinities and NaN), and the
    doubles that are normal numbers: finite, not zero and not subnormal. *)
Definition F2R (f : float) : R := SF2R (Prim2SF f).
Definition is_normal (f : float) : bool := SFnormal (Prim2SF f).

Lemma normal_nonzero (f : float) : is_normal f = true -> F2R f <> 0.
Proof.
  unfold is_normal, F2R. destruct (Prim2SF f) as [| | | s m e]; try discriminate.
  intros _. cbn. pose proof (bpow_pos e).
  assert (0 < IZR (Z.pos m)) by (apply IZR_lt; lia). destruct s; nra.
Qed.

Lemma mul_approx (a b : float) :
  is_normal (a * b) = true ->
  Rabs (F2R (a * b) - F2R a * F2R b) <= eps * Rabs (F2R (a * b)).
Proof. unfold is_normal, F2R. rewrite mul_spec. apply SFmul_approx. Qed.

Lemma div_approx (a b : float) :
  is_normal (a / b) = true ->
  F2R b <> 0
  /\ Rabs (F2R (a / b) - F2R a / F2R b) <= eps * Rabs (F2R (a / b)).
Proof. unfold is_normal, F2R. rewrite div_spec. apply SFdiv_approx. Qed.

Lemma sqrt_approx (a : float) :
  is_normal (PrimFloat.sqrt a) = true ->
  0 < F2R a /\ 0 < F2R (PrimFloat.sqrt a)
  /\ Rabs (F2R (PrimFloat.sqrt a) - R_sqrt.sqrt (F2R a))
     <= eps * Rabs (F2R (PrimFloat.sqrt a)).
Proof. unfold is_normal, F2R. rewrite sqrt_spec. apply SFsqrt_approx. Qed.

Lemma abs_exact (a : float) : F2R (PrimFloat.abs a) = Rabs (F2R a).
Proof.
  unfold F2R. rewrite abs_spec.
  destruct (Prim2SF a) as [| | | s m e]; cbn [SFabs SF2R];
    try (symmetry; apply Rabs_R0).
  rewrite Rabs_sign, Rmult_1_l. symmetry. apply Rabs_right.
  pose proof (bpow_pos e). assert (0 < IZR (Z.pos m)) by (apply IZR_lt; lia).
  nra.
Qed.

(** The comparison with zero, on a normal number. *)
Lemma gt_zero_normal (a : float) :
  is_normal a = true ->
  (0 <? a)%float = true <-> 0 < F2R a.
Proof.
  unfold is_normal, F2R. rewrite ltb_spec.
  change (Prim2SF 0) with (S754_zero false).
  destruct (Prim2SF a) as [| | | s m e]; try discriminate.
  intros _. cbn. pose proof (bpow_pos e).
  assert (0 < IZR (Z.pos m)) by (apply IZR_lt; lia).
  destruct s; cbn; split; intros; try discriminate; try reflexivity; nra.
Qed.

(** ** Accumulated relative error *)

(** One rounding multiplies by a factor between [1 - eps] and
    [1 / (1 - eps)]; [n] roundings by a factor [within n]. *)
Definition grow : R := / (1 - eps).

Lemma eps_small : eps < / 2.
Proof.
  unfold eps. apply Rinv_lt_contravar.
  - apply Rmult_lt_0_compat; [lra | apply pow_lt; lra].
  - simpl. lra.
Qed.

Lemma grow_gt_1 : 1 < grow.
Proof.
  unfold grow. pose proof eps_pos. pose proof eps_small.
  rewrite <- Rinv_1 at 1. apply Rinv_lt_contravar; lra.
Qed.

Definition within (n : nat) (x : R) : Prop := / grow ^ n <= x <= grow ^ n.

Lemma grow_pow_pos (n : nat) : 0 < grow ^ n.
Proof. apply pow_lt. pose proof grow_gt_1. lra. Qed.

Lemma grow_pow_ge_1 (n : nat) : 1 <= grow ^ n.
Proof. apply pow_R1_Rle. pose proof grow_gt_1. lra. Qed.

Lemma within_pos (n : nat) (x : R) : within n x -> 0 < x.
Proof.
  intros [H _]. pose proof (Rinv_0_lt_compat _ (grow_pow_pos n)). lra.
Qed.

Lemma within_1 (n : nat) : within n 1.
Proof.
  unfold within. pose proof (grow_pow_ge_1 n) as H. split; [| exact H].
  rewrite <- Rinv_1. apply Rinv_le_contravar; lra.
Qed.

Lemma within_mul (n m : nat) (x y : R) :
  within n x -> within m y -> within (n + m) (x * y).
Proof.
  intros Hx Hy. pose proof (within_pos _ _ Hx). pose proof (within_pos _ _ Hy).
  destruct Hx as [Hx1 Hx2], Hy as [Hy1 Hy2]. unfold within.
  rewrite pow_add, Rinv_mult.
  pose proof (Rinv_0_lt_compat _ (grow_pow_pos n)).
  pose proof (Rinv_0_lt_compat _ (grow_pow_pos m)).
  split; apply Rmult_le_compat; lra.
Qed.

Lemma within_inv (n : nat) (x : R) : within n x -> within n (/ x).
Proof.
  intros Hx. pose proof (within_pos _ _ Hx) as Hp. destruct Hx as [H1 H2].
  pose proof (grow_pow_pos n) as Hg. unfold within. split.
  - apply Rinv_le_contravar; assumption.
  - rewrite <- (Rinv_inv (grow ^ n)). apply Rinv_le_contravar; [| exact H1].
    apply Rinv_0_lt_compat. exact Hg.
Qed.

Lemma within_sqrt (n : nat) (x : R) : within n x -> within n (R_sqrt.sqrt x).
Proof.
  intros Hx. pose proof (within_pos _ _ Hx) as Hp. destruct Hx as [H1 H2].
  pose proof (grow_pow_pos n) as Hg. pose proof (grow_pow_ge_1 n) as Hg1.
  pose proof (Rinv_0_lt_compat _ Hg) as Hi.
  assert (Hi1 : / grow ^ n <= 1).
  { rewrite <- Rinv_1. apply Rinv_le_contravar; lra. }
  unfold within. split.
  - destruct (Rle_dec x 1) as [Hle | Hgt].
    + (* sqrt x >= x for x <= 1 *)
      apply Rle_trans with x; [exact H1 |].
      rewrite <- (sqrt_square x) at 1 by lra. apply sqrt_le_1_alt. nra.
    + apply Rle_trans with 1; [exact Hi1 |].
      rewrite <- sqrt_1. apply sqrt_le_1_alt. lra.
  - destruct (Rle_dec x 1) as [Hle | Hgt].
    + apply Rle_trans with 1; [| exact Hg1].
      rewrite <- sqrt_1. apply sqrt_le_1_alt. exact Hle.
    + apply Rle_trans with x; [| exact H2].
      rewrite <- (sqrt_square x) at 2 by lra. apply sqrt_le_1_alt. nra.
Qed.

(** [a] is [b] up to [n] roundings. *)
Definition rel (a b : R) (n : nat) : Prop := exists x, within n x /\ a = b * x.

Lemma rel_refl (a : R) : rel a a 0.
Proof. exists 1. split; [apply within_1 | ring]. Qed.

Lemma rel_mul (a1 b1 a2 b2 : R) (n1 n2 : nat) :
  rel a1 b1 n1 -> rel a2 b2 n2 -> rel (a1 * a2) (b1 * b2) (n1 + n2).
Proof.
  intros (x1 & H1 & ->) (x2 & H2 & ->). exists (x1 * x2).
  split; [apply within_mul; assumption | ring].
Qed.

Lemma rel_div (a1 b1 a2 b2 : R) (n1 n2 : nat) :
  rel a1 b1 n1 -> rel a2 b2 n2 -> rel (a1 / a2) (b1 / b2) (n1 + n2).
Proof.
  intros (x1 & H1 & ->) (x2 & H2 & ->). exists (x1 * / x2).
  split; [apply within_mul; [assumption | apply within_inv; assumption] |].
  unfold Rdiv. rewrite Rinv_mult. ring.
Qed.

Lemma rel_abs (a b : R) (n : nat) : rel a b n -> rel (Rabs a) (Rabs b) n.
Proof.
  intros (x & H & ->). exists x. split; [exact H |].
  rewrite Rabs_mult, (Rabs_right x); [reflexivity |].
  apply Rle_ge, Rlt_le, (within_pos _ _ H).
Qed.

Lemma rel_sqrt (a b : R) (n : nat) :
  0 <= b -> rel a b n -> rel (R_sqrt.sqrt a) (R_sqrt.sqrt b) n.
Proof.
  intros Hb (x & H & ->). exists (R_sqrt.sqrt x).
  split; [apply within_sqrt; exact H |].
  apply sqrt_mult; [exact Hb | apply Rlt_le, (within_pos _ _ H)].
Qed.

Lemma rel_trans (a b c : R) (n m : nat) :
  rel a b n -> rel b c m -> rel a c (m + n).
Proof.
  intros (x & H1 & ->) (y & H2 & ->). exists (y * x).
  split; [apply within_mul; assumption | ring].
Qed.

Lemma rel_sign (a b : R) (n : nat) : rel a b n -> (0 < a <-> 0 < b).
Proof.
  intros (x & H & ->). pose proof (within_pos _ _ H). split; intros; nra.
Qed.

(** What one rounded operation gives. *)
Lemma rel_op (z x : R) : Rabs (z - x) <= eps * Rabs z -> rel z x 1.
Proof.
  intros H. pose proof eps_pos as He. pose proof eps_small as Hs.
  destruct (Req_dec z 0) as [-> | Hz].
  - rewrite Rabs_R0, Rmult_0_r in H.
    assert (Rabs (0 - x) = 0) by (pose proof (Rabs_pos (0 - x)); lra).
    assert (x = 0).
    { destruct (Req_dec x 0) as [E | E]; [exact E |].
      exfalso. apply (Rabs_no_R0 (0 - x)); [lra | assumption]. }
    subst x. exists 1. split; [apply within_1 | ring].
  - assert (Hx : x <> 0).
    { intros ->. rewrite Rminus_0_r in H. pose proof (Rabs_pos_lt z Hz). nra. }
    exists (z / x). split; [| field; exact Hx].
    unfold within. rewrite pow_1. unfold grow. rewrite Rinv_inv.
    (* x / z is between 1 - eps and 1 + eps *)
    assert (Hq : 1 - eps <= x / z <= 1 + eps).
    { assert (Hd : Rabs (1 - x / z) <= eps).
      { replace (1 - x / z) with ((z - x) / z) by (field; exact Hz).
        unfold Rdiv. rewrite Rabs_mult, Rabs_inv.
        apply (Rmult_le_reg_r (Rabs z)); [apply Rabs_pos_lt; exact Hz |].
        rewrite Rmult_assoc, Rinv_l by (apply Rabs_no_R0; exact Hz). lra. }
      unfold Rabs in Hd. destruct (Rcase_abs (1 - x / z)); split; lra. }
    assert (Hp : 0 < x / z) by lra.
    replace (z / x) with (/ (x / z)) by (field; split; assumption).
    split.
    + apply Rle_trans with (/ (1 + eps)).
      * apply (Rmult_le_reg_r (1 + eps)); [lra |].
        rewrite Rinv_l by lra. nra.
      * apply Rinv_le_contravar; lra.
    + apply Rinv_le_contravar; lra.
Qed.

Lemma bernoulli (e : R) (n : nat) :
  0 <= e <= 1 -> 1 - INR n * e <= (1 - e) ^ n.
Proof.
  intros He. induction n as [| n IH].
  - simpl. lra.
  - rewrite S_INR. cbn [Rpow_def.pow].
    assert (0 <= INR n) by apply pos_INR. nra.
Qed.

Lemma eps_16 : 16 * eps = / 2 ^ 47.
Proof.
  unfold eps. replace (2 ^ 51) with (16 * 2 ^ 47) by (simpl; lra).
  assert (0 < 2 ^ 47) by (apply pow_lt; lra).
  field; lra.
Qed.

(** The bound after at most 15 roundings, in closed form. *)
Lemma within_bound (n : nat) (x : R) :
  (n <= 15)%nat -> within n x -> Rabs (x - 1) <= / 2 ^ 47.
Proof.
  intros Hn [H1 H2]. rewrite <- eps_16.
  pose proof eps_pos as He. pose proof eps_small as Hs.
  assert (He' : eps <= / 240).
  { unfold eps. apply Rinv_le_contravar; [lra |]. simpl. lra. }
  assert (Hi : / grow ^ n = (1 - eps) ^ n).
  { unfold grow. rewrite pow_inv, Rinv_inv. reflexivity. }
  assert (Hb : 1 - 15 * eps <= (1 - eps) ^ n).
  { apply Rle_trans with (1 - INR n * eps); [| apply bernoulli; lra].
    assert (INR n <= 15).
    { replace 15 with (INR 15) by (simpl; lra). apply le_INR. exact Hn. }
    nra. }
  assert (Hu : grow ^ n <= 1 + 16 * eps).
  { rewrite <- (Rinv_inv (grow ^ n)), Hi.
    apply Rle_trans with (/ (1 - 15 * eps)).
    - apply Rinv_le_contravar; lra.
    - apply (Rmult_le_reg_r (1 - 15 * eps)); [lra |].
      rewrite Rinv_l by lra. nra. }
  rewrite Hi in H1. apply Rabs_le. lra.
Qed.

Lemma rel_bound (a b : R) (n : nat) :
  (n <= 15)%nat -> rel a b n -> Rabs (a - b) <= / 2 ^ 47 * Rabs b.
Proof.
  intros Hn (x & H & ->).
  replace (b * x - b) with (b * (x - 1)) by ring.
  rewrite Rabs_mult, Rmult_comm.
  apply Rmult_le_compat_r; [apply Rabs_pos | exact (within_bound n x Hn H)].
Qed.

End Rounding.

(** * The conversions on doubles *)

Ltac split_normal H :=
  repeat match type of H with
         | (_ && _)%bool = true =>
             let H1 := fresh "Hn" in
             apply andb_prop in H; destruct H as [H1 H]
         end.

(** [ThrustToAngularVec] when the coefficient is held fixed. *)
Lemma ThrustToAngularVec_held {D : Arith} {L : GzLibs D} (x : double)
    (s : ThrusterPrivateData) :
  thrustCoefficientSet s = true
  \/ (dabs (propellerAngVel s) >? epsilon) = false ->
  ThrustToAngularVec x s =
  (dsqrt (dabs (x / (fluidDensity s * thrustCoefficient s
                     * pow (propellerDiameter s) 4)))
   * (if x * thrustCoefficient s >? of_Z 0 then of_Z 1 else of_Z (-1)), s).
Proof.
  intros H. unfold ThrustToAngularVec. run_monad.
  assert (Hc : negb (thrustCoefficientSet s)
               && (dabs (propellerAngVel s) >? epsilon) = false).
  { destruct H as [-> | ->]; [reflexivity | apply andb_false_r]. }
  rewrite Hc. reflexivity.
Qed.

(** ** Zeros, NaNs and sign bits of doubles *)

Section Classes64.


Definition SFzero (x : spec_float) : bool :=
  match x with S754_zero _ => true | _ => false end.

(** A double that is a zero or a NaN; one that is not a zero. *)
Definition zeroOrNaN (x : float) : bool :=
  match Prim2SF x with S754_zero _ | S754_nan => true | _ => false end.
Definition notZero (x : float) : bool := negb (SFzero (Prim2SF x)).




(** The sign factor of [ThrustToAngularVec], and the zero of the model. *)
Lemma Prim2SF_sign_factor (b : bool) :
  Prim2SF (if b then of_Z (Arith:=binary64) 1 else of_Z (Arith:=binary64) (-1))
  = S754_finite (negb b) 4503599627370496 (-52).
Proof. destruct b; vm_compute; reflexivity. Qed.

Lemma Prim2SF_zero : Prim2SF (of_Z (Arith:=binary64) 0) = S754_zero false.
Proof. vm_compute. reflexivity. Qed.



Lemma zero_SF (x : float) :
  (x =? of_Z (Arith:=binary64) 0)%float = true -> SFzero (Prim2SF x) = true.
Proof.
  rewrite eqb_spec, Prim2SF_zero.
  destruct (Prim2SF x) as [s | s | | s m e]; cbn; try reflexivity;
    try discriminate; destruct s; discriminate.
Qed.

Lemma SF_zero_eqb (x : float) :
  SFzero (Prim2SF x) = true -> (x =? of_Z (Arith:=binary64) 0)%float = true.
Proof.
  rewrite eqb_spec, Prim2SF_zero.
  destruct (Prim2SF x) as [s | s | | s m e]; cbn; try discriminate.
  reflexivity.
Qed.



Lemma mul_zeroOrNaN (a b : float) : zeroOrNaN a = true -> zeroOrNaN (a * b) = true.
Proof.
  unfold zeroOrNaN. rewrite mul_spec.
  destruct (Prim2SF a) as [sa | sa | | sa ma ea]; try discriminate; intros _;
    destruct (Prim2SF b) as [sb | sb | | sb mb eb]; reflexivity.
Qed.

Lemma add_zeroOrNaN (a b : float) :
  zeroOrNaN a = true -> zeroOrNaN b = true -> zeroOrNaN (a + b) = true.
Proof.
  unfold zeroOrNaN. rewrite add_spec.
  destruct (Prim2SF a) as [sa | sa | | sa ma ea]; try discriminate; intros _;
    destruct (Prim2SF b) as [sb | sb | | sb mb eb]; try discriminate; intros _;
    try reflexivity.
  destruct sa, sb; reflexivity.
Qed.

Lemma sub_notZero_l (a b : float) :
  notZero a = true -> zeroOrNaN b = true -> notZero (a - b) = true.
Proof.
  unfold notZero, zeroOrNaN. rewrite sub_spec.
  destruct (Prim2SF a) as [sa | sa | | sa ma ea]; try discriminate; intros _;
    destruct (Prim2SF b) as [sb | sb | | sb mb eb]; try discriminate; intros _;
    reflexivity.
Qed.

Lemma sub_notZero_r (a b : float) :
  zeroOrNaN a = true -> notZero b = true -> notZero (a - b) = true.
Proof.
  unfold notZero, zeroOrNaN. rewrite sub_spec.
  destruct (Prim2SF a) as [sa | sa | | sa ma ea]; try discriminate; intros _;
    destruct (Prim2SF b) as [sb | sb | | sb mb eb]; try discriminate; intros _;
    reflexivity.
Qed.

Lemma zeroOrNaN_of_Z_0 : zeroOrNaN (of_Z (Arith:=binary64) 0) = true.
Proof. vm_compute. reflexivity. Qed.

Lemma SF_zero_zeroOrNaN (x : float) :
  SFzero (Prim2SF x) = true -> zeroOrNaN x = true.
Proof.
  unfold zeroOrNaN. destruct (Prim2SF x); try discriminate; reflexivity.
Qed.

Lemma eqb_zero_zeroOrNaN (x : float) :
  (x =? of_Z (Arith:=binary64) 0)%float = true -> zeroOrNaN x = true.
Proof. intros H. apply SF_zero_zeroOrNaN, zero_SF, H. Qed.

Lemma eqb_zero_notZero (x : float) :
  (x =? of_Z (Arith:=binary64) 0)%float = false <-> notZero x = true.
Proof.
  unfold notZero. rewrite eqb_spec, Prim2SF_zero.
  destruct (Prim2SF x) as [s | s | | s m e]; cbn; split; intros; try reflexivity;
    try discriminate; destruct s; reflexivity.
Qed.

Lemma is_nan_abs (x : float) :
  PrimFloat.is_nan (PrimFloat.abs x) = false -> PrimFloat.is_nan x = false.
Proof.
  intros H. apply is_nan_Prim2SF. intros E.
  assert (PrimFloat.is_nan (PrimFloat.abs x) = true); [| congruence].
  unfold PrimFloat.is_nan. rewrite eqb_spec, abs_spec, E. reflexivity.
Qed.

End Classes64.


(** ** The round trips *)

Section RoundTrip64.
Context {L : GzLibs binary64}.
Local Open Scope R_scope.

(** The doubles that the two conversions compute on the way from a thrust
    [t] to an angular velocity and back: the operations of lines 474 to 479
    and of line 498 of the source, in the order of evaluation, with [rho]
    the fluid density, [c] the thrust coefficient and [p4] the value of
    [pow(propellerDiameter, 4)]. *)
Definition thrustRoundTrip (rho c p4 t : float) : list float :=
  (let k1 := rho * c in
   let k := k1 * p4 in
   let q := t / k in
   let r := PrimFloat.sqrt (PrimFloat.abs q) in
   let tc := t * c in
   let w := r * (if 0 <? tc then of_Z (Arith:=binary64) 1
                 else of_Z (Arith:=binary64) (-1)) in
   let m1 := c * p4 in
   let m2 := m1 * PrimFloat.abs w in
   let m3 := m2 * w in
   [k1; k; q; r; tc; w; m1; m2; m3; m3 * rho])%float.

(** The same for the way from an angular velocity [w] to a thrust and
    back: line 498, then lines 474 to 479. *)
Definition angularRoundTrip (rho c p4 w : float) : list float :=
  (let m1 := c * p4 in
   let m2 := m1 * PrimFloat.abs w in
   let m3 := m2 * w in
   let t := m3 * rho in
   let k1 := rho * c in
   let k := k1 * p4 in
   let q := t / k in
   let r := PrimFloat.sqrt (PrimFloat.abs q) in
   let tc := t * c in
   [m1; m2; m3; t; k1; k; q; r; tc;
    r * (if 0 <? tc then of_Z (Arith:=binary64) 1
         else of_Z (Arith:=binary64) (-1))])%float.

Lemma F2R_of_Z_one : F2R (of_Z (Arith:=binary64) 1) = 1.
Proof.
  unfold F2R.
  replace (Prim2SF (of_Z (Arith:=binary64) 1))
    with (S754_finite false 4503599627370496 (-52)) by (vm_compute; reflexivity).
  cbn [SF2R]. change 4503599627370496%Z with (2 ^ 52)%Z.
  rewrite <- (bpow_IZR 52) by lia. rewrite <- bpow_add. cbn. lra.
Qed.

Lemma F2R_of_Z_minus_one : F2R (of_Z (Arith:=binary64) (-1)) = -1.
Proof.
  unfold F2R.
  replace (Prim2SF (of_Z (Arith:=binary64) (-1)))
    with (S754_finite true 4503599627370496 (-52)) by (vm_compute; reflexivity).
  cbn [SF2R]. change 4503599627370496%Z with (2 ^ 52)%Z.
  rewrite <- (bpow_IZR 52) by lia. rewrite <- bpow_add. cbn. lra.
Qed.

(** A positive factor of a normal product is a positive real. *)
Lemma mul_normal_pos_l (a b : float) :
  is_normal (a * b) = true -> (0 <? a)%float = true -> 0 < F2R a.
Proof.
  unfold is_normal, F2R. rewrite mul_spec, ltb_spec.
  change (Prim2SF 0) with (S754_zero false).
  destruct (Prim2SF a) as [sa | sa | | sa ma ea],
           (Prim2SF b) as [sb | sb | | sb mb eb];
    cbn [SF64mul SFmul SFnormal]; try discriminate.
  intros _. destruct sa; cbn; [discriminate |]. intros _.
  pose proof (bpow_pos ea). assert (0 < IZR (Z.pos ma)) by (apply IZR_lt; lia).
  nra.
Qed.

Lemma mul_normal_pos_r (a b : float) :
  is_normal (a * b) = true -> (0 <? b)%float = true -> 0 < F2R b.
Proof.
  unfold is_normal, F2R. rewrite mul_spec, ltb_spec.
  change (Prim2SF 0) with (S754_zero false).
  destruct (Prim2SF a) as [sa | sa | | sa ma ea],
           (Prim2SF b) as [sb | sb | | sb mb eb];
    cbn [SF64mul SFmul SFnormal]; try discriminate.
  intros _. destruct sb; cbn; [discriminate |]. intros _.
  pose proof (bpow_pos eb). assert (0 < IZR (Z.pos mb)) by (apply IZR_lt; lia).
  nra.
Qed.

(** The factor that restores the sign, as a real. *)
Lemma sign_factor_F2R (tc : float) (X : R) (n : nat) :
  is_normal tc = true -> rel (F2R tc) X n ->
  F2R (if (0 <? tc)%float then of_Z (Arith:=binary64) 1
       else of_Z (Arith:=binary64) (-1))
  = (if Rltb 0 X then 1 else -1).
Proof.
  intros Hn Hr. pose proof (gt_zero_normal tc Hn) as Hg.
  pose proof (rel_sign _ _ _ Hr) as Hs. unfold Rltb.
  destruct (0 <? tc)%float.
  - rewrite F2R_of_Z_one. destruct (Rlt_dec 0 X) as [_ | N]; [reflexivity |].
    exfalso. apply N, Hs, Hg. reflexivity.
  - rewrite F2R_of_Z_minus_one.
    destruct (Rlt_dec 0 X) as [P | _]; [| reflexivity].
    apply Hs, Hg in P. discriminate.
Qed.

Lemma rel_trans' (a b c : R) (n m k : nat) :
  rel a b n -> rel b c m -> (m + n = k)%nat -> rel a c k.
Proof. intros H1 H2 <-. exact (rel_trans _ _ _ _ _ H1 H2). Qed.

Lemma rel_mul' (a1 b1 a2 b2 : R) (n1 n2 k : nat) :
  rel a1 b1 n1 -> rel a2 b2 n2 -> (n1 + n2 = k)%nat ->
  rel (a1 * a2) (b1 * b2) k.
Proof. intros H1 H2 <-. exact (rel_mul _ _ _ _ _ _ H1 H2). Qed.

Lemma rel_div' (a1 b1 a2 b2 : R) (n1 n2 k : nat) :
  rel a1 b1 n1 -> rel a2 b2 n2 -> (n1 + n2 = k)%nat ->
  rel (a1 / a2) (b1 / b2) k.
Proof. intros H1 H2 <-. exact (rel_div _ _ _ _ _ _ H1 H2). Qed.

Lemma rel_nonzero (a b : R) (n : nat) : rel a b n -> a <> 0 -> b <> 0.
Proof. intros (x & _ & ->) H E. apply H. rewrite E. ring. Qed.

(** The thrust that comes back is the thrust that went in, up to the
    fourteen roundings on the way, whatever positive double stands for the
    fourth power of the diameter. *)
Lemma thrustRoundTrip_rel (rho c p4 t : float) :
  (0 <? rho)%float = true -> (0 <? p4)%float = true ->
  forallb is_normal (thrustRoundTrip rho c p4 t) = true ->
  rel (F2R (last (thrustRoundTrip rho c p4 t) t)) (F2R t) 14.
Proof.
  intros Hrho Hp4 Hn. unfold thrustRoundTrip in *. cbv zeta in *.
  cbn [forallb last] in *.
  set (k1 := (rho * c)%float) in *.
  set (k := (k1 * p4)%float) in *.
  set (q := (t / k)%float) in *.
  set (r := PrimFloat.sqrt (PrimFloat.abs q)) in *.
  set (tc := (t * c)%float) in *.
  set (f := if (0 <? tc)%float then _ else _) in *.
  set (w := (r * f)%float) in *.
  set (m1 := (c * p4)%float) in *.
  set (m2 := (m1 * PrimFloat.abs w)%float) in *.
  set (m3 := (m2 * w)%float) in *.
  split_normal Hn.
  set (Rho := F2R rho). set (C := F2R c). set (P := F2R p4). set (T := F2R t).
  assert (HRho : 0 < Rho) by exact (mul_normal_pos_l rho c Hn0 Hrho).
  assert (HP : 0 < P) by exact (mul_normal_pos_r k1 p4 Hn1 Hp4).
  assert (R1 : rel (F2R k1) (Rho * C) 1)
    by (apply rel_op, mul_approx; exact Hn0).
  assert (HC : C <> 0).
  { pose proof (rel_nonzero _ _ _ R1 (normal_nonzero _ Hn0)) as Hz.
    intros E. apply Hz. rewrite E. ring. }
  assert (R2 : rel (F2R k) (Rho * C * P) 2).
  { eapply rel_trans';
      [apply rel_op, mul_approx; exact Hn1
      | eapply rel_mul'; [exact R1 | apply rel_refl | reflexivity]
      | reflexivity]. }
  assert (R3 : rel (F2R q) (T / (Rho * C * P)) 3).
  { eapply rel_trans';
      [apply rel_op; exact (proj2 (div_approx t k Hn2))
      | eapply rel_div'; [apply rel_refl | exact R2 | reflexivity]
      | reflexivity]. }
  assert (R4 : rel (F2R (PrimFloat.abs q)) (Rabs (T / (Rho * C * P))) 3)
    by (rewrite abs_exact; apply rel_abs; exact R3).
  assert (R5 : rel (F2R r) (R_sqrt.sqrt (Rabs (T / (Rho * C * P)))) 4).
  { eapply rel_trans';
      [apply rel_op; exact (proj2 (proj2 (sqrt_approx _ Hn3)))
      | apply rel_sqrt; [apply Rabs_pos | exact R4]
      | reflexivity]. }
  assert (Rtc : rel (F2R tc) (T * C) 1)
    by (apply rel_op, mul_approx; exact Hn4).
  pose proof (sign_factor_F2R tc (T * C) 1 Hn4 Rtc) as Hf. fold f in Hf.
  set (W := R_sqrt.sqrt (Rabs (T / (Rho * C * P)))
            * (if Rltb 0 (T * C) then 1 else -1)).
  assert (R6 : rel (F2R w) W 5).
  { eapply rel_trans';
      [apply rel_op, mul_approx; exact Hn5
      | rewrite Hf; eapply rel_mul'; [exact R5 | apply rel_refl | reflexivity]
      | reflexivity]. }
  assert (R7 : rel (F2R m1) (C * P) 1)
    by (apply rel_op, mul_approx; exact Hn6).
  assert (R8 : rel (F2R m2) (C * P * Rabs W) 7).
  { eapply rel_trans';
      [apply rel_op, mul_approx; exact Hn7
      | rewrite abs_exact;
        eapply rel_mul'; [exact R7 | apply rel_abs; exact R6 | reflexivity]
      | reflexivity]. }
  assert (R9 : rel (F2R m3) (C * P * Rabs W * W) 13).
  { eapply rel_trans';
      [apply rel_op, mul_approx; exact Hn8
      | eapply rel_mul'; [exact R8 | exact R6 | reflexivity]
      | reflexivity]. }
  assert (R10 : rel (F2R (m3 * rho)) (C * P * Rabs W * W * Rho) 14).
  { eapply rel_trans';
      [apply rel_op, mul_approx; exact Hn9
      | eapply rel_mul'; [exact R9 | apply rel_refl | reflexivity]
      | reflexivity]. }
  unfold W in R10. rewrite (round_trip_algebra T C Rho P HC HRho HP) in R10.
  exact R10.
Qed.

(** The angular velocity that comes back is the one that went in, up to
    nine roundings. *)
Lemma angularRoundTrip_rel (rho c p4 w : float) :
  (0 <? rho)%float = true -> (0 <? p4)%float = true ->
  forallb is_normal (angularRoundTrip rho c p4 w) = true ->
  rel (F2R (last (angularRoundTrip rho c p4 w) w)) (F2R w) 9.
Proof.
  intros Hrho Hp4 Hn. unfold angularRoundTrip in *. cbv zeta in *.
  cbn [forallb last] in *.
  set (m1 := (c * p4)%float) in *.
  set (m2 := (m1 * PrimFloat.abs w)%float) in *.
  set (m3 := (m2 * w)%float) in *.
  set (t := (m3 * rho)%float) in *.
  set (k1 := (rho * c)%float) in *.
  set (k := (k1 * p4)%float) in *.
  set (q := (t / k)%float) in *.
  set (r := PrimFloat.sqrt (PrimFloat.abs q)) in *.
  set (tc := (t * c)%float) in *.
  set (f := if (0 <? tc)%float then _ else _) in *.
  split_normal Hn.
  set (Rho := F2R rho). set (C := F2R c). set (P := F2R p4). set (Wr := F2R w).
  assert (HP : 0 < P) by exact (mul_normal_pos_r c p4 Hn0 Hp4).
  assert (R1 : rel (F2R m1) (C * P) 1)
    by (apply rel_op, mul_approx; exact Hn0).
  assert (R2 : rel (F2R m2) (C * P * Rabs Wr) 2).
  { eapply rel_trans';
      [apply rel_op, mul_approx; exact Hn1
      | rewrite abs_exact;
        eapply rel_mul'; [exact R1 | apply rel_refl | reflexivity]
      | reflexivity]. }
  assert (R3 : rel (F2R m3) (C * P * Rabs Wr * Wr) 3).
  { eapply rel_trans';
      [apply rel_op, mul_approx; exact Hn2
      | eapply rel_mul'; [exact R2 | apply rel_refl | reflexivity]
      | reflexivity]. }
  assert (R4 : rel (F2R t) (C * P * Rabs Wr * Wr * Rho) 4).
  { eapply rel_trans';
      [apply rel_op, mul_approx; exact Hn3
      | eapply rel_mul'; [exact R3 | apply rel_refl | reflexivity]
      | reflexivity]. }
  assert (R5 : rel (F2R k1) (Rho * C) 1)
    by (apply rel_op, mul_approx; exact Hn4).
  assert (HRho : 0 < Rho) by exact (mul_normal_pos_l rho c Hn4 Hrho).
  assert (HC : C <> 0).
  { pose proof (rel_nonzero _ _ _ R5 (normal_nonzero _ Hn4)) as Hz.
    intros E. apply Hz. rewrite E. ring. }
  assert (HW : Wr <> 0).
  { pose proof (rel_nonzero _ _ _ R3 (normal_nonzero _ Hn2)) as Hz.
    intros E. apply Hz. rewrite E. ring. }
  assert (R6 : rel (F2R k) (Rho * C * P) 2).
  { eapply rel_trans';
      [apply rel_op, mul_approx; exact Hn5
      | eapply rel_mul'; [exact R5 | apply rel_refl | reflexivity]
      | reflexivity]. }
  assert (R7 : rel (F2R q) (Rabs Wr * Wr) 7).
  { replace (Rabs Wr * Wr)
      with (C * P * Rabs Wr * Wr * Rho / (Rho * C * P)) by (field; lra).
    eapply rel_trans';
      [apply rel_op; exact (proj2 (div_approx t k Hn6))
      | eapply rel_div'; [exact R4 | exact R6 | reflexivity]
      | reflexivity]. }
  assert (R8 : rel (F2R r) (Rabs Wr) 8).
  { assert (E : R_sqrt.sqrt (Rabs (Rabs Wr * Wr)) = Rabs Wr).
    { rewrite Rabs_mult, Rabs_Rabsolu. apply sqrt_square, Rabs_pos. }
    rewrite <- E.
    eapply rel_trans';
      [apply rel_op; exact (proj2 (proj2 (sqrt_approx _ Hn7)))
      | rewrite abs_exact; apply rel_sqrt;
        [apply Rabs_pos | apply rel_abs; exact R7]
      | reflexivity]. }
  assert (Rtc : rel (F2R tc) (C * P * Rabs Wr * Wr * Rho * C) 5).
  { eapply rel_trans';
      [apply rel_op, mul_approx; exact Hn8
      | eapply rel_mul'; [exact R4 | apply rel_refl | reflexivity]
      | reflexivity]. }
  pose proof (sign_factor_F2R tc _ 5 Hn8 Rtc) as Hf. fold f in Hf.
  assert (Hsgn : Rabs Wr * (if Rltb 0 (C * P * Rabs Wr * Wr * Rho * C)
                            then 1 else -1) = Wr).
  { assert (HCC : 0 < C * C) by exact (Rsqr_pos_lt C HC).
    assert (HK : 0 < C * C * P * Rho).
    { apply Rmult_lt_0_compat; [apply Rmult_lt_0_compat |]; assumption. }
    assert (HA : 0 < Rabs Wr) by (apply Rabs_pos_lt; exact HW).
    assert (HKA : 0 < C * C * P * Rho * Rabs Wr)
      by (apply Rmult_lt_0_compat; assumption).
    assert (E : C * P * Rabs Wr * Wr * Rho * C
                = C * C * P * Rho * Rabs Wr * Wr) by ring.
    rewrite E. set (K := C * C * P * Rho * Rabs Wr) in *.
    unfold Rltb.
    destruct (Rlt_dec 0 (K * Wr)) as [Hp | Hnp];
      destruct (Rcase_abs Wr) as [Hneg | Hpos].
    - exfalso. nra.
    - rewrite Rabs_right by exact Hpos. ring.
    - rewrite Rabs_left by exact Hneg. ring.
    - exfalso. apply Hnp. assert (0 < Wr) by lra. nra. }
  rewrite <- Hsgn at 1.
  eapply rel_trans';
    [apply rel_op, mul_approx; exact Hn9
    | rewrite Hf; eapply rel_mul'; [exact R8 | apply rel_refl | reflexivity]
    | reflexivity].
Qed.

(** A zero thrust comes back as a zero, when the three products of the
    parameters are normal. *)
Lemma thrustRoundTrip_zero (rho c p4 t : float) :
  (t =? of_Z (Arith:=binary64) 0)%float = true ->
  forallb is_normal [rho * c; rho * c * p4; c * p4]%float = true ->
  (last (thrustRoundTrip rho c p4 t) t =? of_Z (Arith:=binary64) 0)%float
  = true.
Proof.
  intros Ht Hn. cbn [forallb] in Hn. split_normal Hn.
  apply SF_zero_eqb. apply zero_SF in Ht.
  unfold thrustRoundTrip. cbv zeta. cbn [last].
  set (k := (rho * c * p4)%float) in *. set (m1 := (c * p4)%float) in *.
  set (b := (0 <? t * c)%float).
  unfold is_normal in *. rewrite mul_spec in Hn0.
  rewrite !mul_spec, !abs_spec, !mul_spec, sqrt_spec, abs_spec, div_spec,
    Prim2SF_sign_factor.
  destruct (Prim2SF t) as [st | st | | st mt et]; try discriminate.
  destruct (Prim2SF k) as [sk | sk | | sk mk ek]; try discriminate.
  destruct (Prim2SF m1) as [sm | sm | | sm mm em]; try discriminate.
  destruct (Prim2SF rho) as [sr | sr | | sr mr er],
           (Prim2SF c) as [sc | sc | | sc mc ec]; try discriminate.
  reflexivity.
Qed.

(** A zero angular velocity comes back as a zero, likewise. *)
Lemma angularRoundTrip_zero (rho c p4 w : float) :
  (w =? of_Z (Arith:=binary64) 0)%float = true ->
  forallb is_normal [rho * c; rho * c * p4; c * p4]%float = true ->
  (last (angularRoundTrip rho c p4 w) w =? of_Z (Arith:=binary64) 0)%float
  = true.
Proof.
  intros Hw Hn. cbn [forallb] in Hn. split_normal Hn.
  apply SF_zero_eqb. apply zero_SF in Hw.
  unfold angularRoundTrip. cbv zeta. cbn [last].
  set (k := (rho * c * p4)%float) in *. set (m1 := (c * p4)%float) in *.
  set (b := (0 <? _)%float).
  unfold is_normal in *. rewrite mul_spec in Hn0.
  rewrite mul_spec, sqrt_spec, abs_spec, div_spec, !mul_spec, abs_spec,
    Prim2SF_sign_factor.
  destruct (Prim2SF w) as [sw | sw | | sw mw ew]; try discriminate.
  destruct (Prim2SF k) as [sk | sk | | sk mk ek]; try discriminate.
  destruct (Prim2SF m1) as [sm | sm | | sm mm em]; try discriminate.
  destruct (Prim2SF rho) as [sr | sr | | sr mr er],
           (Prim2SF c) as [sc | sc | | sc mc ec]; try discriminate.
  reflexivity.
Qed.

(** C1, as the code has it on doubles.  With the thrust coefficient held
    fixed (set by configuration, or the stored propeller angular velocity
    at most epsilon in magnitude), converting a thrust to an angular
    velocity and back leaves the data alone, and for every thrust: if the
    fluid density and the fourth power of the diameter are positive and
    every double computed on the way is a normal number (none zero,
    subnormal, infinite or a NaN), the thrust that comes back is the thrust
    that went in to within the relative error [2 ^ -47]; and if the thrust
    is zero and the three products of the parameters are normal, a zero
    comes back. *)
Theorem round_trip_within_tolerance (s : @ThrusterPrivateData binary64 L)
    (t : @double binary64) :
  thrustCoefficientSet s = true
  \/ (dabs (propellerAngVel s) >? epsilon)%D = false ->
  let rho := fluidDensity s in
  let c := thrustCoefficient s in
  let p4 := pow (propellerDiameter s) 4 in
  let w := fst (ThrustToAngularVec t s) in
  let s' := snd (ThrustToAngularVec t s) in
  let t' := fst (AngularVelToThrust w s') in
  s' = s
  /\ ((of_Z 0 <? rho)%D = true -> (of_Z 0 <? p4)%D = true ->
      forallb is_normal (thrustRoundTrip rho c p4 t) = true ->
      Rabs (F2R t' - F2R t) <= / 2 ^ 47 * Rabs (F2R t))
  /\ ((t =? of_Z 0)%D = true ->
      forallb is_normal [rho * c; rho * c * p4; c * p4]%D = true ->
      (t' =? of_Z 0)%D = true).
Proof.
  intros Hfix. cbv zeta.
  rewrite (ThrustToAngularVec_held (D:=binary64) t s Hfix). cbn [fst snd].
  split; [reflexivity |].
  unfold AngularVelToThrust. run_monad. cbn [fst].
  split.
  - intros Hrho Hp4 Hn. apply (rel_bound _ _ 14); [lia |].
    exact (thrustRoundTrip_rel _ _ _ t Hrho Hp4 Hn).
  - intros Ht Hn. exact (thrustRoundTrip_zero _ _ _ t Ht Hn).
Qed.

(** X16: the round trip in the other direction, on doubles.  With the
    coefficient held fixed, for every angular velocity: under the same
    conditions, converting it to a thrust and back returns it to within
    the relative error [2 ^ -47]; and a zero angular velocity comes back as
    a zero. *)
Theorem angular_round_trip_within_tolerance
    (s : @ThrusterPrivateData binary64 L) (w : @double binary64) :
  thrustCoefficientSet s = true
  \/ (dabs (propellerAngVel s) >? epsilon)%D = false ->
  let rho := fluidDensity s in
  let c := thrustCoefficient s in
  let p4 := pow (propellerDiameter s) 4 in
  let t := fst (AngularVelToThrust w s) in
  let w' := fst (ThrustToAngularVec t s) in
  ((of_Z 0 <? rho)%D = true -> (of_Z 0 <? p4)%D = true ->
   forallb is_normal (angularRoundTrip rho c p4 w) = true ->
   Rabs (F2R w' - F2R w) <= / 2 ^ 47 * Rabs (F2R w))
  /\ ((w =? of_Z 0)%D = true ->
      forallb is_normal [rho * c; rho * c * p4; c * p4]%D = true ->
      (w' =? of_Z 0)%D = true).
Proof.
  intros Hfix. cbv zeta.
  rewrite (ThrustToAngularVec_held (D:=binary64) _ s Hfix). cbn [fst].
  unfold AngularVelToThrust. run_monad. cbn [fst].
  split.
  - intros Hrho Hp4 Hn. apply (rel_bound _ _ 9); [lia |].
    exact (angularRoundTrip_rel _ _ _ w Hrho Hp4 Hn).
  - intros Hw Hn. exact (angularRoundTrip_zero _ _ _ w Hw Hn).
Qed.

(** X17: a commanded angular velocity survives the step, on doubles.  With
    the coefficient set by configuration, [OnCmdAngVel] stores the clamped
    command and the thrust converted from it; the next enabled, unpaused
    [PreUpdate] overwrites the stored angular velocity with the one it
    derives from that thrust, which is the clamped command to within the
    relative error [2 ^ -47] when the doubles on the way are normal, and a
    zero when the clamped command is zero. *)
Theorem commanded_angular_velocity_survives_step
    (_info : UpdateInfo) (_ecm : EntityComponentManager)
    (s : @ThrusterPrivateData binary64 L) (v : @double binary64) :
  paused _info = false -> enabled s = true ->
  thrustCoefficientSet s = true ->
  let rho := fluidDensity s in
  let c := thrustCoefficient s in
  let p4 := pow (propellerDiameter s) 4 in
  let cmd := clamp (fixnan v) (cmdMin s) (cmdMax s) in
  let sc := snd (OnCmdAngVel v s) in
  let s' := snd (PreUpdate _info _ecm sc) in
  propellerAngVel sc = cmd
  /\ ((of_Z 0 <? rho)%D = true -> (of_Z 0 <? p4)%D = true ->
      forallb is_normal (angularRoundTrip rho c p4 cmd) = true ->
      Rabs (F2R (propellerAngVel s') - F2R cmd) <= / 2 ^ 47 * Rabs (F2R cmd))
  /\ ((cmd =? of_Z 0)%D = true ->
      forallb is_normal [rho * c; rho * c * p4; c * p4]%D = true ->
      (propellerAngVel s' =? of_Z 0)%D = true).
Proof.
  intros Hp He Hset. cbv zeta.
  rewrite OnCmdAngVel_unfold. cbv zeta.
  set (cmd := clamp (fixnan v) (cmdMin s) (cmdMax s)).
  split; [reflexivity |].
  set (sc := (s <| propellerAngVel := cmd |>)
               <| thrust := fst (AngularVelToThrust cmd
                                   (s <| propellerAngVel := cmd |>)) |>).
  assert (He' : enabled sc = true) by exact He.
  assert (Hset' : thrustCoefficientSet sc = true) by exact Hset.
  destruct (PreUpdate_data _info _ecm sc Hp He') as (pid & -> & _).
  change (propellerAngVel _)
    with (fst (ThrustToAngularVec (thrust sc) sc)).
  rewrite (ThrustToAngularVec_held (D:=binary64) _ sc (or_introl Hset')).
  cbn [fst].
  split.
  - intros Hrho Hp4 Hn. apply (rel_bound _ _ 9); [lia |].
    exact (angularRoundTrip_rel _ _ _ cmd Hrho Hp4 Hn).
  - intros Hc Hn. exact (angularRoundTrip_zero _ _ _ cmd Hc Hn).
Qed.

End RoundTrip64.

(** ** The sign of the angular velocity *)

Section Signs64.
Context {L : GzLibs binary64}.


End Signs64.

(** ** The torque of the PID state *)

(** [PID.Update] in closed form, when it does not return early. *)
Lemma PID_Update_value {D : Arith} (e dt : double) (c : PID.t) :
  (dt =? dzero) || disnan e || disinf e = false ->
  fst (PID.Update e dt c) =
  let pTerm := PID.pGain c * e in
  let i1 := PID.iErr c + PID.iGain c * dt * e in
  let i2 := if PID.iMax c >=? PID.iMin c
            then clamp i1 (PID.iMin c) (PID.iMax c) else i1 in
  let dTerm := PID.dGain c * ((e - PID.pErrLast c) / dt) in
  let cmd0 := PID.cmdOffset c - pTerm - i2 - dTerm in
  if PID.cmdMax c >=? PID.cmdMin c
  then clamp cmd0 (PID.cmdMin c) (PID.cmdMax c) else cmd0.
Proof.
  intros H. unfold PID.Update. rewrite H. destruct c. run_monad. cbn.
  destruct (_ <=? _); cbn; destruct (_ <=? _); reflexivity.
Qed.

Section Torque64.
Context {L : GzLibs binary64}.

(** The clamp of a zero or a NaN to the integral limits that [Configure]
    installs, 1 and -1. *)
Lemma clamp_integral_zeroOrNaN (v : float) :
  zeroOrNaN v = true ->
  zeroOrNaN (clamp (D:=binary64) v (of_Z (-1)) (of_Z 1)) = true.
Proof.
  unfold clamp, std_max, std_min, zeroOrNaN. cbn [dltb binary64].
  intros H.
  assert (H1 : (of_Z (Arith:=binary64) 1 <? v)%float = false).
  { rewrite ltb_spec.
    replace (Prim2SF (of_Z (Arith:=binary64) 1))
      with (S754_finite false 4503599627370496 (-52)) by (vm_compute; reflexivity).
    destruct (Prim2SF v) as [s | s | | s m e]; try discriminate; reflexivity. }
  rewrite H1.
  assert (H2 : (v <? of_Z (Arith:=binary64) (-1))%float = false).
  { rewrite ltb_spec.
    replace (Prim2SF (of_Z (Arith:=binary64) (-1)))
      with (S754_finite true 4503599627370496 (-52)) by (vm_compute; reflexivity).
    destruct (Prim2SF v) as [s | s | | s m e]; try discriminate; reflexivity. }
  rewrite H2. exact H.
Qed.

(** The clamp picks one of its three arguments. *)
Lemma clamp_notZero (v lo hi : float) :
  notZero v = true -> notZero lo = true -> notZero hi = true ->
  notZero (clamp (D:=binary64) v lo hi) = true.
Proof.
  unfold clamp, std_max, std_min. cbn [dltb binary64]. intros Hv Hlo Hhi.
  destruct (hi <? v)%float; destruct (_ <? lo)%float; assumption.
Qed.

(** The command of the update law on doubles, with zero integral and
    derivative gains, a zero offset and the integral limits 1 and -1. *)
Definition proportionalCommand (ie dt e pl pg lo hi : float) : float :=
  let zero : float := of_Z (Arith:=binary64) 0 in
  let one : float := of_Z (Arith:=binary64) 1 in
  let mone : float := of_Z (Arith:=binary64) (-1) in
  let i1 := (ie + zero * dt * e)%float in
  let i2 := if (mone <=? one)%float then clamp (D:=binary64) i1 mone one
            else i1 in
  let dTerm := (zero * ((e - pl) / dt))%float in
  let cmd0 := (zero - pg * e - i2 - dTerm)%float in
  if (lo <=? hi)%float then clamp (D:=binary64) cmd0 lo hi else cmd0.

Lemma proportionalCommand_notZero (ie dt e pl pg lo hi : float) :
  zeroOrNaN ie = true -> notZero (pg * e) = true ->
  notZero lo = true -> notZero hi = true ->
  notZero (proportionalCommand ie dt e pl pg lo hi) = true.
Proof.
  intros Hie Hp Hlo Hhi. unfold proportionalCommand. cbv zeta.
  set (i1 := (ie + _ * dt * e)%float).
  assert (Hi1 : zeroOrNaN i1 = true).
  { apply add_zeroOrNaN; [exact Hie |].
    apply mul_zeroOrNaN, mul_zeroOrNaN, zeroOrNaN_of_Z_0. }
  set (i2 := if (_ <=? _)%float then clamp (D:=binary64) i1 _ _ else i1).
  assert (Hi2 : zeroOrNaN i2 = true).
  { unfold i2. destruct (_ <=? _)%float;
      [apply clamp_integral_zeroOrNaN |]; exact Hi1. }
  set (dTerm := (_ * ((e - pl) / dt))%float).
  assert (Hdt : zeroOrNaN dTerm = true)
    by (apply mul_zeroOrNaN, zeroOrNaN_of_Z_0).
  set (cmd0 := (_ - pg * e - i2 - dTerm)%float).
  assert (Hc0 : notZero cmd0 = true).
  { unfold cmd0. apply sub_notZero_l; [| exact Hdt].
    apply sub_notZero_l; [| exact Hi2].
    apply sub_notZero_r; [apply zeroOrNaN_of_Z_0 | exact Hp]. }
  destruct (lo <=? hi)%float; [| exact Hc0].
  apply clamp_notZero; assumption.
Qed.

(** With the integral gain, the derivative gain, the offset and the
    integral limits as [Configure] installs them and an integral term that
    is zero, an update that does not return early gives a command that is
    not zero, provided the proportional term is not zero and neither
    command limit is zero. *)
Lemma PID_Update_not_zero (e dt : @double binary64) (c : @PID.t binary64) :
  (dt =? dzero) || disnan e || disinf e = false ->
  PID.iGain c = of_Z 0 -> PID.dGain c = of_Z 0 -> PID.cmdOffset c = of_Z 0 ->
  PID.iMax c = of_Z 1 -> PID.iMin c = of_Z (-1) ->
  (PID.iErr c =? of_Z 0) = true ->
  (PID.pGain c * e =? of_Z 0) = false ->
  (PID.cmdMin c =? of_Z 0) = false ->
  (PID.cmdMax c =? of_Z 0) = false ->
  (fst (PID.Update e dt c) =? of_Z 0) = false.
Proof.
  intros Hgo Hi Hd Ho Himax Himin Hie Hp Hlo Hhi.
  rewrite (PID_Update_value e dt c Hgo). cbv zeta.
  rewrite Hi, Hd, Ho, Himax, Himin.
  apply eqb_zero_notZero in Hp, Hlo, Hhi. apply eqb_zero_zeroOrNaN in Hie.
  apply eqb_zero_notZero.
  exact (proportionalCommand_notZero (PID.iErr c) dt e (PID.pErrLast c)
           (PID.pGain c) (PID.cmdMin c) (PID.cmdMax c) Hie Hp Hlo Hhi).
Qed.

(** C5, as the code has it on doubles.  In the PID state, on an enabled
    and unpaused step: an angular error of magnitude at most 0.1 gives a
    zero torque and leaves the controller alone; a magnitude above 0.1
    calls the PID update with the error and the step length, and the torque
    is the value that call returns.  That value is not zero when the step
    length is not zero, the error is finite, the integral gain, derivative
    gain, offset and integral limits are the ones [Configure] installs, the
    integral term is zero, the proportional term [pGain * error] is not
    zero, and neither command limit of the controller is zero. *)
Theorem pid_torque_outside_dead_band
    (_info : UpdateInfo) (_ecm : EntityComponentManager)
    (s : @ThrusterPrivateData binary64 L) :
  paused _info = false -> enabled s = true -> velocityControl s = false ->
  let desired := fst (ThrustToAngularVec (thrust s) s) in
  let u := unitVectorOf _ecm s in
  let angularError := currentAngularOf _ecm s - desired in
  let c := propellerController s in
  let update := PID.Update angularError (dtSeconds _info) c in
  let ecm' := fst (PreUpdate _info _ecm s) in
  let s' := snd (PreUpdate _info _ecm s) in
  ((dabs angularError <=? of_Z 1 / of_Z 10) = true ->
     worldWrench ecm'
       = (linkEntity s, scale u (thrust s), scale u (of_Z 0)) :: worldWrench _ecm
     /\ propellerController s' = c)
  /\ ((dabs angularError >? of_Z 1 / of_Z 10) = true ->
     worldWrench ecm'
       = (linkEntity s, scale u (thrust s), scale u (fst update))
         :: worldWrench _ecm
     /\ propellerController s' = snd update
     /\ ((dtSeconds (D:=binary64) _info =? of_Z 0) = false ->
         disinf angularError = false ->
         PID.iGain c = of_Z 0 -> PID.dGain c = of_Z 0 ->
         PID.cmdOffset c = of_Z 0 ->
         PID.iMax c = of_Z 1 -> PID.iMin c = of_Z (-1) ->
         (PID.iErr c =? of_Z 0) = true ->
         (PID.pGain c * angularError =? of_Z 0) = false ->
         (PID.cmdMin c =? of_Z 0) = false ->
         (PID.cmdMax c =? of_Z 0) = false ->
         (fst update =? of_Z 0) = false)).
Proof.
  intros Hp He Hv. cbv zeta.
  rewrite (PreUpdate_pid _ _ _ Hp He Hv). cbn [fst snd].
  split; intros Hc.
  - rewrite (dleb_not_gt (ArithLaws:=binary64_laws) _ _ Hc).
    split; reflexivity.
  - rewrite Hc. split; [reflexivity |]. split; [reflexivity |].
    intros Hdt Hinf Hi Hd Ho Himax Himin Hie Hpt Hlo Hhi.
    apply PID_Update_not_zero; try assumption.
    change (@dzero binary64) with (of_Z (Arith:=binary64) 0). rewrite Hdt, Hinf.
    destruct (dltb_not_nan (ArithLaws:=binary64_laws) _ _ Hc) as [_ Hn].
    cbn [disnan dabs binary64] in *. rewrite (is_nan_abs _ Hn). reflexivity.
Qed.

End Torque64.

(** ** Runs of the conversions and of the PID state in binary64 *)

Section DoubleRuns.
Local Existing Instance plainLibs.
Local Open Scope string_scope.
Local Open Scope double_scope.



(** Fluid densities that are negative and infinite. *)
Definition negativeDensitySdf : @Element binary64 :=
  [ ("joint_name", SdfString "propeller_joint");
    ("fluid_density", SdfDouble (f64 (-1000))) ].

(** The forward-only thruster with all three gains supplied. *)
Definition forwardOnlyGainsSdf : @Element binary64 :=
  [ ("joint_name", SdfString "propeller_joint");
    ("min_thrust_cmd", SdfDouble (f64 0));
    ("p_gain", SdfDouble (f64 7));
    ("i_gain", SdfDouble (f64 5));
    ("d_gain", SdfDouble (f64 3)) ].

(** The smallest positive double. *)
Definition tiny : @double binary64 := f64 0x1p-1074.

(** An unpaused step of length 0. *)
Definition zeroStep : UpdateInfo := {| paused := false; dt := 0 |}.

(** A thrust converted to an angular velocity and back. *)
Definition thereAndBack (s : @ThrusterPrivateData binary64 (plainLibs binary64))
    (t : @double binary64) : @double binary64 :=
  fst (AngularVelToThrust (fst (ThrustToAngularVec t s))
         (snd (ThrustToAngularVec t s))).

(** C1 at a concrete input: in the scenario the coefficient is held fixed
    (the propeller is at rest) and the doubles computed for a thrust of 3 N
    are normal; the thrust that comes back, 3.0000000000000004, is within
    the tolerance.  A zero thrust comes back as a zero. *)
Lemma round_trip_within_tolerance_witness :
  let s := configured scenarioSdf in
  (dabs (propellerAngVel s) >? epsilon) = false
  /\ (of_Z 0 <? fluidDensity s) = true
  /\ (of_Z 0 <? pow (propellerDiameter s) 4) = true
  /\ forallb is_normal
       (thrustRoundTrip (fluidDensity s) (thrustCoefficient s)
          (pow (propellerDiameter s) 4) (f64 3)) = true
  /\ thereAndBack s (f64 3) = f64 3.0000000000000004
  /\ (Rabs (F2R (thereAndBack s (f64 3)) - F2R (f64 3))
      <= / 2 ^ 47 * Rabs (F2R (f64 3)))%R
  /\ (thereAndBack s (f64 0) =? of_Z 0) = true.
Proof.
  cbv zeta.
  assert (H1 : (dabs (propellerAngVel (configured scenarioSdf)) >? epsilon)
               = false) by reflexivity.
  assert (H2 : (of_Z 0 <? fluidDensity (configured scenarioSdf)) = true)
    by reflexivity.
  assert (H3 : (of_Z 0 <? pow (propellerDiameter (configured scenarioSdf)) 4)
               = true) by reflexivity.
  assert (H4 : forallb is_normal
                 (thrustRoundTrip (fluidDensity (configured scenarioSdf))
                    (thrustCoefficient (configured scenarioSdf))
                    (pow (propellerDiameter (configured scenarioSdf)) 4)
                    (f64 3)) = true) by reflexivity.
  do 4 (split; [assumption |]). split; [reflexivity |].
  split.
  - exact (proj1 (proj2 (round_trip_within_tolerance
                           (configured scenarioSdf) (f64 3) (or_intror H1)))
             H2 H3 H4).
  - exact (proj2 (proj2 (round_trip_within_tolerance
                           (configured scenarioSdf) (f64 0) (or_intror H1)))
             eq_refl eq_refl).
Defined.

(** C1, the claim as stated fails, in the scenario and with the
    coefficient held fixed: a thrust of 1e308 N comes back as infinity (the
    quotient overflows), and the smallest positive thrust comes back as 0
    (the product underflows).  With the coefficient fixed at 0 the round
    trip of 1 N is a NaN, and with a fluid density of -1000 the round trip
    of 100 N is -100 N. *)
Lemma round_trip_fails_outside_normal_range :
  let s := configured scenarioSdf in
  let z := configured zeroCoefficientSdf in
  let n := configured negativeDensitySdf in
  (dabs (propellerAngVel s) >? epsilon) = false
  /\ thereAndBack s (f64 1e308) = f64 infinity
  /\ (of_Z 0 <? tiny) = true
  /\ thereAndBack s tiny = f64 0
  /\ thrustCoefficientSet z = true
  /\ disnan (thereAndBack z (f64 1)) = true
  /\ (dabs (propellerAngVel n) >? epsilon) = false
  /\ thereAndBack n (f64 100) = f64 (-100).
Proof. vm_compute. repeat split. Qed.



(** C5 at a concrete input: in the scenario, with no thrust commanded, a
    step of one millisecond and the propeller turning at 1 rad/s, the error
    of 1 rad/s is above 0.1, the controller is as [Configure] leaves it
    with limits -2500 and 2500, and the torque is the value the update
    returns, -0.1, which is not zero. *)
Lemma pid_torque_outside_dead_band_witness :
  let s := configured scenarioSdf in
  let c := propellerController s in
  let e := currentAngularOf spinningWorld s
           - fst (ThrustToAngularVec (thrust s) s) in
  paused oneMs = false /\ enabled s = true /\ velocityControl s = false
  /\ (dabs e >? of_Z 1 / of_Z 10) = true
  /\ PID.cmdMin c = f64 (-2500) /\ PID.cmdMax c = f64 2500
  /\ worldWrench (fst (PreUpdate oneMs spinningWorld s))
     = [(3%N, scale (unitVectorOf spinningWorld s) (f64 0),
              scale (unitVectorOf spinningWorld s) (f64 (-0.1)))]
  /\ (fst (PID.Update e (dtSeconds oneMs) c) =? of_Z 0) = false.
Proof.
  cbv zeta. do 3 (split; [reflexivity |]).
  assert (Hab : (dabs (currentAngularOf spinningWorld (configured scenarioSdf)
                       - fst (ThrustToAngularVec
                                (thrust (configured scenarioSdf))
                                (configured scenarioSdf)))
                 >? of_Z 1 / of_Z 10) = true) by reflexivity.
  split; [exact Hab |]. do 2 (split; [reflexivity |]).
  destruct (pid_torque_outside_dead_band oneMs spinningWorld
              (configured scenarioSdf) eq_refl eq_refl eq_refl)
    as [_ Habove].
  destruct (Habove Hab) as (Hw & _ & Hnz).
  split.
  - rewrite Hw. reflexivity.
  - apply Hnz; reflexivity.
Defined.

(** C5, the claim as stated fails: a thruster that pushes one way only
    ([min_thrust_cmd] of 0), configured with all three gains nonzero, at
    rest command and with the propeller turning at 1 rad/s.  The error is
    1, above 0.1, the proportional gain installed is 7 and the proportional
    term is not zero, the PID update is called, and the torque it gives is
    zero: the command is cut at the lower limit of the controller,
    [ThrustToAngularVec 0], which is zero.  In the scenario, whose limits
    are -2500 and 2500, the same error gives a zero torque on a step of
    length 0. *)
Lemma pid_update_saturates_at_zero_limit :
  let s := configured forwardOnlyGainsSdf in
  let c := propellerController s in
  let e := currentAngularOf spinningWorld s
           - fst (ThrustToAngularVec (thrust s) s) in
  let update := PID.Update e (dtSeconds oneMs) c in
  let s0 := configured scenarioSdf in
  let e0 := currentAngularOf spinningWorld s0
            - fst (ThrustToAngularVec (thrust s0) s0) in
  enabled s = true /\ velocityControl s = false
  /\ (dabs e >? of_Z 1 / of_Z 10) = true
  /\ PID.pGain c = f64 7
  /\ (PID.pGain c * e =? of_Z 0) = false
  /\ (PID.cmdMin c =? of_Z 0) = true
  /\ PID.cmdMax c = f64 2500
  /\ PID.pErr (snd update) = f64 1
  /\ (fst update =? of_Z 0) = true
  /\ worldWrench (fst (PreUpdate oneMs spinningWorld s))
     = [(3%N, mkVector3d (f64 0) (f64 0) (f64 0),
              mkVector3d (f64 (-0)) (f64 (-0)) (f64 (-0)))]
  /\ (dabs e0 >? of_Z 1 / of_Z 10) = true
  /\ (PID.pGain (propellerController s0) * e0 =? of_Z 0) = false
  /\ (fst (PID.Update e0 (dtSeconds zeroStep) (propellerController s0))
      =? of_Z 0) = true.
Proof. vm_compute. repeat split. Qed.

(** X16 at a concrete input: in the scenario an angular velocity of
    7 rad/s comes back as 7.0000000000000009 rad/s, within the tolerance,
    and a zero angular velocity comes back as a zero. *)
Lemma angular_round_trip_within_tolerance_witness :
  let s := configured scenarioSdf in
  let there (w : double) :=
    fst (ThrustToAngularVec (fst (AngularVelToThrust w s)) s) in
  (dabs (propellerAngVel s) >? epsilon) = false
  /\ (of_Z 0 <? fluidDensity s) = true
  /\ (of_Z 0 <? pow (propellerDiameter s) 4) = true
  /\ forallb is_normal
       (angularRoundTrip (fluidDensity s) (thrustCoefficient s)
          (pow (propellerDiameter s) 4) (f64 7)) = true
  /\ there (f64 7) = f64 7.0000000000000009
  /\ (Rabs (F2R (there (f64 7)) - F2R (f64 7))
      <= / 2 ^ 47 * Rabs (F2R (f64 7)))%R
  /\ (there (f64 0) =? of_Z 0) = true.
Proof.
  cbv zeta.
  assert (H1 : (dabs (propellerAngVel (configured scenarioSdf)) >? epsilon)
               = false) by reflexivity.
  assert (H2 : (of_Z 0 <? fluidDensity (configured scenarioSdf)) = true)
    by reflexivity.
  assert (H3 : (of_Z 0 <? pow (propellerDiameter (configured scenarioSdf)) 4)
               = true) by reflexivity.
  assert (H4 : forallb is_normal
                 (angularRoundTrip (fluidDensity (configured scenarioSdf))
                    (thrustCoefficient (configured scenarioSdf))
                    (pow (propellerDiameter (configured scenarioSdf)) 4)
                    (f64 7)) = true) by reflexivity.
  do 4 (split; [assumption |]). split; [reflexivity |].
  split.
  - exact (proj1 (angular_round_trip_within_tolerance
                    (configured scenarioSdf) (f64 7) (or_intror H1))
             H2 H3 H4).
  - exact (proj2 (angular_round_trip_within_tolerance
                    (configured scenarioSdf) (f64 0) (or_intror H1))
             eq_refl eq_refl).
Defined.

(** X17 at a concrete input: with the coefficient set to 2 by
    configuration, a commanded angular velocity of 7 rad/s is stored as
    7 rad/s, and after a step the stored value is 7.0000000000000009 rad/s,
    within the tolerance. *)
Lemma commanded_angular_velocity_survives_step_witness :
  let s := configured fixedCoefficientSdf in
  let sc := snd (OnCmdAngVel (f64 7) s) in
  let s' := snd (PreUpdate oneMs spinningWorld sc) in
  paused oneMs = false /\ enabled s = true /\ thrustCoefficientSet s = true
  /\ (of_Z 0 <? fluidDensity s) = true
  /\ (of_Z 0 <? pow (propellerDiameter s) 4) = true
  /\ clamp (fixnan (f64 7)) (cmdMin s) (cmdMax s) = f64 7
  /\ forallb is_normal
       (angularRoundTrip (fluidDensity s) (thrustCoefficient s)
          (pow (propellerDiameter s) 4) (f64 7)) = true
  /\ propellerAngVel sc = f64 7
  /\ propellerAngVel s' = f64 7.0000000000000009
  /\ (Rabs (F2R (propellerAngVel s') - F2R (f64 7))
      <= / 2 ^ 47 * Rabs (F2R (f64 7)))%R.
Proof.
  cbv zeta. do 9 (split; [reflexivity |]).
  exact (proj1 (proj2 (commanded_angular_velocity_survives_step
                         oneMs spinningWorld (configured fixedCoefficientSdf)
                         (f64 7) eq_refl eq_refl eq_refl))
           eq_refl eq_refl eq_refl).
Defined.

End DoubleRuns.
